(** * Press interaction engine of svelte-interactions: a shallow embedding

    The press engine ([createPress]) is a per-element state machine.  It is
    embedded here as pure functions over an explicit engine state that also
    return the list of observable effects they perform (callbacks invoked,
    custom events dispatched on the host, focus moves, ...).

    Conventions.
    - JavaScript numbers used for client coordinates are IEEE 754 binary64
      values ([float], round to nearest even): the hit test adds, subtracts,
      halves and compares them with the language's own rounding and NaN
      rules.
    - DOM elements are records carrying exactly the attributes the engine
      reads.
    - Consumer callbacks are opaque: a callback is a function telling whether
      it calls [continuePropagation()] on the event it receives.  Callbacks do
      not re-enter the engine in this model.
    - Events the engine itself dispatches on its target (the keyups replayed
      when Meta is released, the event [openLink] sends to an anchor) are
      delivered, as the browser does synchronously, to the listeners the
      engine has on its element and on the document.
    - [isVirtualClick], [isVirtualPointerEvent] and the platform tests
      ([isMac], [isWebKit], ...) live in the utilities of the library; they
      are taken as parameters ([Platform]). *)

From Stdlib Require Import Bool List String ZArith Floats Lia.
Import ListNotations.

Open Scope string_scope.
Open Scope bool_scope.

(* ------------------------------------------------------------------ *)
(** ** DOM data the engine reads *)

(** type Rect = { top, right, bottom, left } *)
Record Rect := mkRect {
  top : float;
  right : float;
  bottom : float;
  left : float
}.

(** type EventPoint: optional fields are [undefined] when [None]. *)
Record EventPoint := mkEventPoint {
  clientX : float;
  clientY : float;
  width : option float;
  height : option float;
  radiusX : option float;
  radiusY : option float
}.

(** The DOM interface an element is an instance of, as far as the engine's
    [instanceof] tests distinguish them.  Inputs and buttons carry their
    [type] property. *)
Inductive ElementClass :=
| HTMLInputElement (type : string)
| HTMLTextAreaElement
| HTMLButtonElement (type : string)
| HTMLElementOther
| SVGElementOther.

Record Element := mkElement {
  nodeId : nat;                      (* identity of the node *)
  elementClass : ElementClass;
  tagName : string;
  roleAttr : option string;          (* getAttribute('role') *)
  hasHref : bool;                    (* hasAttribute('href') *)
  hasDraggable : bool;               (* hasAttribute('draggable') *)
  isContentEditable : bool;
  boundingClientRect : Rect;         (* getBoundingClientRect() *)
  descendants : list nat             (* identities of the strict descendants *)
}.

(** node.contains(other): a node contains itself and its descendants. *)
Definition contains (node other : Element) : bool :=
  Nat.eqb (nodeId node) (nodeId other)
  || existsb (Nat.eqb (nodeId other)) (descendants node).

(** export type PointerType = 'mouse' | 'pen' | 'touch' | 'keyboard' | 'virtual' *)
Inductive PointerType := mouse | pen | touch | keyboard | virtual.

Definition PointerType_eqb (a b : PointerType) : bool :=
  match a, b with
  | mouse, mouse | pen, pen | touch, touch
  | keyboard, keyboard | virtual, virtual => true
  | _, _ => false
  end.

(** export type EventBase *)
Record EventBase := mkEventBase {
  currentTarget : option Element;
  shiftKey : bool;
  ctrlKey : bool;
  metaKey : bool;
  altKey : bool
}.

Module KeyboardEvent.
Record t := mk {
    key : string;
    code : string;
    repeat : bool;
    base : EventBase;
    target : Element;
    linkClicked : bool               (* e[LINK_CLICKED] *)
  }.
End KeyboardEvent.

Module MouseEvent.
(** Also used for click and dragstart events. *)
Record t := mk {
    button : Z;
    clientX : float;
    clientY : float;
    base : EventBase;
    target : Element
  }.
Definition point (e : t) : EventPoint :=
    mkEventPoint (clientX e) (clientY e) None None None None.
End MouseEvent.

Module PointerEvent.
Record t := mk {
    pointerId : Z;
    pointerType : PointerType;       (* e.pointerType as PointerType *)
    button : Z;
    clientX : float;
    clientY : float;
    width : option float;
    height : option float;
    base : EventBase;
    target : Element
  }.
Definition point (e : t) : EventPoint :=
    mkEventPoint (clientX e) (clientY e) (width e) (height e) None None.
End PointerEvent.

Module Touch.
Record t := mk {
    identifier : Z;
    clientX : float;
    clientY : float;
    radiusX : option float;
    radiusY : option float
  }.
Definition point (c : t) : EventPoint :=
    mkEventPoint (clientX c) (clientY c) None None (radiusX c) (radiusY c).
End Touch.

Module TouchEvent.
Record t := mk {
    targetTouches : list Touch.t;
    changedTouches : list Touch.t;
    base : EventBase;
    target : Element
  }.
End TouchEvent.

(* ------------------------------------------------------------------ *)
(** ** Hit testing and geometry *)

(** JavaScript [a > b] on numbers: false as soon as one of them is NaN. *)
Definition gt (a b : float) : bool := (b <? a)%float.

Definition getPointClientRect (point : EventPoint) : Rect :=
  let offsetX :=
    match width point with
    | Some w => (w / 2)%float
    | None => match radiusX point with Some r => r | None => 0%float end
    end in
  let offsetY :=
    match height point with
    | Some h => (h / 2)%float
    | None => match radiusY point with Some r => r | None => 0%float end
    end in
  {| top := (clientY point - offsetY)%float;
     right := (clientX point + offsetX)%float;
     bottom := (clientY point + offsetY)%float;
     left := (clientX point - offsetX)%float |}.

Definition areRectanglesOverlapping (a b : Rect) : bool :=
  (* check if they cannot overlap on x axis *)
  if gt (left a) (right b) || gt (left b) (right a) then false
  (* check if they cannot overlap on y axis *)
  else if gt (top a) (bottom b) || gt (top b) (bottom a) then false
  else true.

Definition isOverTarget (point : EventPoint) (target : Element) : bool :=
  let rect := boundingClientRect target in
  let pointRect := getPointClientRect point in
  areRectanglesOverlapping rect pointRect.

(** The hit test as the specification words it. *)
Module HitTestSpec.
(** Horizontal inflation: width/2 if width is given, else radiusX, else 0. *)
Definition inflateX (p : EventPoint) : float :=
    match width p, radiusX p with
    | Some w, _ => (w / 2)%float
    | None, Some r => r
    | None, None => 0%float
    end.

(** Vertical inflation: height/2 if height is given, else radiusY, else 0. *)
Definition inflateY (p : EventPoint) : float :=
    match height p, radiusY p with
    | Some h, _ => (h / 2)%float
    | None, Some r => r
    | None, None => 0%float
    end.

(** [r] is centred on the point and reaches [dx] to each side and [dy]
      up and down, the edges being computed as JavaScript computes them. *)
Definition centredOn (r : Rect) (p : EventPoint) (dx dy : float) : Prop :=
    left r = (clientX p - dx)%float /\ right r = (clientX p + dx)%float /\
    top r = (clientY p - dy)%float /\ bottom r = (clientY p + dy)%float.

(** [a < b] on numbers, as a proposition. *)
Definition lessThan (a b : float) : Prop := (a <? b)%float = true.

Definition strictlyLeftOf (a b : Rect) : Prop := lessThan (right a) (left b).
Definition strictlyAbove (a b : Rect) : Prop := lessThan (bottom a) (top b).

Definition overlap (a b : Rect) : Prop :=
    ~ (strictlyLeftOf a b \/ strictlyLeftOf b a \/
       strictlyAbove a b \/ strictlyAbove b a).
End HitTestSpec.

(* ------------------------------------------------------------------ *)
(** ** Exact values of binary64 numbers *)

(** Every finite binary64 number is an integer multiple of 2^-1074; its
    exact value is kept as that integer.  The infinities stand at
    2^2098 = 2^1024 / 2^-1074, beyond every finite number. *)
Definition maxValue : Z := (2 ^ 2098)%Z.

Definition exactValue (x : spec_float) : Z :=
  match x with
  | S754_zero _ | S754_nan => 0%Z
  | S754_infinity s => cond_Zopp s maxValue
  | S754_finite s m e => cond_Zopp s (Zpos m * 2 ^ (e + 1074))%Z
  end.

Definition isNaN (x : spec_float) : bool :=
  match x with S754_nan => true | _ => false end.

Definition isFiniteOrZero (x : spec_float) : bool :=
  match x with S754_zero _ | S754_finite _ _ _ => true | _ => false end.

(** [num / 2^k] rounded to the nearest integer, ties to even. *)
Definition rne (num k : Z) : Z :=
  let q := (num / 2 ^ k)%Z in
  match (2 * (num mod 2 ^ k) ?= 2 ^ k)%Z with
  | Lt => q
  | Gt => (q + 1)%Z
  | Eq => if Z.even q then q else (q + 1)%Z
  end.

(** The number of low bits a positive integer loses when it is rounded to
    53 significant bits. *)
Definition roundingShift (u : Z) : Z := Z.max (Z.log2 u + 1 - 53) 0.

(** A positive integer rounded to 53 significant bits. *)
Definition roundedValue (u : Z) : Z :=
  (rne u (roundingShift u) * 2 ^ roundingShift u)%Z.

(** An exact value rounded to binary64, overflow going to the infinities. *)
Definition roundedExact (z : Z) : Z :=
  match z with
  | Z0 => 0%Z
  | Zpos _ => Z.min (roundedValue z) maxValue
  | Zneg p => (- Z.min (roundedValue (Zpos p)) maxValue)%Z
  end.

(** What the shift register of the rounding procedure holds after [num] has
    been shifted right by [k] places: the quotient, the bit shifted out
    last (round) and whether anything was shifted out before it (sticky). *)
Definition shr_inv (num k : Z) (mrs : shr_record) : Prop :=
  (shr_m mrs = num / 2 ^ k /\
   (shr_r mrs = true <-> 2 ^ k <= 2 * (num mod 2 ^ k)) /\
   (shr_s mrs = true <->
    num mod 2 ^ k <> 0 /\ 2 * (num mod 2 ^ k) <> 2 ^ k))%Z.

(* ------------------------------------------------------------------ *)
(** ** Keyboard validity *)

Definition isHTMLAnchorLink (target : Element) : bool :=
  (tagName target =? "A") && hasHref target.

Definition nonTextInputTypes : list string :=
  ["checkbox"; "radio"; "range"; "color"; "file"; "image"; "button";
   "submit"; "reset"].

Definition set_has (s : list string) (x : string) : bool :=
  existsb (String.eqb x) s.

(** isValidInputKey(target, key) reads only [target.type], passed here. *)
Definition isValidInputKey (type key : string) : bool :=
  (* Only space should toggle checkboxes and radios, not enter. *)
  if (type =? "checkbox") || (type =? "radio")
  then key =? " "
  else set_has nonTextInputTypes type.

(** JavaScript truthiness of a [string | null]. *)
Definition truthy (s : option string) : bool :=
  match s with
  | None => false
  | Some v => negb (v =? "")
  end.

Definition isValidKeyboardEvent (event : KeyboardEvent.t)
    (currentTarget : Element) : bool :=
  let key := KeyboardEvent.key event in
  let code := KeyboardEvent.code event in
  let element := currentTarget in
  let role := roleAttr element in
  ((key =? "Enter") || (key =? " ") || (key =? "Spacebar") || (code =? "Space"))
  && negb
       (match elementClass element with
        | HTMLInputElement type => negb (isValidInputKey type key)
        | _ => false
        end
        || match elementClass element with
           | HTMLTextAreaElement => true
           | _ => false
           end
        || isContentEditable element)
  && negb
       ((match role with Some r => r =? "link" | None => false end
         || (negb (truthy role) && isHTMLAnchorLink element))
        && negb (key =? "Enter")).

Definition shouldPreventDefault (target : Element) : bool :=
  (* We cannot prevent default if the target is a draggable element. *)
  match elementClass target with
  | SVGElementOther => true
  | _ => negb (hasDraggable target)
  end.

Definition shouldPreventDefaultKeyboard (target : Element) (key : string)
    : bool :=
  match elementClass target with
  | HTMLInputElement type => negb (isValidInputKey type key)
  | HTMLButtonElement type => negb (type =? "submit") && negb (type =? "reset")
  | _ => if isHTMLAnchorLink target then false else true
  end.

(** Keyboard activation as the specification words it. *)
Module KeySpec.
(** The key is Enter, ' ', 'Spacebar', or the code is 'Space'. *)
Definition activationKey (e : KeyboardEvent.t) : Prop :=
    KeyboardEvent.key e = "Enter" \/ KeyboardEvent.key e = " " \/
    KeyboardEvent.key e = "Spacebar" \/ KeyboardEvent.code e = "Space".

(** An <input> whose type/key combination fails the non-text-input check,
      a <textarea>, or a content-editable element. *)
Definition textEntryCapable (el : Element) (key : string) : Prop :=
    (exists type, elementClass el = HTMLInputElement type /\
                  isValidInputKey type key = false) \/
    elementClass el = HTMLTextAreaElement \/
    isContentEditable el = true.

(** An anchor with an href and no role override. *)
Definition anchorLike (el : Element) : Prop :=
    (roleAttr el = None \/ roleAttr el = Some "") /\
    tagName el = "A" /\ hasHref el = true.

Definition linkRole (el : Element) : Prop := roleAttr el = Some "link".

Definition accepted (e : KeyboardEvent.t) (el : Element) : Prop :=
    activationKey e /\
    ~ textEntryCapable el (KeyboardEvent.key e) /\
    ~ ((anchorLike el \/ linkRole el) /\ KeyboardEvent.key e <> "Enter").
End KeySpec.

(* ------------------------------------------------------------------ *)
(** ** Press events, configuration and interaction state *)

Inductive PressEventType := pressstart | pressend | pressup | press.

Module PressEvent.
(** class PressEvent: built from a type, a pointer type and the origin. *)
Record t := mk {
  type : PressEventType;
  pointerType : PointerType;
  target : option Element;           (* originalEvent.currentTarget *)
  shiftKey : bool;
  ctrlKey : bool;
  metaKey : bool;
  altKey : bool
}.
End PressEvent.

Definition newPressEvent (type : PressEventType) (pointerType : PointerType)
    (originalEvent : EventBase) : PressEvent.t :=
  {| PressEvent.type := type;
     PressEvent.pointerType := pointerType;
     PressEvent.target := currentTarget originalEvent;
     PressEvent.shiftKey := shiftKey originalEvent;
     PressEvent.ctrlKey := ctrlKey originalEvent;
     PressEvent.metaKey := metaKey originalEvent;
     PressEvent.altKey := altKey originalEvent |}.

(** A consumer callback, as seen from the engine: [true] when it calls
    [continuePropagation()] on the event. *)
Definition Callback := PressEvent.t -> bool.

(** PressConfig after the defaults are merged in.  [hostListener] stands
    for the listeners of the custom events on the bound element; they
    receive the same event object as the callbacks. *)
Record PressConfig := mkPressConfig {
  onPress : option Callback;
  onPressStart : option Callback;
  onPressEnd : option Callback;
  onPressUp : option Callback;
  onPressChange : bool;              (* whether the callback is provided *)
  hostListener : Callback;
  isDisabled : bool;
  preventFocusOnPress : bool;
  shouldCancelOnPointerExit : bool;
  allowTextSelectionOnPress : bool
}.

(** Capabilities consumed from the utilities. *)
Record Platform := mkPlatform {
  isMac : bool;
  hasPointerEvent : bool;            (* typeof PointerEvent !== 'undefined' *)
  isVirtualClick : MouseEvent.t -> bool;
  isVirtualPointerEvent : PointerEvent.t -> bool;
  isWebKit : bool;
  isIPad : bool;
  isTestEnv : bool;                  (* process.env.NODE_ENV === 'test' *)
  (* isFirefox() && window.event?.type?.startsWith('key')
     && target.target === '_blank', for the anchor [target] *)
  needsModifierToOpen : Element -> bool
}.

(** A JavaScript [Map<string, KeyboardEvent>]: insertion ordered. *)
Definition KeyMap := list (string * KeyboardEvent.t).

Fixpoint map_set (k : string) (v : KeyboardEvent.t) (m : KeyMap) : KeyMap :=
  match m with
  | [] => [(k, v)]
  | (k', v') :: rest =>
      if k' =? k then (k, v) :: rest else (k', v') :: map_set k v rest
  end.

Definition map_delete (k : string) (m : KeyMap) : KeyMap :=
  filter (fun kv => negb (fst kv =? k)) m.

Definition map_values (m : KeyMap) : list KeyboardEvent.t := map snd m.

Module PressState.
Record t := mk {
  isPressed : bool;
  ignoreEmulatedMouseEvents : bool;
  ignoreClickAfterPress : bool;
  didFirePressStart : bool;
  isTriggeringEvent : bool;
  activePointerId : option Z;
  target : option Element;
  isOverTarget : bool;
  pointerType : option PointerType;
  metaKeyEvents : option KeyMap
}.

Definition initial : t :=
  {| isPressed := false;
     ignoreEmulatedMouseEvents := false;
     ignoreClickAfterPress := false;
     didFirePressStart := false;
     isTriggeringEvent := false;
     activePointerId := None;
     target := None;
     isOverTarget := false;
     pointerType := None;
     metaKeyEvents := None |}.

(** Field updates, one per field, for the [{ ...curr, f: v }] spreads. *)
Definition set_isPressed v (s : t) : t :=
  mk v (ignoreEmulatedMouseEvents s) (ignoreClickAfterPress s)
     (didFirePressStart s) (isTriggeringEvent s) (activePointerId s)
     (target s) (isOverTarget s) (pointerType s) (metaKeyEvents s).
Definition set_ignoreEmulatedMouseEvents v (s : t) : t :=
  mk (isPressed s) v (ignoreClickAfterPress s)
     (didFirePressStart s) (isTriggeringEvent s) (activePointerId s)
     (target s) (isOverTarget s) (pointerType s) (metaKeyEvents s).
Definition set_ignoreClickAfterPress v (s : t) : t :=
  mk (isPressed s) (ignoreEmulatedMouseEvents s) v
     (didFirePressStart s) (isTriggeringEvent s) (activePointerId s)
     (target s) (isOverTarget s) (pointerType s) (metaKeyEvents s).
Definition set_didFirePressStart v (s : t) : t :=
  mk (isPressed s) (ignoreEmulatedMouseEvents s) (ignoreClickAfterPress s)
     v (isTriggeringEvent s) (activePointerId s)
     (target s) (isOverTarget s) (pointerType s) (metaKeyEvents s).
Definition set_isTriggeringEvent v (s : t) : t :=
  mk (isPressed s) (ignoreEmulatedMouseEvents s) (ignoreClickAfterPress s)
     (didFirePressStart s) v (activePointerId s)
     (target s) (isOverTarget s) (pointerType s) (metaKeyEvents s).
Definition set_activePointerId v (s : t) : t :=
  mk (isPressed s) (ignoreEmulatedMouseEvents s) (ignoreClickAfterPress s)
     (didFirePressStart s) (isTriggeringEvent s) v
     (target s) (isOverTarget s) (pointerType s) (metaKeyEvents s).
Definition set_target v (s : t) : t :=
  mk (isPressed s) (ignoreEmulatedMouseEvents s) (ignoreClickAfterPress s)
     (didFirePressStart s) (isTriggeringEvent s) (activePointerId s)
     v (isOverTarget s) (pointerType s) (metaKeyEvents s).
Definition set_isOverTarget v (s : t) : t :=
  mk (isPressed s) (ignoreEmulatedMouseEvents s) (ignoreClickAfterPress s)
     (didFirePressStart s) (isTriggeringEvent s) (activePointerId s)
     (target s) v (pointerType s) (metaKeyEvents s).
Definition set_pointerType v (s : t) : t :=
  mk (isPressed s) (ignoreEmulatedMouseEvents s) (ignoreClickAfterPress s)
     (didFirePressStart s) (isTriggeringEvent s) (activePointerId s)
     (target s) (isOverTarget s) v (metaKeyEvents s).
Definition set_metaKeyEvents v (s : t) : t :=
  mk (isPressed s) (ignoreEmulatedMouseEvents s) (ignoreClickAfterPress s)
     (didFirePressStart s) (isTriggeringEvent s) (activePointerId s)
     (target s) (isOverTarget s) (pointerType s) v.
End PressState.

(** The handlers the engine registers on the document or the window. *)
Inductive GlobalHandler :=
| GKeyUp | GPointerMove | GPointerUp | GPointerCancel | GMouseUp | GScroll.

Definition GlobalHandler_eqb (a b : GlobalHandler) : bool :=
  match a, b with
  | GKeyUp, GKeyUp | GPointerMove, GPointerMove | GPointerUp, GPointerUp
  | GPointerCancel, GPointerCancel | GMouseUp, GMouseUp | GScroll, GScroll =>
      true
  | _, _ => false
  end.

(** Everything one [createPress] closure owns. *)
Record Engine := mkEngine {
  state : PressState.t;              (* the [state] store *)
  isPressedStore : bool;             (* the public [isPressed] store *)
  globalListeners : list GlobalHandler;
  nodeEl : option Element            (* the element the action is attached to *)
}.

Definition createPress : Engine :=
  {| state := PressState.initial;
     isPressedStore := false;
     globalListeners := [];
     nodeEl := None |}.

(** pressAction(node), as far as the engine state goes. *)
Definition pressAction (node : Element) (eng : Engine) : Engine :=
  mkEngine (state eng) (isPressedStore eng) (globalListeners eng) (Some node).

(** Observable effects, in the order they happen. *)
Inductive Effect :=
| CallbackCalled (e : PressEvent.t)          (* onPressStart?.(event), ... *)
| Dispatched (node : Element) (e : PressEvent.t) (* nodeEl.dispatchEvent(...) *)
| PressChange (pressed : bool)               (* onPressChange?.(pressed) *)
| Focus (el : Element)                       (* focusWithoutScrolling *)
| DisableTextSelection (el : Element)
| RestoreTextSelection (el : Element)
| PreventDefault
| StopPropagation
| AddGlobalListener (h : GlobalHandler)
| RemoveAllGlobalListeners
| OpenLink (el : Element)
| KeyUpDispatched (el : Element) (e : KeyboardEvent.t).

(* ------------------------------------------------------------------ *)
(** ** A small state-and-trace monad *)

Definition M (A : Type) : Type := Engine -> A * Engine * list Effect.

Definition ret {A} (a : A) : M A := fun eng => (a, eng, []).

Definition bind {A B} (m : M A) (f : A -> M B) : M B :=
  fun eng =>
    let '(a, eng1, t1) := m eng in
    let '(b, eng2, t2) := f a eng1 in
    (b, eng2, (t1 ++ t2)%list).

Declare Scope press_scope.
Delimit Scope press_scope with press.
Notation "x <- m ;; k" := (bind m (fun x => k))
  (at level 61, m at next level, right associativity) : press_scope.
Notation "m ;; k" := (bind m (fun _ => k))
  (at level 61, right associativity) : press_scope.
Open Scope press_scope.

(** get(state) *)
Definition getState : M PressState.t := fun eng => (state eng, eng, []).

(** state.update(f) *)
Definition update (f : PressState.t -> PressState.t) : M unit :=
  fun eng =>
    (tt, mkEngine (f (state eng)) (isPressedStore eng) (globalListeners eng)
           (nodeEl eng), []).

(** isPressed.set(v) *)
Definition setIsPressed (v : bool) : M unit :=
  fun eng =>
    (tt, mkEngine (state eng) v (globalListeners eng) (nodeEl eng), []).

Definition emit (e : Effect) : M unit := fun eng => (tt, eng, [e]).

Definition when (b : bool) (m : M unit) : M unit := if b then m else ret tt.

Definition addGlobalListener (h : GlobalHandler) : M unit :=
  fun eng =>
    let ls := globalListeners eng in
    let ls' := if existsb (GlobalHandler_eqb h) ls then ls else (ls ++ [h])%list in
    (tt, mkEngine (state eng) (isPressedStore eng) ls' (nodeEl eng),
     [AddGlobalListener h]).

Definition removeAllGlobalListeners : M unit :=
  fun eng =>
    (tt, mkEngine (state eng) (isPressedStore eng) [] (nodeEl eng),
     [RemoveAllGlobalListeners]).

(** Result, final engine state and trace of a run. *)
Definition result {A} (r : A * Engine * list Effect) : A := fst (fst r).
Definition final {A} (r : A * Engine * list Effect) : Engine := snd (fst r).
Definition trace {A} (r : A * Engine * list Effect) : list Effect := snd r.

(* ------------------------------------------------------------------ *)
(** ** Lifecycle triggers *)

(** cb?.(event) *)
Definition call (cb : option Callback) (event : PressEvent.t) : M bool :=
  match cb with
  | Some f => emit (CallbackCalled event) ;; ret (f event)
  | None => ret false
  end.

(** dispatchPressEvent: nodeEl?.dispatchEvent(new CustomEvent(...)).  The
    result tells whether a listener called [continuePropagation()]. *)
Definition dispatchPressEvent (cfg : PressConfig) (pressEvent : PressEvent.t)
    : M bool :=
  fun eng =>
    match nodeEl eng with
    | Some node => (hostListener cfg pressEvent, eng, [Dispatched node pressEvent])
    | None => (false, eng, [])
    end.

Definition triggerPressStart (cfg : PressConfig) (originalEvent : EventBase)
    (pointerType : PointerType) : M bool :=
  st <- getState ;;
  if isDisabled cfg || PressState.didFirePressStart st then ret false
  else
    update (PressState.set_isTriggeringEvent true) ;;
    let event := newPressEvent pressstart pointerType originalEvent in
    c1 <- call (onPressStart cfg) event ;;
    c2 <- dispatchPressEvent cfg event ;;
    let shouldStopPropagation := negb (c1 || c2) in
    when (onPressChange cfg) (emit (PressChange true)) ;;
    update (fun curr =>
      PressState.set_didFirePressStart true
        (PressState.set_isTriggeringEvent false curr)) ;;
    setIsPressed true ;;
    ret shouldStopPropagation.

Definition triggerPressEnd (cfg : PressConfig) (originalEvent : EventBase)
    (pointerType : PointerType) (wasPressed : bool) : M bool :=
  st <- getState ;;
  if negb (PressState.didFirePressStart st) then ret false
  else
    update (fun curr =>
      PressState.set_isTriggeringEvent true
        (PressState.set_didFirePressStart false
           (PressState.set_ignoreClickAfterPress true curr))) ;;
    let event := newPressEvent pressend pointerType originalEvent in
    c1 <- call (onPressEnd cfg) event ;;
    c2 <- dispatchPressEvent cfg event ;;
    let shouldStopPropagation := negb (c1 || c2) in
    when (onPressChange cfg) (emit (PressChange false)) ;;
    setIsPressed false ;;
    stop <-
      (if wasPressed && negb (isDisabled cfg) then
         let event := newPressEvent press pointerType originalEvent in
         d1 <- call (onPress cfg) event ;;
         d2 <- dispatchPressEvent cfg event ;;
         ret (shouldStopPropagation && negb (d1 || d2))
       else ret shouldStopPropagation) ;;
    update (PressState.set_isTriggeringEvent false) ;;
    ret stop.

Definition triggerPressUp (cfg : PressConfig) (originalEvent : EventBase)
    (pointerType : PointerType) : M bool :=
  if isDisabled cfg then ret false
  else
    update (PressState.set_isTriggeringEvent true) ;;
    let event := newPressEvent pressup pointerType originalEvent in
    c1 <- call (onPressUp cfg) event ;;
    c2 <- dispatchPressEvent cfg event ;;
    update (PressState.set_isTriggeringEvent false) ;;
    ret (negb (c1 || c2)).

Definition createEvent (target : Element) (e : EventBase) : EventBase :=
  {| currentTarget := Some target;
     shiftKey := shiftKey e;
     ctrlKey := ctrlKey e;
     metaKey := metaKey e;
     altKey := altKey e |}.

Definition cancel (cfg : PressConfig) (e : EventBase) : M unit :=
  st <- getState ;;
  match PressState.target st with
  | Some target =>
      if PressState.isPressed st then
        match PressState.pointerType st with
        | Some pointerType =>
            if PressState.isOverTarget st then
              triggerPressEnd cfg (createEvent target e) pointerType false ;;
              ret tt
            else ret tt
        | None => ret tt
        end ;;
        update (fun curr =>
          PressState.set_pointerType None
            (PressState.set_activePointerId None
               (PressState.set_isOverTarget false
                  (PressState.set_isPressed false curr)))) ;;
        removeAllGlobalListeners ;;
        when (negb (allowTextSelectionOnPress cfg))
          (emit (RestoreTextSelection target))
      else ret tt
  | None => ret tt
  end.

Definition cancelOnPointerExit (cfg : PressConfig) (e : EventBase) : M unit :=
  if shouldCancelOnPointerExit cfg then cancel cfg e else ret tt.

(* ------------------------------------------------------------------ *)
(** ** Input adapters *)

Definition optZ_eqb (a : Z) (b : option Z) : bool :=
  match b with Some b' => Z.eqb a b' | None => false end.

Fixpoint forEach {A} (l : list A) (f : A -> M unit) : M unit :=
  match l with
  | [] => ret tt
  | x :: rest => f x ;; forEach rest f
  end.

(** A listener registered with addGlobalListener runs only while it is
    registered. *)
Definition ifRegistered (h : GlobalHandler) (m : M unit) : M unit :=
  fun eng =>
    if existsb (GlobalHandler_eqb h) (globalListeners eng) then m eng
    else (tt, eng, []).

(** [target.dispatchEvent(event)] as far as the engine hears it on its own
    element: the listener [pressAction] attached to the element runs, with
    that element as [currentTarget], when the event passes through it, that
    is when the element is the target or, for a bubbling event, holds it. *)
Definition onElement (bubbles : bool) (target : Element)
    (listener : Element -> M unit) : M unit :=
  fun eng =>
    match nodeEl eng with
    | Some node =>
        if (if bubbles then contains node target
            else Nat.eqb (nodeId node) (nodeId target))
        then listener node eng
        else (tt, eng, [])
    | None => (tt, eng, [])
    end.

(** [const $state = get(state)] followed by the test
    [$state.isPressed && $state.target && isValidKeyboardEvent(e, $state.target)]:
    the target when the test passes. *)
Definition pressedValidTarget (st : PressState.t) (e : KeyboardEvent.t)
    : option Element :=
  match PressState.target st with
  | Some target =>
      if PressState.isPressed st && isValidKeyboardEvent e target
      then Some target else None
  | None => None
  end.

Module BaseHandlers.
Definition onKeyDown (pf : Platform) (cfg : PressConfig)
    (e : KeyboardEvent.t) : M unit :=
  match currentTarget (KeyboardEvent.base e) with
  | None => ret tt
  | Some currentTarget =>
      let key := KeyboardEvent.key e in
      if isValidKeyboardEvent e currentTarget
         && contains currentTarget (KeyboardEvent.target e) then
        when (shouldPreventDefaultKeyboard (KeyboardEvent.target e) key)
          (emit PreventDefault) ;;
        st <- getState ;;
        (* only handle the first key down event *)
        shouldStopPropagation <-
          (if negb (PressState.isPressed st) && negb (KeyboardEvent.repeat e)
           then
             update (fun curr =>
               PressState.set_isPressed true
                 (PressState.set_target (Some currentTarget) curr)) ;;
             stop <- triggerPressStart cfg (KeyboardEvent.base e) keyboard ;;
             addGlobalListener GKeyUp ;;
             ret stop
           else ret true) ;;
        when shouldStopPropagation (emit StopPropagation) ;;
        (* keep track of the keydown events that occur while Meta is held *)
        when (metaKey (KeyboardEvent.base e) && isMac pf)
          (update (PressState.set_metaKeyEvents
             (option_map (map_set key e) (PressState.metaKeyEvents st))))
      else if key =? "Meta" then
        update (PressState.set_metaKeyEvents (Some []))
      else ret tt
  end.

Definition onKeyUp (cfg : PressConfig) (e : KeyboardEvent.t) : M unit :=
  match currentTarget (KeyboardEvent.base e) with
  | None => ret tt
  | Some currentTarget =>
      st <- getState ;;
      match PressState.target st with
      | Some stTarget =>
          if isValidKeyboardEvent e currentTarget
             && negb (KeyboardEvent.repeat e)
             && contains currentTarget (KeyboardEvent.target e)
          then
            triggerPressUp cfg (createEvent stTarget (KeyboardEvent.base e))
              keyboard ;;
            ret tt
          else ret tt
      | None => ret tt
      end
  end.

(** [isOpening] is the value of [(openLink as any).isOpening] when the
    click arrives. *)
Definition onClick (pf : Platform) (cfg : PressConfig) (isOpening : bool)
    (e : MouseEvent.t) : M unit :=
  st <- getState ;;
  match currentTarget (MouseEvent.base e) with
  | None => ret tt
  | Some currentTarget =>
      if negb (contains currentTarget (MouseEvent.target e)) then ret tt
      else if Z.eqb (MouseEvent.button e) 0
              && negb (PressState.isTriggeringEvent st)
              && isOpening then
        when (isDisabled cfg) (emit PreventDefault) ;;
        (* If triggered from a screen reader or by using element.click(),
           trigger as if it were a keyboard click. *)
        shouldStopPropagation <-
          (if negb (PressState.ignoreClickAfterPress st)
              && negb (PressState.ignoreEmulatedMouseEvents st)
              && negb (PressState.isPressed st)
              && (match PressState.pointerType st with
                  | Some pt => PointerType_eqb pt virtual
                  | None => false
                  end
                  || isVirtualClick pf e)
           then
             (* Ensure the element receives focus *)
             when (negb (isDisabled cfg) && negb (preventFocusOnPress cfg))
               (emit (Focus currentTarget)) ;;
             stopPressStart <- triggerPressStart cfg (MouseEvent.base e) virtual ;;
             stopPressUp <- triggerPressUp cfg (MouseEvent.base e) virtual ;;
             stopPressEnd <-
               triggerPressEnd cfg (MouseEvent.base e) virtual true ;;
             ret (stopPressStart && stopPressUp && stopPressEnd)
           else ret true) ;;
        update (fun curr =>
          PressState.set_ignoreClickAfterPress false
            (PressState.set_ignoreEmulatedMouseEvents false curr)) ;;
        when shouldStopPropagation (emit StopPropagation)
      else ret tt
  end.
End BaseHandlers.

(** openLink(target, modifiers, setOpening) of the utilities: sets the
    isOpening flag to [setOpening], focuses the anchor and dispatches on it
    the event that makes the browser follow the link, a bubbling click or,
    on WebKit for Mac, a keydown that carries no key and does not bubble.
    The engine's own listener on the element hears that event. *)
Definition openLink (pf : Platform) (cfg : PressConfig) (target : Element)
    (modifiers : EventBase) (setOpening : bool) : M unit :=
  let forced := needsModifierToOpen pf target in
  let metaKey' := if forced && isMac pf then true else metaKey modifiers in
  let ctrlKey' :=
    if forced && negb (isMac pf) then true else ctrlKey modifiers in
  let base node :=
    mkEventBase (Some node) (shiftKey modifiers) ctrlKey' metaKey'
      (altKey modifiers) in
  emit (Focus target) ;;
  emit (OpenLink target) ;;
  if isWebKit pf && isMac pf && negb (isIPad pf) && negb (isTestEnv pf) then
    onElement false target (fun node =>
      BaseHandlers.onKeyDown pf cfg
        {| KeyboardEvent.key := "";
           KeyboardEvent.code := "";
           KeyboardEvent.repeat := false;
           KeyboardEvent.base := base node;
           KeyboardEvent.target := target;
           KeyboardEvent.linkClicked := false |})
  else
    onElement true target (fun node =>
      BaseHandlers.onClick pf cfg setOpening
        {| MouseEvent.button := 0;
           MouseEvent.clientX := 0;
           MouseEvent.clientY := 0;
           MouseEvent.base := base node;
           MouseEvent.target := target |}).

(** new KeyboardEvent('keyup', event) dispatched on [target]: the recorded
    keydown [event] serves as the init dictionary, so key, code, repeat and
    the modifiers are copied (and it bubbles, as native keyboard events do);
    the link-clicked mark is not. *)
Definition synthesizedKeyUp (event : KeyboardEvent.t) (target : Element)
    (currentTarget : option Element) : KeyboardEvent.t :=
  {| KeyboardEvent.key := KeyboardEvent.key event;
     KeyboardEvent.code := KeyboardEvent.code event;
     KeyboardEvent.repeat := KeyboardEvent.repeat event;
     KeyboardEvent.base :=
       mkEventBase currentTarget
         (shiftKey (KeyboardEvent.base event))
         (ctrlKey (KeyboardEvent.base event))
         (metaKey (KeyboardEvent.base event))
         (altKey (KeyboardEvent.base event));
     KeyboardEvent.target := target;
     KeyboardEvent.linkClicked := false |}.

(** $state.target?.dispatchEvent(new KeyboardEvent('keyup', event)) for a
    target that is set: the keyup goes through the element, where the
    element's keyup listener hears it, and bubbles to the document, where
    the document keyup listener hears it if still registered ([again]). *)
Definition dispatchKeyUp (again : KeyboardEvent.t -> M unit)
    (cfg : PressConfig) (target : Element) (event : KeyboardEvent.t)
    : M unit :=
  emit (KeyUpDispatched target (synthesizedKeyUp event target None)) ;;
  onElement true target (fun node =>
    BaseHandlers.onKeyUp cfg (synthesizedKeyUp event target (Some node))) ;;
  ifRegistered GKeyUp (again (synthesizedKeyUp event target None)).

(** function onKeyUp: the document-level keyup listener.  A replayed keyup
    reaches this listener again; [depth] bounds that nesting. *)
Fixpoint onKeyUpAt (depth : nat) (pf : Platform) (cfg : PressConfig)
    (e : KeyboardEvent.t) : M unit :=
  st <- getState ;;
  let key := KeyboardEvent.key e in
  match pressedValidTarget st e with
  | Some stTarget =>
      when (shouldPreventDefaultKeyboard (KeyboardEvent.target e) key)
        (emit PreventDefault) ;;
      let target := KeyboardEvent.target e in
      shouldStopPropagation <-
        triggerPressEnd cfg (createEvent stTarget (KeyboardEvent.base e))
          keyboard (contains stTarget target) ;;
      removeAllGlobalListeners ;;
      when shouldStopPropagation (emit StopPropagation) ;;
      (* If a link was triggered with a key other than Enter, open the URL
         ourselves. *)
      when (negb (key =? "Enter") && isHTMLAnchorLink stTarget
            && contains stTarget target && negb (KeyboardEvent.linkClicked e))
        (openLink pf cfg stTarget (KeyboardEvent.base e) false) ;;
      update (fun curr =>
        PressState.set_metaKeyEvents
          (option_map (map_delete key) (PressState.metaKeyEvents st))
          (PressState.set_isPressed false curr))
  | None =>
      match PressState.metaKeyEvents st with
      | Some events =>
          if (key =? "Meta") && negb (Nat.eqb (List.length events) 0) then
            (* fire the keyup events that were never received *)
            update (PressState.set_metaKeyEvents None) ;;
            forEach (map_values events) (fun event =>
              match PressState.target st with
              | Some target =>
                  match depth with
                  | S depth' =>
                      dispatchKeyUp (onKeyUpAt depth' pf cfg) cfg target event
                  | O =>
                      (* nesting exhausted: the keyup is sent, not heard *)
                      emit (KeyUpDispatched target
                              (synthesizedKeyUp event target None))
                  end
              | None => ret tt
              end)
          else ret tt
      | None => ret tt
      end
  end.

(** The listener as registered: a replayed keyup finds the record of keys
    held with Meta already cleared, so it replays nothing itself and one
    level of nesting is all there is (see [onKeyUp_depth_enough]). *)
Definition onKeyUp (pf : Platform) (cfg : PressConfig) (e : KeyboardEvent.t)
    : M unit :=
  onKeyUpAt 1 pf cfg e.

(** The branches shared by the release handlers:
    [if (over && pointerType != null) end(true)
     else if ($state.isOverTarget && pointerType != null) end(false)]. *)
Definition endOnRelease (cfg : PressConfig) (st : PressState.t)
    (origin : EventBase) (over : bool) : M unit :=
  match PressState.pointerType st with
  | Some pointerType =>
      if over then triggerPressEnd cfg origin pointerType true ;; ret tt
      else if PressState.isOverTarget st then
        triggerPressEnd cfg origin pointerType false ;; ret tt
      else ret tt
  | None => ret tt
  end.

Module PointerHandlers.
Definition onPointerUp (cfg : PressConfig) (e : PointerEvent.t) : M unit :=
  st <- getState ;;
  match PressState.target st with
  | Some target =>
      if optZ_eqb (PointerEvent.pointerId e) (PressState.activePointerId st)
         && PressState.isPressed st
         && Z.eqb (PointerEvent.button e) 0 then
        endOnRelease cfg st (createEvent target (PointerEvent.base e))
          (isOverTarget (PointerEvent.point e) target) ;;
        update (fun curr =>
          PressState.set_pointerType None
            (PressState.set_activePointerId None
               (PressState.set_isOverTarget false
                  (PressState.set_isPressed false curr)))) ;;
        removeAllGlobalListeners ;;
        when (negb (allowTextSelectionOnPress cfg))
          (emit (RestoreTextSelection target))
      else ret tt
  | None => ret tt
  end.

Definition onPointerMove (cfg : PressConfig) (e : PointerEvent.t) : M unit :=
  st <- getState ;;
  if negb (optZ_eqb (PointerEvent.pointerId e) (PressState.activePointerId st))
  then ret tt
  else
    match PressState.target st, PressState.pointerType st with
    | Some target, Some pointerType =>
        if isOverTarget (PointerEvent.point e) target then
          if negb (PressState.isOverTarget st) then
            update (PressState.set_isOverTarget true) ;;
            triggerPressStart cfg (createEvent target (PointerEvent.base e))
              pointerType ;;
            ret tt
          else ret tt
        else if PressState.isOverTarget st then
          update (PressState.set_isOverTarget false) ;;
          triggerPressEnd cfg (createEvent target (PointerEvent.base e))
            pointerType false ;;
          cancelOnPointerExit cfg (PointerEvent.base e)
        else ret tt
    | _, _ => ret tt
    end.

Definition onPointerCancel (cfg : PressConfig) (e : PointerEvent.t) : M unit :=
  cancel cfg (PointerEvent.base e).

Module handlers.
Definition onPointerDown (pf : Platform) (cfg : PressConfig)
    (e : PointerEvent.t) : M unit :=
  match currentTarget (PointerEvent.base e) with
  | None => ret tt
  | Some currentTarget =>
      if negb (Z.eqb (PointerEvent.button e) 0)
         || negb (contains currentTarget (PointerEvent.target e))
      then ret tt
      else
        st <- getState ;;
        (* pointer events from VoiceOver: let the onClick handler take care *)
        if isVirtualPointerEvent pf e then
          update (PressState.set_pointerType (Some virtual))
        else
          update (PressState.set_pointerType
                    (Some (PointerEvent.pointerType e))) ;;
          shouldStopPropagation <-
            (if negb (PressState.isPressed st) then
               update (fun curr =>
                 PressState.set_target (Some currentTarget)
                   (PressState.set_activePointerId
                      (Some (PointerEvent.pointerId e))
                      (PressState.set_isOverTarget true
                         (PressState.set_isPressed true curr)))) ;;
               when (negb (isDisabled cfg) && negb (preventFocusOnPress cfg))
                 (emit (Focus currentTarget)) ;;
               when (negb (allowTextSelectionOnPress cfg))
                 (emit (DisableTextSelection currentTarget)) ;;
               stop <- triggerPressStart cfg (PointerEvent.base e)
                         (PointerEvent.pointerType e) ;;
               addGlobalListener GPointerMove ;;
               addGlobalListener GPointerUp ;;
               addGlobalListener GPointerCancel ;;
               ret stop
             else ret true) ;;
          when shouldStopPropagation (emit StopPropagation)
  end.

Definition onMouseDown (e : MouseEvent.t) : M unit :=
  match currentTarget (MouseEvent.base e) with
  | None => ret tt
  | Some currentTarget =>
      if negb (contains currentTarget (MouseEvent.target e)) then ret tt
      else if Z.eqb (MouseEvent.button e) 0 then
        when (shouldPreventDefault currentTarget) (emit PreventDefault) ;;
        emit StopPropagation
      else ret tt
  end.

Definition onPointerUp (cfg : PressConfig) (e : PointerEvent.t) : M unit :=
  match currentTarget (PointerEvent.base e) with
  | None => ret tt
  | Some currentTarget =>
      st <- getState ;;
      if negb (contains currentTarget (PointerEvent.target e))
         || match PressState.pointerType st with
            | Some pt => PointerType_eqb pt virtual
            | None => false
            end
      then ret tt
      (* Only handle left clicks, and double check the hit test. *)
      else if Z.eqb (PointerEvent.button e) 0
              && isOverTarget (PointerEvent.point e) currentTarget then
        triggerPressUp cfg (PointerEvent.base e)
          (match PressState.pointerType st with
           | Some pt => pt
           | None => PointerEvent.pointerType e
           end) ;;
        ret tt
      else ret tt
  end.
End handlers.
End PointerHandlers.

Definition getTouchFromEvent (event : TouchEvent.t) : option Touch.t :=
  match TouchEvent.targetTouches event with
  | c :: _ => Some c
  | [] => None
  end.

Definition getTouchById (event : TouchEvent.t) (pointerId : option Z)
    : option Touch.t :=
  find (fun c => optZ_eqb (Touch.identifier c) pointerId)
       (TouchEvent.changedTouches event).

(** The target of a scroll event: the document or an element. *)
Inductive ScrollTarget := ScrollDocument | ScrollElement (el : Element).

(** (e.target as Element).contains($state.target) *)
Definition scrollContains (t : ScrollTarget) (target : option Element) : bool :=
  match target with
  | None => false
  | Some el =>
      match t with
      | ScrollDocument => true
      | ScrollElement container => contains container el
      end
  end.

Module NonPointerHandlers.
Definition onMouseUp (cfg : PressConfig) (e : MouseEvent.t) : M unit :=
  (* Only handle left clicks *)
  if negb (Z.eqb (MouseEvent.button e) 0) then ret tt
  else
    st <- getState ;;
    update (PressState.set_isPressed false) ;;
    removeAllGlobalListeners ;;
    if PressState.ignoreEmulatedMouseEvents st then
      update (PressState.set_ignoreEmulatedMouseEvents false)
    else
      match PressState.target st with
      | Some target =>
          endOnRelease cfg st (createEvent target (MouseEvent.base e))
            (isOverTarget (MouseEvent.point e) target)
      | None => ret tt
      end ;;
      update (PressState.set_isOverTarget false).

Definition onScroll (cfg : PressConfig) (e : ScrollTarget) : M unit :=
  st <- getState ;;
  if PressState.isPressed st && scrollContains e (PressState.target st) then
    cancel cfg {| currentTarget := PressState.target st;
                  shiftKey := false;
                  ctrlKey := false;
                  metaKey := false;
                  altKey := false |}
  else ret tt.

Module handlers.
Definition onMouseDown (pf : Platform) (cfg : PressConfig)
    (e : MouseEvent.t) : M unit :=
  match currentTarget (MouseEvent.base e) with
  | None => ret tt
  | Some currentTarget =>
      st <- getState ;;
      (* Only handle left clicks *)
      if negb (Z.eqb (MouseEvent.button e) 0)
         || negb (contains currentTarget (MouseEvent.target e))
      then ret tt
      else
        when (shouldPreventDefault currentTarget) (emit PreventDefault) ;;
        if PressState.ignoreEmulatedMouseEvents st then emit StopPropagation
        else
          let pointerType := if isVirtualClick pf e then virtual else mouse in
          update (fun curr =>
            PressState.set_pointerType (Some pointerType)
              (PressState.set_target (Some currentTarget)
                 (PressState.set_isOverTarget true
                    (PressState.set_isPressed true curr)))) ;;
          when (negb (isDisabled cfg) && negb (preventFocusOnPress cfg))
            (emit (Focus currentTarget)) ;;
          shouldStopPropagation <-
            triggerPressStart cfg (MouseEvent.base e) pointerType ;;
          when shouldStopPropagation (emit StopPropagation) ;;
          addGlobalListener GMouseUp
  end.

Definition onMouseEnter (cfg : PressConfig) (e : MouseEvent.t) : M unit :=
  match currentTarget (MouseEvent.base e) with
  | None => ret tt
  | Some currentTarget =>
      if negb (contains currentTarget (MouseEvent.target e)) then ret tt
      else
        st <- getState ;;
        shouldStopPropagation <-
          match PressState.pointerType st with
          | Some pointerType =>
              if PressState.isPressed st
                 && negb (PressState.ignoreEmulatedMouseEvents st) then
                update (PressState.set_isOverTarget true) ;;
                triggerPressStart cfg (MouseEvent.base e) pointerType
              else ret true
          | None => ret true
          end ;;
        when shouldStopPropagation (emit StopPropagation)
  end.

Definition onMouseLeave (cfg : PressConfig) (e : MouseEvent.t) : M unit :=
  match currentTarget (MouseEvent.base e) with
  | None => ret tt
  | Some currentTarget =>
      if negb (contains currentTarget (MouseEvent.target e)) then ret tt
      else
        st <- getState ;;
        shouldStopPropagation <-
          match PressState.pointerType st with
          | Some pointerType =>
              if PressState.isPressed st
                 && negb (PressState.ignoreEmulatedMouseEvents st) then
                update (PressState.set_isOverTarget false) ;;
                stop <- triggerPressEnd cfg (MouseEvent.base e)
                          pointerType false ;;
                cancelOnPointerExit cfg (MouseEvent.base e) ;;
                ret stop
              else ret true
          | None => ret true
          end ;;
        when shouldStopPropagation (emit StopPropagation)
  end.

Definition onMouseUp (cfg : PressConfig) (e : MouseEvent.t) : M unit :=
  match currentTarget (MouseEvent.base e) with
  | None => ret tt
  | Some currentTarget =>
      if negb (contains currentTarget (MouseEvent.target e)) then ret tt
      else
        st <- getState ;;
        if negb (PressState.ignoreEmulatedMouseEvents st)
           && Z.eqb (MouseEvent.button e) 0 then
          triggerPressUp cfg (MouseEvent.base e)
            (match PressState.pointerType st with
             | Some pt => pt
             | None => mouse
             end) ;;
          ret tt
        else ret tt
  end.

Definition onTouchStart (cfg : PressConfig) (e : TouchEvent.t) : M unit :=
  match currentTarget (TouchEvent.base e) with
  | None => ret tt
  | Some currentTarget =>
      if negb (contains currentTarget (TouchEvent.target e)) then ret tt
      else
        match getTouchFromEvent e with
        | None => ret tt
        | Some c =>
            update (fun curr =>
              PressState.set_pointerType (Some touch)
                (PressState.set_target (Some currentTarget)
                   (PressState.set_isPressed true
                      (PressState.set_isOverTarget true
                         (PressState.set_ignoreEmulatedMouseEvents true
                            (PressState.set_activePointerId
                               (Some (Touch.identifier c)) curr)))))) ;;
            when (negb (isDisabled cfg) && negb (preventFocusOnPress cfg))
              (emit (Focus currentTarget)) ;;
            st <- getState ;;
            when (negb (allowTextSelectionOnPress cfg))
              (match PressState.target st with
               | Some target => emit (DisableTextSelection target)
               | None => ret tt
               end) ;;
            shouldStopPropagation <-
              triggerPressStart cfg (TouchEvent.base e)
                (* $state.pointerType as PointerType: 'touch' was just stored *)
                (match PressState.pointerType st with
                 | Some pt => pt
                 | None => touch
                 end) ;;
            when shouldStopPropagation (emit StopPropagation) ;;
            addGlobalListener GScroll
        end
  end.

Definition touchOver (c : option Touch.t) (currentTarget : Element) : bool :=
  match c with
  | Some c => isOverTarget (Touch.point c) currentTarget
  | None => false
  end.

Definition onTouchMove (cfg : PressConfig) (e : TouchEvent.t) : M unit :=
  match currentTarget (TouchEvent.base e) with
  | None => ret tt
  | Some currentTarget =>
      if negb (contains currentTarget (TouchEvent.target e)) then ret tt
      else
        st <- getState ;;
        if negb (PressState.isPressed st) then emit StopPropagation
        else
          let c := getTouchById e (PressState.activePointerId st) in
          shouldStopPropagation <-
            match PressState.pointerType st with
            | Some pointerType =>
                if touchOver c currentTarget then
                  if negb (PressState.isOverTarget st) then
                    update (PressState.set_isOverTarget true) ;;
                    triggerPressStart cfg (TouchEvent.base e) pointerType
                  else ret true
                else if PressState.isOverTarget st then
                  update (PressState.set_isOverTarget false) ;;
                  stop <- triggerPressEnd cfg (TouchEvent.base e)
                            pointerType false ;;
                  cancelOnPointerExit cfg (TouchEvent.base e) ;;
                  ret stop
                else ret true
            | None => ret true
            end ;;
          when shouldStopPropagation (emit StopPropagation)
  end.

Definition onTouchEnd (cfg : PressConfig) (e : TouchEvent.t) : M unit :=
  match currentTarget (TouchEvent.base e) with
  | None => ret tt
  | Some currentTarget =>
      if negb (contains currentTarget (TouchEvent.target e)) then ret tt
      else
        st <- getState ;;
        if negb (PressState.isPressed st) then emit StopPropagation
        else
          let c := getTouchById e (PressState.activePointerId st) in
          shouldStopPropagation <-
            match PressState.pointerType st with
            | Some pointerType =>
                if touchOver c currentTarget then
                  triggerPressUp cfg (TouchEvent.base e) pointerType ;;
                  triggerPressEnd cfg (TouchEvent.base e) pointerType true
                else if PressState.isOverTarget st then
                  triggerPressEnd cfg (TouchEvent.base e) pointerType false
                else ret true
            | None => ret true
            end ;;
          when shouldStopPropagation (emit StopPropagation) ;;
          update (fun curr =>
            PressState.set_ignoreEmulatedMouseEvents true
              (PressState.set_isOverTarget false
                 (PressState.set_activePointerId None
                    (PressState.set_isPressed false curr)))) ;;
          match PressState.target st with
          | Some target =>
              when (negb (allowTextSelectionOnPress cfg))
                (emit (RestoreTextSelection target))
          | None => ret tt
          end ;;
          removeAllGlobalListeners
  end.

Definition onTouchCancel (cfg : PressConfig) (e : TouchEvent.t) : M unit :=
  match currentTarget (TouchEvent.base e) with
  | None => ret tt
  | Some currentTarget =>
      if negb (contains currentTarget (TouchEvent.target e)) then ret tt
      else
        emit StopPropagation ;;
        st <- getState ;;
        if PressState.isPressed st then cancel cfg (TouchEvent.base e)
        else ret tt
  end.

Definition onDragStart (cfg : PressConfig) (e : MouseEvent.t) : M unit :=
  match currentTarget (MouseEvent.base e) with
  | None => ret tt
  | Some currentTarget =>
      if negb (contains currentTarget (MouseEvent.target e)) then ret tt
      else cancel cfg (MouseEvent.base e)
  end.
End handlers.
End NonPointerHandlers.

(* ------------------------------------------------------------------ *)
(** ** The bound engine as a transition system *)

(** Native events reaching the engine: on the bound element, or on the
    document/window for the listeners registered during a press. *)
Inductive Input :=
| Keydown (e : KeyboardEvent.t)
| Keyup (e : KeyboardEvent.t)
| Click (isOpening : bool) (e : MouseEvent.t)
| Pointerdown (e : PointerEvent.t)
| Pointerup (e : PointerEvent.t)
| Mousedown (e : MouseEvent.t)
| Mouseenter (e : MouseEvent.t)
| Mouseleave (e : MouseEvent.t)
| Mouseup (e : MouseEvent.t)
| Touchstart (e : TouchEvent.t)
| Touchmove (e : TouchEvent.t)
| Touchend (e : TouchEvent.t)
| Touchcancel (e : TouchEvent.t)
| Dragstart (e : MouseEvent.t)
| DocumentKeyup (e : KeyboardEvent.t)
| DocumentPointermove (e : PointerEvent.t)
| DocumentPointerup (e : PointerEvent.t)
| DocumentPointercancel (e : PointerEvent.t)
| DocumentMouseup (e : MouseEvent.t)
| WindowScroll (e : ScrollTarget).


(** The listeners wired by [pressAction]: the base handlers always, then
    the pointer handlers or the mouse and touch fallback. *)
Definition listeners (pf : Platform) (cfg : PressConfig) (i : Input) : M unit :=
  match i with
  | Keydown e => BaseHandlers.onKeyDown pf cfg e
  | Keyup e => BaseHandlers.onKeyUp cfg e
  | Click isOpening e => BaseHandlers.onClick pf cfg isOpening e
  | Pointerdown e =>
      if hasPointerEvent pf then PointerHandlers.handlers.onPointerDown pf cfg e
      else ret tt
  | Pointerup e =>
      if hasPointerEvent pf then PointerHandlers.handlers.onPointerUp cfg e
      else ret tt
  | Mousedown e =>
      if hasPointerEvent pf then PointerHandlers.handlers.onMouseDown e
      else NonPointerHandlers.handlers.onMouseDown pf cfg e
  | Mouseenter e =>
      if hasPointerEvent pf then ret tt
      else NonPointerHandlers.handlers.onMouseEnter cfg e
  | Mouseleave e =>
      if hasPointerEvent pf then ret tt
      else NonPointerHandlers.handlers.onMouseLeave cfg e
  | Mouseup e =>
      if hasPointerEvent pf then ret tt
      else NonPointerHandlers.handlers.onMouseUp cfg e
  | Touchstart e =>
      if hasPointerEvent pf then ret tt
      else NonPointerHandlers.handlers.onTouchStart cfg e
  | Touchmove e =>
      if hasPointerEvent pf then ret tt
      else NonPointerHandlers.handlers.onTouchMove cfg e
  | Touchend e =>
      if hasPointerEvent pf then ret tt
      else NonPointerHandlers.handlers.onTouchEnd cfg e
  | Touchcancel e =>
      if hasPointerEvent pf then ret tt
      else NonPointerHandlers.handlers.onTouchCancel cfg e
  | Dragstart e =>
      if hasPointerEvent pf then ret tt
      else NonPointerHandlers.handlers.onDragStart cfg e
  | DocumentKeyup e => ifRegistered GKeyUp (onKeyUp pf cfg e)
  | DocumentPointermove e =>
      ifRegistered GPointerMove (PointerHandlers.onPointerMove cfg e)
  | DocumentPointerup e =>
      ifRegistered GPointerUp (PointerHandlers.onPointerUp cfg e)
  | DocumentPointercancel e =>
      ifRegistered GPointerCancel (PointerHandlers.onPointerCancel cfg e)
  | DocumentMouseup e =>
      ifRegistered GMouseUp (NonPointerHandlers.onMouseUp cfg e)
  | WindowScroll e => ifRegistered GScroll (NonPointerHandlers.onScroll cfg e)
  end.

(** One native event processed by a bound engine; an engine that is not
    bound has no listener. *)
Definition step (pf : Platform) (cfg : PressConfig) (i : Input) : M unit :=
  fun eng =>
    match nodeEl eng with
    | Some _ => listeners pf cfg i eng
    | None => (tt, eng, [])
    end.

(** A run: each event comes with the configuration in force when it is
    processed (the configuration fields are read at every use). *)
Fixpoint run (pf : Platform) (inputs : list (PressConfig * Input)) : M unit :=
  match inputs with
  | [] => ret tt
  | (cfg, i) :: rest => step pf cfg i ;; run pf rest
  end.

(** States a bound engine can be in. *)
Definition reachable (pf : Platform) (eng : Engine) : Prop :=
  exists node inputs, eng = final (run pf inputs (pressAction node createPress)).

(** The press events a trace emits to the host, in order. *)
Fixpoint dispatched (tr : list Effect) : list PressEvent.t :=
  match tr with
  | [] => []
  | Dispatched _ e :: rest => e :: dispatched rest
  | _ :: rest => dispatched rest
  end.

Definition PressEventType_eqb (a b : PressEventType) : bool :=
  match a, b with
  | pressstart, pressstart | pressend, pressend
  | pressup, pressup | press, press => true
  | _, _ => false
  end.

(** How many events of one type a trace emits to the host. *)
Definition countType (ty : PressEventType) (tr : list Effect) : nat :=
  List.length
    (filter (fun e => PressEventType_eqb (PressEvent.type e) ty) (dispatched tr)).

(** The types of the press events a trace emits to the host, in order. *)
Definition emittedTypes (tr : list Effect) : list PressEventType :=
  map PressEvent.type (dispatched tr).

(* ------------------------------------------------------------------ *)
(** ** Sample data for the scenarios *)

(** A 10 by 10 target at the origin, and a touch of radius 2 whose contact
    rectangle touches the target's right edge. *)
Definition sampleRect : Rect := mkRect 0 10 10 0.

Definition sampleButton : Element :=
  {| nodeId := 1%nat;
     elementClass := HTMLButtonElement "button";
     tagName := "BUTTON";
     roleAttr := None;
     hasHref := false;
     hasDraggable := false;
     isContentEditable := false;
     boundingClientRect := sampleRect;
     descendants := [] |}.

Definition edgePoint : EventPoint :=
  mkEventPoint 12 5 None None (Some 2%float) (Some 2%float).

(** A keyboard event fired on [el] itself, no modifier held. *)
Definition keyEvent (key code : string) (el : Element) : KeyboardEvent.t :=
  {| KeyboardEvent.key := key;
     KeyboardEvent.code := code;
     KeyboardEvent.repeat := false;
     KeyboardEvent.base := mkEventBase (Some el) false false false false;
     KeyboardEvent.target := el;
     KeyboardEvent.linkClicked := false |}.

Definition sampleTextInput : Element :=
  mkElement 2 (HTMLInputElement "text") "INPUT" None false false false
    sampleRect [].

Definition sampleAnchor : Element :=
  mkElement 3 HTMLElementOther "A" None true false false sampleRect [].

(** No callback, no listener that continues propagation, every flag at its
    default. *)
Definition defaultConfig : PressConfig :=
  {| onPress := None;
     onPressStart := None;
     onPressEnd := None;
     onPressUp := None;
     onPressChange := false;
     hostListener := fun _ => false;
     isDisabled := false;
     preventFocusOnPress := false;
     shouldCancelOnPointerExit := false;
     allowTextSelectionOnPress := false |}.

Definition withDisabled (b : bool) (cfg : PressConfig) : PressConfig :=
  mkPressConfig (onPress cfg) (onPressStart cfg) (onPressEnd cfg)
    (onPressUp cfg) (onPressChange cfg) (hostListener cfg) b
    (preventFocusOnPress cfg) (shouldCancelOnPointerExit cfg)
    (allowTextSelectionOnPress cfg).

(** The same configuration with every consumer callback supplied; the
    callbacks leave propagation stopped. *)
Definition withCallbacks (cfg : PressConfig) : PressConfig :=
  mkPressConfig (Some (fun _ => false)) (Some (fun _ => false))
    (Some (fun _ => false)) (Some (fun _ => false)) true (hostListener cfg)
    (isDisabled cfg) (preventFocusOnPress cfg) (shouldCancelOnPointerExit cfg)
    (allowTextSelectionOnPress cfg).

Definition withCancelOnExit (b : bool) (cfg : PressConfig) : PressConfig :=
  mkPressConfig (onPress cfg) (onPressStart cfg) (onPressEnd cfg)
    (onPressUp cfg) (onPressChange cfg) (hostListener cfg) (isDisabled cfg)
    (preventFocusOnPress cfg) b (allowTextSelectionOnPress cfg).

(** A Mac browser with pointer events; [virtualClicks] is the answer of the
    virtual-click heuristic, no pointer event is virtual. *)
Definition macBrowser (virtualClicks : bool) : Platform :=
  {| isMac := true;
     hasPointerEvent := true;
     isVirtualClick := fun _ => virtualClicks;
     isVirtualPointerEvent := fun _ => false;
     isWebKit := false;
     isIPad := false;
     isTestEnv := false;
     needsModifierToOpen := fun _ => false |}.

(** A browser without pointer events (mouse and touch fallback). *)
Definition legacyBrowser : Platform :=
  {| isMac := false;
     hasPointerEvent := false;
     isVirtualClick := fun _ => false;
     isVirtualPointerEvent := fun _ => false;
     isWebKit := false;
     isIPad := false;
     isTestEnv := false;
     needsModifierToOpen := fun _ => false |}.

Definition noModifiers (el : Element) : EventBase :=
  mkEventBase (Some el) false false false false.

(** A keyboard event on [el] with the Meta modifier held. *)
Definition metaKeyEvent (key code : string) (el : Element) : KeyboardEvent.t :=
  {| KeyboardEvent.key := key;
     KeyboardEvent.code := code;
     KeyboardEvent.repeat := false;
     KeyboardEvent.base := mkEventBase (Some el) false false true false;
     KeyboardEvent.target := el;
     KeyboardEvent.linkClicked := false |}.

(** A left-button mouse event on [el] at the given client coordinates. *)
Definition mouseEvent (x y : float) (el : Element) : MouseEvent.t :=
  {| MouseEvent.button := 0;
     MouseEvent.clientX := x;
     MouseEvent.clientY := y;
     MouseEvent.base := noModifiers el;
     MouseEvent.target := el |}.

(** A left-button mouse pointer event of pointer [id] dispatched on [el];
    for the document-level listeners [currentTarget] is not an element. *)
Definition pointerEvent (id : Z) (x y : float) (el : Element) : PointerEvent.t :=
  {| PointerEvent.pointerId := id;
     PointerEvent.pointerType := mouse;
     PointerEvent.button := 0;
     PointerEvent.clientX := x;
     PointerEvent.clientY := y;
     PointerEvent.width := Some 1%float;
     PointerEvent.height := Some 1%float;
     PointerEvent.base := noModifiers el;
     PointerEvent.target := el |}.

Definition documentPointerEvent (id : Z) (x y : float) (el : Element)
    : PointerEvent.t :=
  {| PointerEvent.pointerId := id;
     PointerEvent.pointerType := mouse;
     PointerEvent.button := 0;
     PointerEvent.clientX := x;
     PointerEvent.clientY := y;
     PointerEvent.width := Some 1%float;
     PointerEvent.height := Some 1%float;
     PointerEvent.base := mkEventBase None false false false false;
     PointerEvent.target := el |}.

(** A freshly created engine bound to the sample button. *)
Definition boundButton : Engine := pressAction sampleButton createPress.

(** The first keydown of Enter on the freshly bound sample button. *)
Definition afterEnterKeydown : Engine :=
  final (step (macBrowser false) defaultConfig
           (Keydown (keyEvent "Enter" "Enter" sampleButton)) boundButton).

(** 'a' pressed while Meta is held, then Meta pressed and released, the
    release seen on the element and on the document; no keyup for 'a'. *)
Definition metaAroundA : list (PressConfig * Input) :=
  [(defaultConfig, Keydown (metaKeyEvent "a" "KeyA" sampleButton));
   (defaultConfig, Keydown (metaKeyEvent "Meta" "MetaLeft" sampleButton));
   (defaultConfig, Keyup (keyEvent "Meta" "MetaLeft" sampleButton));
   (defaultConfig, DocumentKeyup (keyEvent "Meta" "MetaLeft" sampleButton))].

(** A programmatic click on the sample button: button 0, detected as
    virtual by the platform, no link being opened. *)
Definition programmaticClick : unit * Engine * list Effect :=
  step (macBrowser true) defaultConfig
    (Click false (mouseEvent 5 5 sampleButton)) boundButton.

(** A touch event on [el] whose only touch has identifier [id]; the touch is
    listed as a target touch and as a changed touch. *)
Definition touchEvent (id : Z) (x y : float) (el : Element) : TouchEvent.t :=
  let c := Touch.mk id x y (Some 1%float) (Some 1%float) in
  {| TouchEvent.targetTouches := [c];
     TouchEvent.changedTouches := [c];
     TouchEvent.base := noModifiers el;
     TouchEvent.target := el |}.

(* ------------------------------------------------------------------ *)
(** ** Vocabulary of the properties *)

(** A run that changes nothing, emits nothing and answers [false]. *)
Definition noop (r : bool * Engine * list Effect) (eng : Engine) : Prop :=
  trace r = [] /\ result r = false /\ final r = eng.

(** The engine with its pending-start flag forced to [b]. *)
Definition withPending (b : bool) (eng : Engine) : Engine :=
  mkEngine (PressState.set_didFirePressStart b (state eng))
    (isPressedStore eng) (globalListeners eng) (nodeEl eng).

(** Relations between the state before a computation, its trace and the
    state after it that hold of doing nothing and compose along
    sequencing. *)
Class Composable (R : Engine -> list Effect -> Engine -> Prop) : Prop := {
  R_refl : forall eng, R eng [] eng;
  R_trans : forall e1 t1 e2 t2 e3,
    R e1 t1 e2 -> R e2 t2 e3 -> R e1 (t1 ++ t2)%list e3
}.

Definition respects (R : Engine -> list Effect -> Engine -> Prop) {A}
    (m : M A) : Prop :=
  forall eng, R eng (trace (m eng)) (final (m eng)).

(** No pressstart and no pressend reaches the host. *)
Definition quiet (tr : list Effect) : Prop :=
  countType pressstart tr = 0%nat /\ countType pressend tr = 0%nat.

(** The public store agrees with the pending-start flag. *)
Definition inSync (eng : Engine) : Prop :=
  isPressedStore eng = PressState.didFirePressStart (state eng).

Definition sameFlags (eng eng' : Engine) : Prop :=
  isPressedStore eng' = isPressedStore eng /\
  PressState.didFirePressStart (state eng')
  = PressState.didFirePressStart (state eng).

(** On a bound engine: the element stays bound, and either nothing of the
    start/end kind was emitted and both flags are untouched, or something
    was and the two flags agree afterwards. *)
Definition Rsync (eng : Engine) (tr : list Effect) (eng' : Engine) : Prop :=
  forall node, nodeEl eng = Some node ->
  nodeEl eng' = Some node /\
  ((quiet tr /\ sameFlags eng eng') \/ (~ quiet tr /\ inSync eng')).

(** Relations on the interaction state alone that hold whenever
    [isPressed] and [pointerType] are untouched. *)
Class StateRel (S : PressState.t -> PressState.t -> Prop) : Prop := {
  S_refl : forall s, S s s;
  S_trans : forall s1 s2 s3, S s1 s2 -> S s2 s3 -> S s1 s3;
  S_frame : forall s s',
    PressState.isPressed s' = PressState.isPressed s ->
    PressState.pointerType s' = PressState.pointerType s -> S s s'
}.

Definition lift (S : PressState.t -> PressState.t -> Prop)
    (eng : Engine) (tr : list Effect) (eng' : Engine) : Prop :=
  S (state eng) (state eng').

(** [pointerType] is non-null whenever [isPressed] is true. *)
Definition known (s : PressState.t) : Prop :=
  PressState.isPressed s = true -> PressState.pointerType s <> None.

(** A press without a pointer type is a keyboard press: the document
    keyup listener that ends it, registered by keydown alone, is in place. *)
Definition pressedByKeyboard (eng : Engine) : Prop :=
  PressState.isPressed (state eng) = true ->
  PressState.pointerType (state eng) = None ->
  existsb (GlobalHandler_eqb GKeyUp) (globalListeners eng) = true.

Definition keepsKnown (s s' : PressState.t) : Prop := known s -> known s'.

Definition keepsPointerTypeSet (s s' : PressState.t) : Prop :=
  PressState.pointerType s <> None -> PressState.pointerType s' <> None.

Definition keepsPointerType (s s' : PressState.t) : Prop :=
  PressState.pointerType s' = PressState.pointerType s.

Definition isKeydown (i : Input) : bool :=
  match i with Keydown _ => true | _ => false end.

(** A pointer press in progress on [target]: pointer [id] of type [pt] went
    down over it, the start was emitted, and the document-level pointermove
    listener is registered. *)
Definition pointerPressActive (eng : Engine) (node target : Element) (id : Z)
    (pt : PointerType) : Prop :=
  nodeEl eng = Some node /\
  PressState.isPressed (state eng) = true /\
  PressState.target (state eng) = Some target /\
  PressState.activePointerId (state eng) = Some id /\
  PressState.isOverTarget (state eng) = true /\
  PressState.pointerType (state eng) = Some pt /\
  PressState.didFirePressStart (state eng) = true /\
  existsb (GlobalHandler_eqb GPointerMove) (globalListeners eng) = true.

(** A pointermove that does not bring pointer [id] back over [target]: it
    is of another pointer, or its point fails the hit test. *)
Definition staysAway (target : Element) (id : Z) (e : PointerEvent.t) : Prop :=
  PointerEvent.pointerId e <> id \/
  isOverTarget (PointerEvent.point e) target = false.

(** Later pointermove events reaching the document. *)
Definition pointermoves (moves : list (PressConfig * PointerEvent.t))
    : list (PressConfig * Input) :=
  map (fun m => (fst m, DocumentPointermove (snd m))) moves.

(* ------------------------------------------------------------------ *)
(** ** Vocabulary of the further properties *)

(** Where a sequence of emitted press events stands: no start pending, a
    start pending, or a pressend just emitted (the only place a press may
    follow). *)
Inductive Phase := Idle | Pending | Ended.

Definition advance (p : Phase) (ty : PressEventType) : option Phase :=
  match ty, p with
  | pressstart, Idle => Some Pending
  | pressstart, Ended => Some Pending
  | pressstart, Pending => None
  | pressend, Pending => Some Ended
  | pressend, _ => None
  | press, Ended => Some Idle
  | press, _ => None
  | pressup, Ended => Some Idle
  | pressup, Idle => Some Idle
  | pressup, Pending => Some Pending
  end.

(** Reads a sequence of emitted event types from phase [p]; [None] when the
    sequence breaks the lifecycle. *)
Fixpoint lifecycle (p : Phase) (l : list PressEventType) : option Phase :=
  match l with
  | [] => Some p
  | ty :: rest =>
      match advance p ty with
      | Some p' => lifecycle p' rest
      | None => None
      end
  end.

Definition phaseOf (pending : bool) : Phase :=
  if pending then Pending else Idle.

Definition pendingIn (p : Phase) : bool :=
  match p with Pending => true | _ => false end.

(** On a bound engine, the emitted types follow the lifecycle from the
    phase the pending-start flag stands for, and end in the phase the flag
    stands for afterwards. *)
Definition Rlifecycle (eng : Engine) (tr : list Effect) (eng' : Engine)
    : Prop :=
  forall node, nodeEl eng = Some node ->
  nodeEl eng' = Some node /\
  exists p,
    lifecycle (phaseOf (PressState.didFirePressStart (state eng)))
      (emittedTypes tr) = Some p /\
    pendingIn p = PressState.didFirePressStart (state eng').

(** Occurrences of one type in a list of emitted types. *)
Definition occurrences (ty : PressEventType) (l : list PressEventType) : nat :=
  List.length (filter (PressEventType_eqb ty) l).

(** No callback is invoked and no press event reaches the host. *)
Definition noPressEffect (x : Effect) : Prop :=
  match x with
  | CallbackCalled _ | Dispatched _ _ | PressChange _ => False
  | _ => True
  end.

(** With no start pending, the consumer sees nothing and none gets pending. *)
Definition Rsilent (eng : Engine) (tr : list Effect) (eng' : Engine) : Prop :=
  PressState.didFirePressStart (state eng) = false ->
  Forall noPressEffect tr /\
  PressState.didFirePressStart (state eng') = false.

(** Every effect of the trace satisfies [ok]. *)
Definition Ronly (ok : Effect -> Prop) (eng : Engine) (tr : list Effect)
    (eng' : Engine) : Prop :=
  Forall ok tr.

(** A press event reaching the host has pointer type [pt]. *)
Definition dispatchesAs (pt : PointerType) (x : Effect) : Prop :=
  match x with
  | Dispatched _ e => PressEvent.pointerType e = pt
  | CallbackCalled e => PressEvent.pointerType e = pt
  | _ => True
  end.

Definition noTextSelection (x : Effect) : Prop :=
  match x with
  | DisableTextSelection _ | RestoreTextSelection _ => False
  | _ => True
  end.

(** The elements focus is moved to, and the anchors sent a link-opening
    event, in the order of the trace. *)
Fixpoint focused (tr : list Effect) : list Element :=
  match tr with
  | [] => []
  | Focus el :: rest => el :: focused rest
  | _ :: rest => focused rest
  end.

Fixpoint linksOpened (tr : list Effect) : list Element :=
  match tr with
  | [] => []
  | OpenLink el :: rest => el :: linksOpened rest
  | _ :: rest => linksOpened rest
  end.

(** Focus moves only to the anchors whose link is opened. *)
Definition Rfocus (eng : Engine) (tr : list Effect) (eng' : Engine) : Prop :=
  focused tr = linksOpened tr.

Definition noOpenLink (x : Effect) : Prop :=
  match x with OpenLink _ => False | _ => True end.

(** The effects of a trigger called with pointer type [pt]: callbacks and
    dispatches of events of that pointer type, and onPressChange. *)
Definition fromTrigger (pt : PointerType) (x : Effect) : Prop :=
  match x with
  | CallbackCalled e | Dispatched _ e => PressEvent.pointerType e = pt
  | PressChange _ => True
  | _ => False
  end.

Definition isKeyboardInput (i : Input) : bool :=
  match i with
  | Keydown _ | Keyup _ | DocumentKeyup _ => true
  | _ => false
  end.

Definition isClickInput (i : Input) : bool :=
  match i with Click _ _ => true | _ => false end.

Definition phaseWeight (p : Phase) : nat :=
  match p with Pending => 1 | _ => 0 end.

Definition endedWeight (p : Phase) : nat :=
  match p with Ended => 1 | _ => 0 end.


(** The engine with its recorded pointer type replaced. *)
Definition withPointerType (pt : option PointerType) (eng : Engine) : Engine :=
  mkEngine (PressState.set_pointerType pt (state eng))
    (isPressedStore eng) (globalListeners eng) (nodeEl eng).

(** The button of a mouse or pointer event handled by a listener that
    only reacts to the main button. *)
Definition buttonOf (i : Input) : option Z :=
  match i with
  | Click _ e | Mousedown e | Mouseup e | DocumentMouseup e =>
      Some (MouseEvent.button e)
  | Pointerdown e | Pointerup e | DocumentPointerup e =>
      Some (PointerEvent.button e)
  | _ => None
  end.

(** [currentTarget.contains(e.target)] for an event on the bound element;
    [None] for the document and window listeners. *)
Definition targetInside (i : Input) : option bool :=
  let inside (b : EventBase) (t : Element) :=
    match currentTarget b with
    | Some ct => Some (contains ct t)
    | None => None
    end in
  match i with
  | Keydown e | Keyup e =>
      inside (KeyboardEvent.base e) (KeyboardEvent.target e)
  | Click _ e | Mousedown e | Mouseenter e | Mouseleave e | Mouseup e
  | Dragstart e => inside (MouseEvent.base e) (MouseEvent.target e)
  | Pointerdown e | Pointerup e =>
      inside (PointerEvent.base e) (PointerEvent.target e)
  | Touchstart e | Touchmove e | Touchend e | Touchcancel e =>
      inside (TouchEvent.base e) (TouchEvent.target e)
  | _ => None
  end.

Definition isMetaKeydown (i : Input) : bool :=
  match i with
  | Keydown e => KeyboardEvent.key e =? "Meta"
  | _ => false
  end.

(** The mouse listeners of the fallback adapter. *)
Definition isFallbackMouseInput (i : Input) : bool :=
  match i with
  | Mousedown _ | Mouseenter _ | Mouseleave _ | Mouseup _
  | DocumentMouseup _ => true
  | _ => false
  end.

Definition isDocumentInput (i : Input) : bool :=
  match i with
  | DocumentKeyup _ | DocumentPointermove _ | DocumentPointerup _
  | DocumentPointercancel _ | DocumentMouseup _ | WindowScroll _ => true
  | _ => false
  end.

(** Weakest precondition of an engine computation for a postcondition on
    its result and final state. *)
Definition wp {A} (m : M A) (Q : A -> Engine -> Prop) (eng : Engine) : Prop :=
  Q (result (m eng)) (final (m eng)).

(** What a trigger may change: the reentrancy guard, the pending-start
    flag, the ignore-next-click flag and the public store. *)
Definition afterTrigger (eng : Engine) (ignoreClick fired triggering store : bool)
    : Engine :=
  let st := state eng in
  mkEngine
    (PressState.mk (PressState.isPressed st)
       (PressState.ignoreEmulatedMouseEvents st) ignoreClick fired triggering
       (PressState.activePointerId st) (PressState.target st)
       (PressState.isOverTarget st) (PressState.pointerType st)
       (PressState.metaKeyEvents st))
    store (globalListeners eng) (nodeEl eng).

(** No document or window listener is registered unless a press is in
    progress. *)
Definition listenersReleased (eng : Engine) : Prop :=
  PressState.isPressed (state eng) = false -> globalListeners eng = [].

(** A press in progress has a target. *)
Definition pressedOnTarget (eng : Engine) : Prop :=
  PressState.isPressed (state eng) = true ->
  PressState.target (state eng) <> None.

Definition noPreventDefault (x : Effect) : Prop :=
  match x with PreventDefault => False | _ => True end.

(** A checkbox input occupying the sample rectangle. *)
Definition sampleCheckbox : Element :=
  mkElement 4 (HTMLInputElement "checkbox") "INPUT" None false false false
    sampleRect [].

(* ------------------------------------------------------------------ *)
(** ** Further sample data *)

Definition withAllowTextSelection (b : bool) (cfg : PressConfig) : PressConfig :=
  mkPressConfig (onPress cfg) (onPressStart cfg) (onPressEnd cfg)
    (onPressUp cfg) (onPressChange cfg) (hostListener cfg) (isDisabled cfg)
    (preventFocusOnPress cfg) (shouldCancelOnPointerExit cfg) b.

Definition withPreventFocus (b : bool) (cfg : PressConfig) : PressConfig :=
  mkPressConfig (onPress cfg) (onPressStart cfg) (onPressEnd cfg)
    (onPressUp cfg) (onPressChange cfg) (hostListener cfg) (isDisabled cfg)
    b (shouldCancelOnPointerExit cfg) (allowTextSelectionOnPress cfg).

(** The sample button pressed and released with pointer 1 at its centre. *)
Definition pointerPressAndRelease (cfg : PressConfig)
    : list (PressConfig * Input) :=
  [(cfg, Pointerdown (pointerEvent 1 5 5 sampleButton));
   (cfg, DocumentPointerup (documentPointerEvent 1 5 5 sampleButton))].

(** The bound sample button after pointer 1 went down on it. *)
Definition pressedByPointer : Engine :=
  final (step (macBrowser false) defaultConfig
           (Pointerdown (pointerEvent 1 5 5 sampleButton)) boundButton).

(** The bound sample button after touch 1 started on it, without pointer
    events. *)
Definition pressedByTouch : Engine :=
  final (step legacyBrowser defaultConfig
           (Touchstart (touchEvent 1 5 5 sampleButton)) boundButton).

(** A browser whose pointer events all come from assistive technology. *)
Definition assistiveBrowser : Platform :=
  {| isMac := true;
     hasPointerEvent := true;
     isVirtualClick := fun _ => false;
     isVirtualPointerEvent := fun _ => true;
     isWebKit := false;
     isIPad := false;
     isTestEnv := false;
     needsModifierToOpen := fun _ => false |}.

(** A keydown of Enter heard on the sample button whose target is the
    sample anchor, which the button does not contain. *)
Definition outsideKeydown : KeyboardEvent.t :=
  {| KeyboardEvent.key := "Enter";
     KeyboardEvent.code := "Enter";
     KeyboardEvent.repeat := false;
     KeyboardEvent.base := noModifiers sampleButton;
     KeyboardEvent.target := sampleAnchor;
     KeyboardEvent.linkClicked := false |}.

(** A pointerdown of the secondary button on the sample button. *)
Definition secondaryButtonDown : PointerEvent.t :=
  {| PointerEvent.pointerId := 1;
     PointerEvent.pointerType := mouse;
     PointerEvent.button := 2;
     PointerEvent.clientX := 5;
     PointerEvent.clientY := 5;
     PointerEvent.width := Some 1%float;
     PointerEvent.height := Some 1%float;
     PointerEvent.base := noModifiers sampleButton;
     PointerEvent.target := sampleButton |}.

(** An anchor with an href and role="button". *)
Definition buttonRoleAnchor : Element :=
  mkElement 5 HTMLElementOther "A" (Some "button") true false false
    sampleRect [].

(** The anchor with role="button", bound and pressed with the space key. *)
Definition anchorPressedWithSpace : Engine :=
  final (step (macBrowser false) defaultConfig
           (Keydown (keyEvent " " "Space" buttonRoleAnchor))
           (pressAction buttonRoleAnchor createPress)).

(** The bound sample button after the main mouse button went down on it,
    without pointer events. *)
Definition pressedByMouse : Engine :=
  final (step legacyBrowser defaultConfig
           (Mousedown (mouseEvent 5 5 sampleButton)) boundButton).

(** The bound sample button after a whole pointer press. *)
Definition afterPointerPress : Engine :=
  final (run (macBrowser false) (pointerPressAndRelease defaultConfig)
           boundButton).

(* ------------------------------------------------------------------ *)
(** ** What the triggers do, in closed form *)

(** cb?.(event) in the trace. *)
Definition calls (cb : option Callback) (event : PressEvent.t) : list Effect :=
  match cb with Some _ => [CallbackCalled event] | None => [] end.

(** nodeEl?.dispatchEvent(...) in the trace. *)
Definition dispatches (node : option Element) (event : PressEvent.t)
    : list Effect :=
  match node with Some n => [Dispatched n event] | None => [] end.

(** Whether the callback or a listener on the host called
    continuePropagation() on [event]. *)
Definition continued (cb : option Callback) (cfg : PressConfig)
    (node : option Element) (event : PressEvent.t) : bool :=
  match cb with Some f => f event | None => false end
  || match node with Some _ => hostListener cfg event | None => false end.

Definition pressStartTrace (cfg : PressConfig) (node : option Element)
    (e : EventBase) (pt : PointerType) : list Effect :=
  (calls (onPressStart cfg) (newPressEvent pressstart pt e) ++
   dispatches node (newPressEvent pressstart pt e) ++
   (if onPressChange cfg then [PressChange true] else []))%list.

Definition pressEndTrace (cfg : PressConfig) (node : option Element)
    (e : EventBase) (pt : PointerType) (wasPressed : bool) : list Effect :=
  (calls (onPressEnd cfg) (newPressEvent pressend pt e) ++
   dispatches node (newPressEvent pressend pt e) ++
   (if onPressChange cfg then [PressChange false] else []) ++
   (if wasPressed && negb (isDisabled cfg)
    then calls (onPress cfg) (newPressEvent press pt e) ++
         dispatches node (newPressEvent press pt e)
    else []))%list.

Definition pressUpTrace (cfg : PressConfig) (node : option Element)
    (e : EventBase) (pt : PointerType) : list Effect :=
  (calls (onPressUp cfg) (newPressEvent pressup pt e) ++
   dispatches node (newPressEvent pressup pt e))%list.

(** What triggerPressEnd returns when it fires: whether propagation is to
    be stopped. *)
Definition pressEndStops (cfg : PressConfig) (node : option Element)
    (e : EventBase) (pt : PointerType) (wasPressed : bool) : bool :=
  negb (continued (onPressEnd cfg) cfg node (newPressEvent pressend pt e))
  && (if wasPressed && negb (isDisabled cfg)
      then negb (continued (onPress cfg) cfg node (newPressEvent press pt e))
      else true).

(** Weakest precondition of an engine computation for a postcondition on
    its result, final state and trace. *)
Definition wpt {A} (m : M A) (Q : A -> Engine -> list Effect -> Prop)
    (eng : Engine) : Prop :=
  Q (result (m eng)) (final (m eng)) (trace (m eng)).

(** The conditions under which the document keyup listener, handling [e]
    in state [eng], opens the link of [el]. *)
Definition opensLinkOn (el : Element) (e : KeyboardEvent.t) (eng : Engine)
    : Prop :=
  PressState.target (state eng) = Some el /\
  PressState.isPressed (state eng) = true /\
  isValidKeyboardEvent e el = true /\
  isHTMLAnchorLink el = true /\
  KeyboardEvent.key e <> "Enter" /\
  contains el (KeyboardEvent.target e) = true /\
  KeyboardEvent.linkClicked e = false.

(** What a run of the document keyup listener from [eng] on [e] guarantees
    of the links it opens: the target stays, no press starts, the record of
    keys held with Meta is not created, and a link is opened only under the
    listener's own conditions, for [e] itself or for a key replayed when
    [e] releases Meta. *)
Definition linkPost (el : Element) (e : KeyboardEvent.t) (eng : Engine)
    (eng' : Engine) (tr : list Effect) : Prop :=
  PressState.target (state eng') = PressState.target (state eng) /\
  (PressState.isPressed (state eng') = true ->
   PressState.isPressed (state eng) = true) /\
  (PressState.metaKeyEvents (state eng) = None ->
   PressState.metaKeyEvents (state eng') = None) /\
  (In el (linksOpened tr) ->
   opensLinkOn el e eng \/
   (KeyboardEvent.key e = "Meta" /\
    exists events down,
      PressState.metaKeyEvents (state eng) = Some events /\
      In down (map_values events) /\
      opensLinkOn el (synthesizedKeyUp down el None) eng)).

(* ================================================================== *)
(** * Properties *)

(* ------------------------------------------------------------------ *)
(** ** Hit testing *)

Lemma areRectanglesOverlapping_iff (a b : Rect) :
  areRectanglesOverlapping a b = true <-> HitTestSpec.overlap a b.
Proof.
  unfold areRectanglesOverlapping, HitTestSpec.overlap,
    HitTestSpec.strictlyLeftOf, HitTestSpec.strictlyAbove,
    HitTestSpec.lessThan, gt.
  destruct (right b <? left a)%float, (right a <? left b)%float,
    (bottom b <? top a)%float, (bottom a <? top b)%float; cbn;
    split; intro H; try discriminate; try reflexivity;
    try (exfalso; apply H; tauto);
    intros [E|[E|[E|E]]]; discriminate E.
Qed.

Lemma getPointClientRect_centred (p : EventPoint) :
  HitTestSpec.centredOn (getPointClientRect p) p
    (HitTestSpec.inflateX p) (HitTestSpec.inflateY p).
Proof.
  unfold HitTestSpec.centredOn, getPointClientRect, HitTestSpec.inflateX,
    HitTestSpec.inflateY.
  destruct (width p), (height p), (radiusX p), (radiusY p); cbn;
    repeat split; reflexivity.
Qed.

(** C7. The hit test holds exactly when the target's bounding rectangle
    overlaps the point's derived rectangle, the rectangle centred on the
    point and inflated horizontally by width/2 if width is given, else by
    radiusX, else 0, and vertically by height/2 if height is given, else by
    radiusY, else 0, with the edges computed in JavaScript's binary64
    arithmetic.  Two rectangles overlap unless one lies strictly to the
    left of or strictly above the other. *)
Theorem isOverTarget_iff_overlap (p : EventPoint) (target : Element) (r : Rect)
    (Hr : HitTestSpec.centredOn r p
            (HitTestSpec.inflateX p) (HitTestSpec.inflateY p)) :
  isOverTarget p target = true <->
  HitTestSpec.overlap (boundingClientRect target) r.
Proof.
  unfold isOverTarget. rewrite areRectanglesOverlapping_iff.
  pose proof (getPointClientRect_centred p) as Hc.
  destruct Hr as (Hl & Hrr & Ht & Hb). destruct Hc as (Cl & Cr & Ct & Cb).
  unfold HitTestSpec.overlap, HitTestSpec.strictlyLeftOf,
    HitTestSpec.strictlyAbove.
  rewrite Hl, Hrr, Ht, Hb, Cl, Cr, Ct, Cb. reflexivity.
Qed.

Lemma isOverTarget_iff_overlap_witness :
  HitTestSpec.centredOn (mkRect 3 14 7 10) edgePoint
    (HitTestSpec.inflateX edgePoint) (HitTestSpec.inflateY edgePoint) /\
  (isOverTarget edgePoint sampleButton = true <->
   HitTestSpec.overlap (boundingClientRect sampleButton) (mkRect 3 14 7 10)).
Proof.
  assert (H : HitTestSpec.centredOn (mkRect 3 14 7 10) edgePoint
                (HitTestSpec.inflateX edgePoint) (HitTestSpec.inflateY edgePoint)).
  { unfold HitTestSpec.centredOn; cbn; repeat split; reflexivity. }
  split; [exact H | exact (isOverTarget_iff_overlap edgePoint sampleButton _ H)].
Defined.

(** Touching edges count as overlapping; one unit further right they do not. *)
Example isOverTarget_touching_edge :
  isOverTarget edgePoint sampleButton = true /\
  isOverTarget (mkEventPoint 13 5 None None (Some 2%float) (Some 2%float))
    sampleButton
  = false.
Proof. split; reflexivity. Qed.

(** The edges are the rounded ones: 0.1 + 0.2 rounds up onto an edge at
    0.30000000000000004, so a touch at 0.1 with radius 0.2 is over a target
    starting there (the three numbers are written in hexadecimal, as the
    binary64 values JavaScript reads them as); and a NaN coordinate is
    never strictly beyond an edge. *)
Example isOverTarget_rounds_as_binary64 :
  let target := mkElement 1 HTMLElementOther "DIV" None false false false
                  (mkRect 0 1 1 0x1.3333333333334p-2) [] in
  isOverTarget (mkEventPoint 0x1.999999999999ap-4 0.5 None None
                  (Some 0x1.999999999999ap-3%float) (Some 0%float))
    target = true /\
  isOverTarget (mkEventPoint nan 0.5 None None None None) target = true.
Proof. split; reflexivity. Qed.

(* ------------------------------------------------------------------ *)
(** ** Keyboard validity *)

Lemma truthy_false_iff (s : option string) :
  truthy s = false <-> s = None \/ s = Some "".
Proof.
  destruct s as [v|]; cbn.
  - rewrite negb_false_iff, String.eqb_eq. split.
    + intros ->; right; reflexivity.
    + intros [H|H]; congruence.
  - split; auto.
Qed.

Lemma activationKey_iff (e : KeyboardEvent.t) :
  ((KeyboardEvent.key e =? "Enter") || (KeyboardEvent.key e =? " ")
   || (KeyboardEvent.key e =? "Spacebar") || (KeyboardEvent.code e =? "Space"))
  = true <-> KeySpec.activationKey e.
Proof.
  unfold KeySpec.activationKey.
  rewrite !orb_true_iff, !String.eqb_eq. tauto.
Qed.

Lemma textEntryCapable_iff (el : Element) (key : string) :
  (match elementClass el with
   | HTMLInputElement type => negb (isValidInputKey type key)
   | _ => false
   end
   || match elementClass el with HTMLTextAreaElement => true | _ => false end
   || isContentEditable el) = true <-> KeySpec.textEntryCapable el key.
Proof.
  unfold KeySpec.textEntryCapable.
  rewrite !orb_true_iff. split.
  - intros [[H|H]|H].
    + destruct (elementClass el) eqn:E; try discriminate.
      left. exists type. split; [reflexivity|].
      now apply negb_true_iff in H.
    + destruct (elementClass el); try discriminate. right; left; reflexivity.
    + right; right; exact H.
  - intros [(type & E & H)|[E|H]].
    + left; left. rewrite E, H. reflexivity.
    + left; right. rewrite E. reflexivity.
    + right; exact H.
Qed.

Lemma linkOnly_iff (el : Element) :
  (match roleAttr el with Some r => r =? "link" | None => false end
   || (negb (truthy (roleAttr el)) && isHTMLAnchorLink el)) = true <->
  KeySpec.anchorLike el \/ KeySpec.linkRole el.
Proof.
  unfold KeySpec.anchorLike, KeySpec.linkRole, isHTMLAnchorLink.
  rewrite orb_true_iff, !andb_true_iff, negb_true_iff, truthy_false_iff,
    String.eqb_eq.
  split.
  - intros [H|H]; [right|left; exact H].
    destruct (roleAttr el) as [r|]; [|discriminate].
    apply String.eqb_eq in H. congruence.
  - intros [H|H]; [right; exact H|left].
    rewrite H. apply String.eqb_refl.
Qed.

(** C8. A keyboard event is accepted as a press activation exactly when the
    key is Enter, ' ', 'Spacebar' or the code is 'Space'; the element is not
    a text-entry-capable input (an input whose type/key combination fails the
    non-text-input check, a textarea, or a content-editable element); and it
    is not the case that the element is anchor-like (an anchor with an href
    and no role override) or has role="link" while the key is not Enter. *)
Theorem isValidKeyboardEvent_iff (e : KeyboardEvent.t) (el : Element) :
  isValidKeyboardEvent e el = true <-> KeySpec.accepted e el.
Proof.
  unfold isValidKeyboardEvent, KeySpec.accepted.
  rewrite !andb_true_iff, !negb_true_iff.
  rewrite activationKey_iff.
  rewrite <- textEntryCapable_iff, <- linkOnly_iff.
  set (txt := _ || isContentEditable el).
  set (lnk := _ || (_ && isHTMLAnchorLink el)).
  destruct (String.eqb_spec (KeyboardEvent.key e) "Enter") as [Hk|Hk];
    destruct txt, lnk; cbn; intuition congruence.
Qed.


(** The scenarios of the specification: a button accepts Enter and Space, a
    free-text input accepts neither, a plain anchor accepts only Enter. *)
Example isValidKeyboardEvent_scenarios :
  isValidKeyboardEvent (keyEvent "Enter" "Enter" sampleButton) sampleButton = true /\
  isValidKeyboardEvent (keyEvent " " "Space" sampleButton) sampleButton = true /\
  isValidKeyboardEvent (keyEvent "Enter" "Enter" sampleTextInput) sampleTextInput = false /\
  isValidKeyboardEvent (keyEvent " " "Space" sampleTextInput) sampleTextInput = false /\
  isValidKeyboardEvent (keyEvent "Enter" "Enter" sampleAnchor) sampleAnchor = true /\
  isValidKeyboardEvent (keyEvent " " "Space" sampleAnchor) sampleAnchor = false.
Proof. repeat split; reflexivity. Qed.

(* ------------------------------------------------------------------ *)
(** ** Lifecycle triggers *)

(** Unfolding of the monadic plumbing. *)
Ltac run_monad :=
  cbv [bind ret getState update setIsPressed emit when call
       dispatchPressEvent result final trace fst snd] in *.

Lemma triggerPressStart_disabled cfg e pt eng :
  isDisabled cfg = true -> noop (triggerPressStart cfg e pt eng) eng.
Proof.
  intros H. unfold noop, triggerPressStart. run_monad. rewrite H. cbn. auto.
Qed.

Lemma triggerPressStart_pending cfg e pt eng :
  PressState.didFirePressStart (state eng) = true ->
  noop (triggerPressStart cfg e pt eng) eng.
Proof.
  intros H. unfold noop, triggerPressStart. run_monad. rewrite H.
  rewrite orb_true_r. cbn. auto.
Qed.

Lemma triggerPressStart_sets_pending cfg e pt eng :
  isDisabled cfg = false ->
  PressState.didFirePressStart (state (final (triggerPressStart cfg e pt eng)))
  = true.
Proof.
  intros H. unfold triggerPressStart. run_monad. rewrite H. cbn.
  destruct (PressState.didFirePressStart (state eng)) eqn:E; cbn; auto;
    destruct (onPressStart cfg), (nodeEl eng), (onPressChange cfg); reflexivity.
Qed.

Lemma triggerPressStart_fires cfg e pt eng node :
  isDisabled cfg = false ->
  PressState.didFirePressStart (state eng) = false ->
  nodeEl eng = Some node ->
  dispatched (trace (triggerPressStart cfg e pt eng))
  = [newPressEvent pressstart pt e] /\
  isPressedStore (final (triggerPressStart cfg e pt eng)) = true.
Proof.
  intros Hd Hp Hn. unfold triggerPressStart. run_monad.
  rewrite Hd, Hp. cbn.
  destruct (onPressStart cfg), (onPressChange cfg); cbn; rewrite ?Hn; cbn; auto.
Qed.

Lemma triggerPressStart_at_most_one cfg e pt eng :
  (countType pressstart (trace (triggerPressStart cfg e pt eng)) <= 1)%nat.
Proof.
  unfold triggerPressStart. run_monad.
  destruct (isDisabled cfg || PressState.didFirePressStart (state eng));
    [cbn; lia|].
  destruct (onPressStart cfg), (nodeEl eng), (onPressChange cfg); cbn; lia.
Qed.

(** C4. Calling triggerPressStart twice in succession, with no
    triggerPressEnd in between, emits exactly one pressstart: from any
    state the second call is a no-op returning false, so the two calls
    never emit more than one; when the engine is enabled, bound and no start
    is pending, the first call emits the one pressstart; a call while the
    engine is disabled emits nothing. *)
Theorem triggerPressStart_twice (cfg : PressConfig) (eng : Engine)
    (e1 e2 : EventBase) (p1 p2 : PointerType) :
  let r1 := triggerPressStart cfg e1 p1 eng in
  let r2 := triggerPressStart cfg e2 p2 (final r1) in
  noop r2 (final r1) /\
  (countType pressstart (trace r1 ++ trace r2) <= 1)%nat /\
  (isDisabled cfg = true -> noop r1 eng) /\
  (isDisabled cfg = false ->
   PressState.didFirePressStart (state eng) = false ->
   forall node, nodeEl eng = Some node ->
   dispatched (trace r1 ++ trace r2) = [newPressEvent pressstart p1 e1] /\
   countType pressstart (trace r1 ++ trace r2) = 1%nat).
Proof.
  intros r1 r2.
  assert (H2 : noop r2 (final r1)).
  { subst r2. destruct (isDisabled cfg) eqn:Hd.
    - apply triggerPressStart_disabled; exact Hd.
    - apply triggerPressStart_pending.
      subst r1. apply triggerPressStart_sets_pending; exact Hd. }
  split; [exact H2|]. destruct H2 as [H2 _]. rewrite H2, app_nil_r.
  split; [|split].
  - subst r1. apply triggerPressStart_at_most_one.
  - intros Hd. apply triggerPressStart_disabled; exact Hd.
  - intros Hd Hp node Hn.
    destruct (triggerPressStart_fires cfg e1 p1 eng node Hd Hp Hn) as [H1 _].
    subst r1. unfold countType. rewrite H1. split; reflexivity.
Qed.

(** Two starts in a row on the freshly bound sample button. *)
Lemma triggerPressStart_twice_witness :
  let origin := noModifiers sampleButton in
  let r1 := triggerPressStart defaultConfig origin mouse boundButton in
  let r2 := triggerPressStart defaultConfig origin mouse (final r1) in
  isDisabled defaultConfig = false /\
  PressState.didFirePressStart (state boundButton) = false /\
  nodeEl boundButton = Some sampleButton /\
  dispatched (trace r1 ++ trace r2) = [newPressEvent pressstart mouse origin] /\
  countType pressstart (trace r1 ++ trace r2) = 1%nat.
Proof.
  cbv zeta. do 3 (split; [reflexivity|]).
  exact (proj2 (proj2 (proj2 (triggerPressStart_twice defaultConfig boundButton
                                (noModifiers sampleButton)
                                (noModifiers sampleButton) mouse mouse)))
           eq_refl eq_refl sampleButton eq_refl).
Defined.

Lemma triggerPressEnd_not_pending cfg e pt w eng :
  PressState.didFirePressStart (state eng) = false ->
  noop (triggerPressEnd cfg e pt w eng) eng.
Proof.
  intros H. unfold noop, triggerPressEnd. run_monad. rewrite H. cbn. auto.
Qed.

Lemma triggerPressEnd_fires cfg e pt w eng node :
  PressState.didFirePressStart (state eng) = true ->
  nodeEl eng = Some node ->
  dispatched (trace (triggerPressEnd cfg e pt w eng))
  = newPressEvent pressend pt e ::
    (if w && negb (isDisabled cfg) then [newPressEvent press pt e] else []) /\
  isPressedStore (final (triggerPressEnd cfg e pt w eng)) = false /\
  PressState.didFirePressStart (state (final (triggerPressEnd cfg e pt w eng)))
  = false.
Proof.
  intros Hp Hn. unfold triggerPressEnd. run_monad. rewrite Hp. cbn.
  destruct (onPressEnd cfg), (onPressChange cfg), (onPress cfg), w,
    (isDisabled cfg); cbn; rewrite ?Hn; cbn; rewrite ?Hn; auto.
Qed.

Lemma triggerPressUp_disabled cfg e pt eng :
  isDisabled cfg = true -> noop (triggerPressUp cfg e pt eng) eng.
Proof.
  intros H. unfold noop, triggerPressUp. run_monad. rewrite H. cbn. auto.
Qed.

Lemma triggerPressUp_enabled_not_noop cfg e pt eng :
  isDisabled cfg = false -> ~ noop (triggerPressUp cfg e pt eng) eng.
Proof.
  intros H (Ht & Hr & _). revert Ht Hr.
  unfold triggerPressUp. run_monad. rewrite H.
  destruct (onPressUp cfg), (nodeEl eng); cbn; congruence.
Qed.

Lemma triggerPressUp_fires cfg e pt eng node :
  isDisabled cfg = false ->
  nodeEl eng = Some node ->
  dispatched (trace (triggerPressUp cfg e pt eng)) = [newPressEvent pressup pt e].
Proof.
  intros Hd Hn. unfold triggerPressUp. run_monad. rewrite Hd.
  destruct (onPressUp cfg); cbn; rewrite Hn; reflexivity.
Qed.

(** C6. triggerPressUp emits a pressup whenever the engine is not disabled,
    whether or not a start is pending, and is a no-op returning false
    exactly when the engine is disabled.  It is the only trigger that does
    not look at the start/end pairing: what it emits and returns is the
    same whatever the pending-start flag is, whereas triggerPressStart is a
    no-op when a start is pending and triggerPressEnd is a no-op when none
    is. *)
Theorem triggerPressUp_independent_of_pairing (cfg : PressConfig)
    (eng : Engine) (e : EventBase) (pt : PointerType) :
  (noop (triggerPressUp cfg e pt eng) eng <-> isDisabled cfg = true) /\
  (isDisabled cfg = false -> forall node, nodeEl eng = Some node ->
   dispatched (trace (triggerPressUp cfg e pt eng))
   = [newPressEvent pressup pt e]) /\
  (forall b,
     trace (triggerPressUp cfg e pt (withPending b eng))
     = trace (triggerPressUp cfg e pt eng) /\
     result (triggerPressUp cfg e pt (withPending b eng))
     = result (triggerPressUp cfg e pt eng)) /\
  (forall w, noop (triggerPressStart cfg e pt (withPending true eng))
                  (withPending true eng) /\
             noop (triggerPressEnd cfg e pt w (withPending false eng))
                  (withPending false eng)) /\
  (isDisabled cfg = false -> forall node w, nodeEl eng = Some node ->
   dispatched (trace (triggerPressStart cfg e pt (withPending false eng)))
   <> [] /\
   dispatched (trace (triggerPressEnd cfg e pt w (withPending true eng)))
   <> []).
Proof.
  split; [|split; [|split; [|split]]].
  - split.
    + intros Hn. destruct (isDisabled cfg) eqn:Hd; [reflexivity|].
      exfalso. exact (triggerPressUp_enabled_not_noop cfg e pt eng Hd Hn).
    + intros Hd. apply triggerPressUp_disabled; exact Hd.
  - intros Hd node Hn. apply (triggerPressUp_fires cfg e pt eng node Hd Hn).
  - intros b. unfold triggerPressUp, withPending. run_monad.
    destruct (isDisabled cfg), (onPressUp cfg), (nodeEl eng); split; reflexivity.
  - intros w. split.
    + apply triggerPressStart_pending. reflexivity.
    + apply triggerPressEnd_not_pending. reflexivity.
  - intros Hd node w Hn. split.
    + destruct (triggerPressStart_fires cfg e pt (withPending false eng) node)
        as [H1 _]; auto.
      rewrite H1. discriminate.
    + destruct (triggerPressEnd_fires cfg e pt w (withPending true eng) node)
        as [H1 _]; auto.
      rewrite H1. discriminate.
Qed.

(** A release over the sample button with no start pending. *)
Lemma triggerPressUp_independent_of_pairing_witness :
  let origin := noModifiers sampleButton in
  isDisabled defaultConfig = false /\
  PressState.didFirePressStart (state boundButton) = false /\
  nodeEl boundButton = Some sampleButton /\
  dispatched (trace (triggerPressUp defaultConfig origin mouse boundButton))
  = [newPressEvent pressup mouse origin].
Proof.
  cbv zeta. do 3 (split; [reflexivity|]).
  exact (proj1 (proj2 (triggerPressUp_independent_of_pairing defaultConfig
                         boundButton (noModifiers sampleButton) mouse))
           eq_refl sampleButton eq_refl).
Defined.

(* ------------------------------------------------------------------ *)
(** ** The triggers in closed form *)

Lemma triggerPressStart_eq cfg e pt eng :
  triggerPressStart cfg e pt eng
  = if isDisabled cfg || PressState.didFirePressStart (state eng)
    then (false, eng, [])
    else (negb (continued (onPressStart cfg) cfg (nodeEl eng)
                  (newPressEvent pressstart pt e)),
          afterTrigger eng
            (PressState.ignoreClickAfterPress (state eng)) true false true,
          pressStartTrace cfg (nodeEl eng) e pt).
Proof.
  unfold triggerPressStart, afterTrigger, pressStartTrace, continued, calls,
    dispatches.
  run_monad.
  destruct (isDisabled cfg || PressState.didFirePressStart (state eng));
    [reflexivity|].
  destruct (onPressStart cfg), (nodeEl eng), (onPressChange cfg); reflexivity.
Qed.

Lemma triggerPressEnd_eq cfg e pt w eng :
  triggerPressEnd cfg e pt w eng
  = if PressState.didFirePressStart (state eng)
    then (pressEndStops cfg (nodeEl eng) e pt w,
          afterTrigger eng true false false false,
          pressEndTrace cfg (nodeEl eng) e pt w)
    else (false, eng, []).
Proof.
  unfold triggerPressEnd, afterTrigger, pressEndTrace, pressEndStops,
    continued, calls, dispatches.
  run_monad.
  destruct (PressState.didFirePressStart (state eng)); [|reflexivity].
  cbn [negb].
  destruct (onPressEnd cfg), (nodeEl eng), (onPressChange cfg),
    (w && negb (isDisabled cfg)), (onPress cfg);
    cbn; rewrite ?andb_true_r; reflexivity.
Qed.

Lemma triggerPressUp_eq cfg e pt eng :
  triggerPressUp cfg e pt eng
  = if isDisabled cfg then (false, eng, [])
    else (negb (continued (onPressUp cfg) cfg (nodeEl eng)
                  (newPressEvent pressup pt e)),
          afterTrigger eng
            (PressState.ignoreClickAfterPress (state eng))
            (PressState.didFirePressStart (state eng)) false
            (isPressedStore eng),
          pressUpTrace cfg (nodeEl eng) e pt).
Proof.
  unfold triggerPressUp, afterTrigger, pressUpTrace, continued, calls,
    dispatches.
  run_monad.
  destruct (isDisabled cfg); [reflexivity|].
  destruct (onPressUp cfg), (nodeEl eng); reflexivity.
Qed.

Lemma dispatched_app' (t1 t2 : list Effect) :
  dispatched (t1 ++ t2) = (dispatched t1 ++ dispatched t2)%list.
Proof.
  induction t1 as [|x t1 IH]; [reflexivity|].
  destruct x; cbn; rewrite ?IH; reflexivity.
Qed.

Lemma dispatched_calls cb ev : dispatched (calls cb ev) = [].
Proof. destruct cb; reflexivity. Qed.

Lemma dispatched_pressStartTrace cfg node e pt :
  dispatched (pressStartTrace cfg (Some node) e pt)
  = [newPressEvent pressstart pt e].
Proof.
  unfold pressStartTrace. rewrite !dispatched_app', dispatched_calls.
  destruct (onPressChange cfg); reflexivity.
Qed.

Lemma dispatched_pressEndTrace cfg node e pt w :
  dispatched (pressEndTrace cfg (Some node) e pt w)
  = newPressEvent pressend pt e ::
    (if w && negb (isDisabled cfg) then [newPressEvent press pt e] else []).
Proof.
  unfold pressEndTrace. rewrite !dispatched_app', dispatched_calls.
  destruct (onPressChange cfg), (w && negb (isDisabled cfg)); cbn;
    rewrite ?dispatched_app', ?dispatched_calls; reflexivity.
Qed.

Lemma dispatched_pressUpTrace cfg node e pt :
  dispatched (pressUpTrace cfg (Some node) e pt)
  = [newPressEvent pressup pt e].
Proof.
  unfold pressUpTrace. rewrite !dispatched_app', dispatched_calls.
  reflexivity.
Qed.

(* ------------------------------------------------------------------ *)
(** ** Events the engine dispatches to itself *)

(** With the link-opening flag unset the click listener does nothing at
    all, whatever the click and the state. *)
Lemma onClick_inert_unless_opening pf cfg e eng :
  BaseHandlers.onClick pf cfg false e eng = (tt, eng, []).
Proof.
  unfold BaseHandlers.onClick. run_monad.
  destruct (currentTarget (MouseEvent.base e)); [|reflexivity].
  destruct (negb _); [reflexivity|].
  rewrite andb_false_r. reflexivity.
Qed.

(** A keydown that carries no key and no code is no activation and is not
    Meta: the keydown listener ignores it. *)
Lemma onKeyDown_keyless pf cfg r b t l eng :
  BaseHandlers.onKeyDown pf cfg (KeyboardEvent.mk "" "" r b t l) eng
  = (tt, eng, []).
Proof.
  unfold BaseHandlers.onKeyDown, isValidKeyboardEvent. cbn.
  destruct (currentTarget b); reflexivity.
Qed.

(** openLink as the document keyup listener calls it, with the flag unset:
    the anchor is focused and sent the link-opening event, and the engine's
    own listener on the element does nothing with that event. *)
Lemma openLink_effects pf cfg target modifiers eng :
  openLink pf cfg target modifiers false eng
  = (tt, eng, [Focus target; OpenLink target]).
Proof.
  unfold openLink, onElement. run_monad.
  destruct (isWebKit pf && isMac pf && negb (isIPad pf) && negb (isTestEnv pf));
    destruct (nodeEl eng) as [node|]; try reflexivity.
  - destruct (Nat.eqb _ _); [|reflexivity].
    rewrite onKeyDown_keyless. reflexivity.
  - destruct (contains _ _); [|reflexivity].
    rewrite onClick_inert_unless_opening. reflexivity.
Qed.

(* ------------------------------------------------------------------ *)
(** ** Release on an engine disabled mid-press *)

(** C5. When a press was started (didFirePressStart is true) and the engine
    is disabled by the time of the release, triggerPressEnd with
    wasPressed = true does exactly this: it calls onPressEnd (when given),
    dispatches pressend to the host, calls onPressChange(false) (when
    given) and sets the public isPressed store to false.  No press event
    reaches the consumer: onPress is not called and no press event is
    dispatched to the host. *)
Theorem triggerPressEnd_disabled_mid_press (cfg : PressConfig) (eng : Engine)
    (e : EventBase) (pt : PointerType) (node : Element)
    (Hpending : PressState.didFirePressStart (state eng) = true)
    (Hbound : nodeEl eng = Some node)
    (Hdisabled : isDisabled cfg = true) :
  let r := triggerPressEnd cfg e pt true eng in
  trace r
  = (calls (onPressEnd cfg) (newPressEvent pressend pt e) ++
     [Dispatched node (newPressEvent pressend pt e)] ++
     (if onPressChange cfg then [PressChange false] else []))%list /\
  (forall ev, PressEvent.type ev = press ->
              ~ In (CallbackCalled ev) (trace r)) /\
  (forall el ev, PressEvent.type ev = press ->
                 ~ In (Dispatched el ev) (trace r)) /\
  dispatched (trace r) = [newPressEvent pressend pt e] /\
  countType press (trace r) = 0%nat /\
  isPressedStore (final r) = false.
Proof.
  intros r. subst r.
  rewrite triggerPressEnd_eq, Hpending, Hbound.
  unfold trace, final, pressEndTrace. cbn [fst snd dispatches].
  rewrite Hdisabled. cbn [andb negb]. rewrite !app_nil_r.
  split; [reflexivity|].
  assert (Hno : forall x,
            In x (calls (onPressEnd cfg) (newPressEvent pressend pt e) ++
                  [Dispatched node (newPressEvent pressend pt e)] ++
                  (if onPressChange cfg then [PressChange false] else []))%list ->
            match x with
            | CallbackCalled ev | Dispatched _ ev =>
                PressEvent.type ev = pressend
            | _ => True
            end).
  { intros x Hx. unfold calls in Hx.
    destruct (onPressEnd cfg), (onPressChange cfg); cbn in Hx;
      repeat (destruct Hx as [<- | Hx]; [cbn; auto|]); destruct Hx. }
  split; [|split; [|split; [|split]]].
  - intros ev Hty Hin. apply Hno in Hin. congruence.
  - intros el ev Hty Hin. apply Hno in Hin. congruence.
  - unfold calls. destruct (onPressEnd cfg), (onPressChange cfg); reflexivity.
  - unfold countType, calls.
    destruct (onPressEnd cfg), (onPressChange cfg); reflexivity.
  - reflexivity.
Qed.

(** A press started on the sample button while enabled, released after the
    engine was disabled, with every consumer callback supplied. *)
Lemma triggerPressEnd_disabled_mid_press_witness :
  let origin := noModifiers sampleButton in
  let cfg := withCallbacks defaultConfig in
  let started := final (triggerPressStart cfg origin mouse boundButton) in
  let r := triggerPressEnd (withDisabled true cfg) origin mouse true started in
  PressState.didFirePressStart (state started) = true /\
  isPressedStore started = true /\
  trace r = [CallbackCalled (newPressEvent pressend mouse origin);
             Dispatched sampleButton (newPressEvent pressend mouse origin);
             PressChange false] /\
  isPressedStore (final r) = false.
Proof.
  cbv zeta. split; [reflexivity|]. split; [reflexivity|].
  pose proof (triggerPressEnd_disabled_mid_press
                (withDisabled true (withCallbacks defaultConfig))
                (final (triggerPressStart (withCallbacks defaultConfig)
                          (noModifiers sampleButton) mouse boundButton))
                (noModifiers sampleButton) mouse sampleButton
                eq_refl eq_refl eq_refl) as H.
  cbv zeta in H. split; [exact (proj1 H)|].
  exact (proj2 (proj2 (proj2 (proj2 (proj2 H))))).
Defined.

(* ------------------------------------------------------------------ *)
(** ** Relational reasoning on engine computations

    A composable relation is established once per primitive and then holds
    of every handler, by following the handler's structure. *)

Section Respects.

Context (R : Engine -> list Effect -> Engine -> Prop) {HR : Composable R}.

Lemma respects_ret {A} (a : A) : respects R (ret a).
Proof. intros eng. apply R_refl. Qed.

Lemma respects_getState : respects R getState.
Proof. intros eng. apply R_refl. Qed.

Lemma respects_bind {A B} (m : M A) (f : A -> M B) :
  respects R m -> (forall a, respects R (f a)) -> respects R (bind m f).
Proof.
  intros Hm Hf eng. unfold bind.
  pose proof (Hm eng) as H1. destruct (m eng) as [[a eng1] t1].
  pose proof (Hf a eng1) as H2. destruct (f a eng1) as [[b eng2] t2].
  exact (R_trans _ _ _ _ _ H1 H2).
Qed.

Lemma respects_when (b : bool) (m : M unit) :
  respects R m -> respects R (when b m).
Proof. intros Hm. destruct b; [exact Hm | apply respects_ret]. Qed.

Lemma respects_forEach {A} (l : list A) (f : A -> M unit) :
  (forall a, respects R (f a)) -> respects R (forEach l f).
Proof.
  intros Hf. induction l as [|x l IH]; cbn [forEach].
  - apply respects_ret.
  - apply respects_bind; auto.
Qed.

Lemma respects_ifRegistered (h : GlobalHandler) (m : M unit) :
  respects R m -> respects R (ifRegistered h m).
Proof.
  intros Hm eng. unfold ifRegistered.
  destruct (existsb _ _); [apply Hm | apply R_refl].
Qed.

Lemma respects_onElement (bubbles : bool) (target : Element)
    (listener : Element -> M unit) :
  (forall node, respects R (listener node)) ->
  respects R (onElement bubbles target listener).
Proof.
  intros Hm eng. unfold onElement.
  destruct (nodeEl eng); [|apply R_refl].
  destruct (if bubbles then _ else _); [apply Hm | apply R_refl].
Qed.

Lemma respects_openLink pf cfg target modifiers :
  respects R (emit (Focus target)) -> respects R (emit (OpenLink target)) ->
  respects R (openLink pf cfg target modifiers false).
Proof.
  intros HF HO eng. rewrite openLink_effects.
  exact (R_trans _ _ _ _ _ (HF eng) (HO eng)).
Qed.

Lemma respects_step pf cfg i :
  respects R (listeners pf cfg i) -> respects R (step pf cfg i).
Proof.
  intros Hm eng. unfold step.
  destruct (nodeEl eng); [apply Hm | apply R_refl].
Qed.

Lemma respects_run pf inputs :
  Forall (fun ci => respects R (listeners pf (fst ci) (snd ci))) inputs ->
  respects R (run pf inputs).
Proof.
  induction 1 as [|[cfg i] rest Hi _ IH]; cbn [run].
  - apply respects_ret.
  - apply respects_bind; [apply respects_step; exact Hi | intros _; exact IH].
Qed.

End Respects.

(** One structural step on a goal [respects R m]; [prim] closes the
    primitives, which depend on the relation. *)
Ltac respects_step prim :=
  lazymatch goal with
  | |- respects _ (bind _ _) => apply respects_bind; [exact _ | | intros ?]
  | |- respects _ (ret _) => apply respects_ret; exact _
  | |- respects _ getState => apply respects_getState; exact _
  | |- respects _ (when _ _) => apply respects_when; [exact _ |]
  | |- respects _ (forEach _ _) => apply respects_forEach; [exact _ | intros ?]
  | |- respects _ (ifRegistered _ _) => apply respects_ifRegistered; [exact _ |]
  | |- respects _ (onElement _ _ _) =>
      apply respects_onElement; [exact _ | intros ?]
  | |- respects _ (openLink _ _ _ _ false) =>
      first [prim | apply respects_openLink; [exact _ | |]]
  | |- respects _ (if ?b then _ else _) => destruct b
  | |- respects _ (match ?x with _ => _ end) => destruct x
  | |- respects _ _ => prim
  end.

Ltac respects_auto prim := cbv zeta; repeat (respects_step prim; cbv zeta).

(* ------------------------------------------------------------------ *)
(** ** The public store mirrors [didFirePressStart] *)

Lemma dispatched_app (t1 t2 : list Effect) :
  dispatched (t1 ++ t2) = (dispatched t1 ++ dispatched t2)%list.
Proof.
  induction t1 as [|x t1 IH]; [reflexivity|].
  destruct x; cbn; rewrite ?IH; reflexivity.
Qed.

Lemma countType_app ty (t1 t2 : list Effect) :
  countType ty (t1 ++ t2) = (countType ty t1 + countType ty t2)%nat.
Proof.
  unfold countType. rewrite dispatched_app, filter_app, length_app. reflexivity.
Qed.

Lemma quiet_app t1 t2 : quiet (t1 ++ t2) <-> quiet t1 /\ quiet t2.
Proof. unfold quiet. rewrite !countType_app. lia. Qed.

#[export] Instance Rsync_composable : Composable Rsync.
Proof.
  split.
  - intros eng node Hn. split; [exact Hn|]. left.
    split; [split; reflexivity | split; reflexivity].
  - intros e1 t1 e2 t2 e3 H1 H2 node Hn.
    destruct (H1 node Hn) as [Hn2 H1'].
    destruct (H2 node Hn2) as [Hn3 H2'].
    split; [exact Hn3|].
    destruct H2' as [[Hq2 [Hs2 Hf2]]|[Hq2 Hi3]].
    + destruct H1' as [[Hq1 [Hs1 Hf1]]|[Hq1 Hi2]].
      * left. split; [apply quiet_app; auto|]. split; congruence.
      * right. split.
        -- rewrite quiet_app. tauto.
        -- unfold inSync in *. congruence.
    + right. split; [rewrite quiet_app; tauto | exact Hi3].
Qed.

Lemma Rsync_unchanged (eng eng' : Engine) (tr : list Effect) :
  quiet tr ->
  nodeEl eng' = nodeEl eng ->
  isPressedStore eng' = isPressedStore eng ->
  PressState.didFirePressStart (state eng')
  = PressState.didFirePressStart (state eng) ->
  Rsync eng tr eng'.
Proof.
  intros Hq Hn Hs Hf node Hb. split; [congruence|]. left.
  split; [exact Hq | split; assumption].
Qed.

Lemma Rsync_emit (e : Effect) :
  match e with Dispatched _ _ => False | _ => True end ->
  respects Rsync (emit e).
Proof.
  intros He eng. apply Rsync_unchanged; try reflexivity.
  destruct e; try contradiction; split; reflexivity.
Qed.

Lemma Rsync_update (f : PressState.t -> PressState.t) :
  (forall s, PressState.didFirePressStart (f s) = PressState.didFirePressStart s) ->
  respects Rsync (update f).
Proof.
  intros Hf eng. apply Rsync_unchanged; cbn; auto. split; reflexivity.
Qed.

Lemma Rsync_addGlobalListener h : respects Rsync (addGlobalListener h).
Proof. intros eng. apply Rsync_unchanged; try reflexivity. split; reflexivity. Qed.

Lemma Rsync_removeAllGlobalListeners : respects Rsync removeAllGlobalListeners.
Proof. intros eng. apply Rsync_unchanged; try reflexivity. split; reflexivity. Qed.

Lemma Rsync_triggerPressStart cfg e pt :
  respects Rsync (triggerPressStart cfg e pt).
Proof.
  intros eng node Hn.
  destruct (isDisabled cfg || PressState.didFirePressStart (state eng)) eqn:G.
  - unfold triggerPressStart. run_monad. rewrite G. cbn.
    split; [exact Hn|]. left. repeat split.
  - apply orb_false_iff in G. destruct G as [Hd Hp].
    unfold triggerPressStart. run_monad. rewrite Hd, Hp. cbn.
    destruct (onPressStart cfg), (onPressChange cfg); cbn; rewrite ?Hn; cbn;
      (split; [first [exact Hn | reflexivity]|]); right;
      (split; [intros [Q _]; discriminate Q | reflexivity]).
Qed.

Lemma Rsync_triggerPressEnd cfg e pt w :
  respects Rsync (triggerPressEnd cfg e pt w).
Proof.
  intros eng node Hn.
  destruct (PressState.didFirePressStart (state eng)) eqn:Hp.
  - unfold triggerPressEnd. run_monad. rewrite Hp. cbn.
    destruct (onPressEnd cfg), (onPressChange cfg), (onPress cfg), w,
      (isDisabled cfg); cbn; rewrite ?Hn; cbn; rewrite ?Hn; cbn;
      (split; [first [exact Hn | reflexivity]|]); right;
      (split; [intros [_ Q]; discriminate Q | reflexivity]).
  - unfold triggerPressEnd. run_monad. rewrite Hp. cbn.
    split; [exact Hn|]. left. repeat split.
Qed.

Lemma Rsync_triggerPressUp cfg e pt :
  respects Rsync (triggerPressUp cfg e pt).
Proof.
  intros eng node Hn. unfold triggerPressUp. run_monad.
  destruct (isDisabled cfg); cbn.
  - split; [exact Hn|]. left. repeat split.
  - destruct (onPressUp cfg); cbn; rewrite ?Hn; cbn;
      (split; [first [exact Hn | reflexivity]|]); left; repeat split.
Qed.

Ltac sync_prim :=
  first
    [ apply Rsync_triggerPressStart
    | apply Rsync_triggerPressEnd
    | apply Rsync_triggerPressUp
    | apply Rsync_addGlobalListener
    | apply Rsync_removeAllGlobalListeners
    | apply Rsync_emit; exact I
    | apply Rsync_update; intros ?; reflexivity ].

Lemma Rsync_cancel cfg e : respects Rsync (cancel cfg e).
Proof. unfold cancel. respects_auto sync_prim. Qed.

Lemma Rsync_cancelOnPointerExit cfg e :
  respects Rsync (cancelOnPointerExit cfg e).
Proof.
  unfold cancelOnPointerExit.
  destruct (shouldCancelOnPointerExit cfg);
    [apply Rsync_cancel | apply respects_ret; exact _].
Qed.

Lemma Rsync_endOnRelease cfg st origin over :
  respects Rsync (endOnRelease cfg st origin over).
Proof. unfold endOnRelease. respects_auto sync_prim. Qed.

Ltac sync :=
  respects_auto
    ltac:(first
            [ apply Rsync_cancel
            | apply Rsync_cancelOnPointerExit
            | apply Rsync_endOnRelease
            | sync_prim ]).

(** Every listener, with its guards unfolded. *)
Ltac unfold_listener :=
  cbv [listeners
       BaseHandlers.onKeyDown BaseHandlers.onKeyUp BaseHandlers.onClick
       PointerHandlers.handlers.onPointerDown
       PointerHandlers.handlers.onPointerUp
       PointerHandlers.handlers.onMouseDown
       PointerHandlers.onPointerMove PointerHandlers.onPointerUp
       PointerHandlers.onPointerCancel
       NonPointerHandlers.handlers.onMouseDown
       NonPointerHandlers.handlers.onMouseEnter
       NonPointerHandlers.handlers.onMouseLeave
       NonPointerHandlers.handlers.onMouseUp
       NonPointerHandlers.handlers.onTouchStart
       NonPointerHandlers.handlers.onTouchMove
       NonPointerHandlers.handlers.onTouchEnd
       NonPointerHandlers.handlers.onTouchCancel
       NonPointerHandlers.handlers.onDragStart
       NonPointerHandlers.onMouseUp NonPointerHandlers.onScroll onKeyUp
       onKeyUpAt dispatchKeyUp].

Lemma Rsync_listeners pf cfg i : respects Rsync (listeners pf cfg i).
Proof. destruct i; unfold_listener; sync. Qed.

Lemma Rsync_run pf inputs : respects Rsync (run pf inputs).
Proof.
  apply respects_run; [exact _|]. apply Forall_forall. intros [cfg i] _.
  apply Rsync_listeners.
Qed.

Lemma Rsync_inSync eng tr eng' node :
  Rsync eng tr eng' -> nodeEl eng = Some node -> inSync eng -> inSync eng'.
Proof.
  intros H Hn Hi. destruct (H node Hn) as [_ [[_ [Hs Hf]]|[_ Hi']]].
  - unfold inSync in *. congruence.
  - exact Hi'.
Qed.

Lemma step_unbound pf cfg i eng :
  nodeEl eng = None -> step pf cfg i eng = (tt, eng, []).
Proof. intros H. unfold step. rewrite H. reflexivity. Qed.

(** C10. The public isPressed store and the didFirePressStart flag are equal
    after every engine operation: in every reachable state, and across
    every event processed from a state where they agree.  triggerPressStart
    sets both to true together and triggerPressEnd clears both together;
    no other path writes either: an event during which neither a pressstart
    nor a pressend is emitted leaves both as they were. *)
Theorem isPressed_store_mirrors_didFirePressStart (pf : Platform) :
  (forall eng, reachable pf eng -> inSync eng) /\
  (forall cfg i eng, inSync eng -> inSync (final (step pf cfg i eng))) /\
  (forall cfg i eng, quiet (trace (step pf cfg i eng)) ->
     sameFlags eng (final (step pf cfg i eng))) /\
  (forall cfg e pt eng,
     isDisabled cfg = false ->
     PressState.didFirePressStart (state eng) = false ->
     let eng' := final (triggerPressStart cfg e pt eng) in
     isPressedStore eng' = true /\
     PressState.didFirePressStart (state eng') = true) /\
  (forall cfg e pt w eng,
     PressState.didFirePressStart (state eng) = true ->
     let eng' := final (triggerPressEnd cfg e pt w eng) in
     isPressedStore eng' = false /\
     PressState.didFirePressStart (state eng') = false).
Proof.
  split; [|split; [|split; [|split]]].
  - intros eng (node & inputs & ->).
    exact (Rsync_inSync _ _ _ node
             (Rsync_run pf inputs (pressAction node createPress))
             eq_refl eq_refl).
  - intros cfg i eng Hi.
    destruct (nodeEl eng) as [node|] eqn:Hn.
    + exact (Rsync_inSync eng _ _ node
               (respects_step Rsync pf cfg i (Rsync_listeners pf cfg i) eng) Hn Hi).
    + rewrite step_unbound by exact Hn. exact Hi.
  - intros cfg i eng Hq.
    destruct (nodeEl eng) as [node|] eqn:Hn.
    + destruct (respects_step Rsync (HR := Rsync_composable) pf cfg i (Rsync_listeners pf cfg i) eng node Hn)
        as [_ [[_ Hs]|[Hnq _]]]; [exact Hs | contradiction].
    + rewrite step_unbound by exact Hn. split; reflexivity.
  - intros cfg e pt eng Hd Hp eng'. subst eng'.
    unfold triggerPressStart. run_monad. rewrite Hd, Hp. cbn.
    destruct (onPressStart cfg), (nodeEl eng), (onPressChange cfg);
      split; reflexivity.
  - intros cfg e pt w eng Hp eng'. subst eng'.
    unfold triggerPressEnd. run_monad. rewrite Hp. cbn.
    destruct (onPressEnd cfg), (nodeEl eng), (onPressChange cfg), w,
      (isDisabled cfg), (onPress cfg); split; reflexivity.
Qed.

(** The virtual-click scenario run with the link-opening flag set: the
    store is back in step with the flag after the whole triplet. *)
Lemma isPressed_store_mirrors_didFirePressStart_witness :
  inSync boundButton /\
  inSync (final (step (macBrowser true) defaultConfig
                   (Click true (mouseEvent 5 5 sampleButton)) boundButton)).
Proof.
  assert (H : inSync boundButton) by reflexivity.
  split; [exact H|].
  exact (proj1 (proj2 (isPressed_store_mirrors_didFirePressStart (macBrowser true)))
           defaultConfig (Click true (mouseEvent 5 5 sampleButton)) boundButton H).
Defined.

(* ------------------------------------------------------------------ *)
(** ** [pointerType] while pressed *)

(** Case analysis on every scrutinee left in the goal. *)
Ltac split_matches :=
  repeat (cbn;
          match goal with
          | |- context [match ?x with _ => _ end] =>
              lazymatch x with
              | context [match _ with _ => _ end] => fail
              | _ => destruct x
              end
          end).

Section StateOnly.

Context (S : PressState.t -> PressState.t -> Prop) {HS : StateRel S}.

#[export] Instance lift_composable : Composable (lift S).
Proof.
  split.
  - intros eng. unfold lift. apply S_refl.
  - intros e1 t1 e2 t2 e3. unfold lift. apply S_trans.
Qed.

Lemma lift_emit (e : Effect) : respects (lift S) (emit e).
Proof. intros eng. unfold lift. cbn. apply S_refl. Qed.

Lemma lift_addGlobalListener h : respects (lift S) (addGlobalListener h).
Proof. intros eng. unfold lift. cbn. apply S_refl. Qed.

Lemma lift_removeAllGlobalListeners :
  respects (lift S) removeAllGlobalListeners.
Proof. intros eng. unfold lift. cbn. apply S_refl. Qed.

Lemma lift_update (f : PressState.t -> PressState.t) :
  (forall s, S s (f s)) -> respects (lift S) (update f).
Proof. intros Hf eng. unfold lift. cbn. apply Hf. Qed.

Lemma lift_triggerPressStart cfg e pt :
  respects (lift S) (triggerPressStart cfg e pt).
Proof.
  intros eng. unfold lift.
  apply S_frame; unfold triggerPressStart; run_monad; split_matches;
    reflexivity.
Qed.

Lemma lift_triggerPressEnd cfg e pt w :
  respects (lift S) (triggerPressEnd cfg e pt w).
Proof.
  intros eng. unfold lift.
  apply S_frame; unfold triggerPressEnd; run_monad; split_matches;
    reflexivity.
Qed.

Lemma lift_triggerPressUp cfg e pt :
  respects (lift S) (triggerPressUp cfg e pt).
Proof.
  intros eng. unfold lift.
  apply S_frame; unfold triggerPressUp; run_monad; split_matches;
    reflexivity.
Qed.

End StateOnly.

#[export] Instance keepsKnown_rel : StateRel keepsKnown.
Proof.
  split; unfold keepsKnown, known.
  - auto.
  - auto.
  - intros s s' Hp Ht. rewrite Hp, Ht. auto.
Qed.

#[export] Instance keepsPointerTypeSet_rel : StateRel keepsPointerTypeSet.
Proof.
  split; unfold keepsPointerTypeSet.
  - auto.
  - auto.
  - intros s s' _ Ht. rewrite Ht. auto.
Qed.

#[export] Instance keepsPointerType_rel : StateRel keepsPointerType.
Proof.
  split; unfold keepsPointerType.
  - reflexivity.
  - intros s1 s2 s3 H1 H2. congruence.
  - intros s s' _ Ht. exact Ht.
Qed.

(** Closes the primitives for a relation on the state alone; [side] proves
    the relation across a [state.update]. *)
Ltac lift_prim side :=
  first
    [ apply lift_triggerPressStart; exact _
    | apply lift_triggerPressEnd; exact _
    | apply lift_triggerPressUp; exact _
    | apply lift_addGlobalListener; exact _
    | apply lift_removeAllGlobalListeners; exact _
    | apply lift_emit; exact _
    | apply lift_update; intros ?; side ].

Ltac known_side :=
  unfold keepsKnown, known; cbn;
  first [intros H; exact H | intros; congruence].

Ltac set_side :=
  unfold keepsPointerTypeSet; cbn;
  first [intros H; exact H | intros; congruence].

Ltac same_side := unfold keepsPointerType; cbn; reflexivity.

Lemma known_cancel cfg e : respects (lift keepsKnown) (cancel cfg e).
Proof. unfold cancel. respects_auto ltac:(lift_prim known_side). Qed.

Lemma known_cancelOnPointerExit cfg e :
  respects (lift keepsKnown) (cancelOnPointerExit cfg e).
Proof.
  unfold cancelOnPointerExit.
  destruct (shouldCancelOnPointerExit cfg);
    [apply known_cancel | apply respects_ret; exact _].
Qed.

Lemma known_endOnRelease cfg st origin over :
  respects (lift keepsKnown) (endOnRelease cfg st origin over).
Proof. unfold endOnRelease. respects_auto ltac:(lift_prim known_side). Qed.

Ltac known_auto :=
  respects_auto
    ltac:(first
            [ apply known_cancel
            | apply known_cancelOnPointerExit
            | apply known_endOnRelease
            | lift_prim known_side ]).

Lemma final_bind_update {A} (f : PressState.t -> PressState.t)
    (k : unit -> M A) (eng : Engine) :
  final (bind (update f) k eng)
  = final (k tt (mkEngine (f (state eng)) (isPressedStore eng)
                   (globalListeners eng) (nodeEl eng))).
Proof.
  unfold bind, update, final.
  destruct (k tt _) as [[b eng2] t2]. reflexivity.
Qed.

(** pointerdown stores the pointer type first and only then marks the
    press: from there on [pointerType] stays set. *)
Lemma known_onPointerDown pf cfg e :
  respects (lift keepsKnown) (PointerHandlers.handlers.onPointerDown pf cfg e).
Proof.
  unfold PointerHandlers.handlers.onPointerDown.
  destruct (currentTarget (PointerEvent.base e)) as [ct|];
    [|apply respects_ret; exact _].
  destruct (_ || _); [apply respects_ret; exact _|].
  apply respects_bind; [exact _ | apply respects_getState; exact _ | intros st].
  destruct (isVirtualPointerEvent pf e); [known_auto|].
  match goal with
  | |- respects _ (bind (update ?f) ?k) =>
      assert (Hk : respects (lift keepsPointerTypeSet) (k tt))
        by respects_auto ltac:(lift_prim set_side)
  end.
  intros eng _ _. rewrite final_bind_update.
  refine (Hk _ _). cbn. discriminate.
Qed.

Lemma known_listeners pf cfg i :
  isKeydown i = false -> respects (lift keepsKnown) (listeners pf cfg i).
Proof.
  destruct i; intros Hk; try discriminate Hk; cbn [listeners];
    try match goal with
        | |- context [hasPointerEvent pf] => destruct (hasPointerEvent pf)
        end;
    try apply known_onPointerDown;
    unfold_listener; known_auto.
Qed.

Lemma pointerType_kept_by_onKeyDown pf cfg e :
  respects (lift keepsPointerType) (BaseHandlers.onKeyDown pf cfg e).
Proof.
  unfold BaseHandlers.onKeyDown. respects_auto ltac:(lift_prim same_side).
Qed.

(* ------------------------------------------------------------------ *)
(** ** Symbolic execution of a handler from a given state

    [wpt m Q eng] is proved by following [m]: the triggers are stepped
    over in closed form, and an effect emitted under a condition adds a
    conditional piece to the trace instead of splitting the proof. *)

Arguments pressStartTrace : simpl never.
Arguments pressEndTrace : simpl never.
Arguments pressUpTrace : simpl never.
Arguments continued : simpl never.
Arguments pressEndStops : simpl never.

Section SymbolicExecution.

Context {A : Type} (Q : A -> Engine -> list Effect -> Prop) (eng : Engine).

Lemma wpt_ret (a : A) : Q a eng [] -> wpt (ret a) Q eng.
Proof. intros H; exact H. Qed.

Lemma wpt_bind {B} (m : M B) (k : B -> M A) :
  wpt m (fun b eng1 t1 =>
           wpt (k b) (fun a eng2 t2 => Q a eng2 (t1 ++ t2)%list) eng1) eng ->
  wpt (bind m k) Q eng.
Proof.
  unfold wpt, bind, result, final, trace.
  destruct (m eng) as [[b eng1] t1]. cbn.
  destruct (k b eng1) as [[a eng2] t2]. cbn. auto.
Qed.

End SymbolicExecution.

Section SymbolicExecutionPrimitives.

Context (eng : Engine).

Lemma wpt_getState (Q : PressState.t -> Engine -> list Effect -> Prop) :
  Q (state eng) eng [] -> wpt getState Q eng.
Proof. intros H; exact H. Qed.

Lemma wpt_update (Q : unit -> Engine -> list Effect -> Prop) f :
  Q tt (mkEngine (f (state eng)) (isPressedStore eng) (globalListeners eng)
          (nodeEl eng)) [] ->
  wpt (update f) Q eng.
Proof. intros H; exact H. Qed.

Lemma wpt_emit (Q : unit -> Engine -> list Effect -> Prop) x :
  Q tt eng [x] -> wpt (emit x) Q eng.
Proof. intros H; exact H. Qed.

Lemma wpt_when_emit (Q : unit -> Engine -> list Effect -> Prop) (b : bool)
    (x : Effect) :
  Q tt eng (if b then [x] else []%list) -> wpt (when b (emit x)) Q eng.
Proof. destruct b; intros H; exact H. Qed.

Lemma wpt_openLink (Q : unit -> Engine -> list Effect -> Prop) pf cfg target
    modifiers :
  Q tt eng [Focus target; OpenLink target] ->
  wpt (openLink pf cfg target modifiers false) Q eng.
Proof. unfold wpt. rewrite openLink_effects. intros H; exact H. Qed.

Lemma wpt_when_openLink (Q : unit -> Engine -> list Effect -> Prop)
    (b : bool) pf cfg
    target modifiers :
  Q tt eng (if b then [Focus target; OpenLink target] else []%list) ->
  wpt (when b (openLink pf cfg target modifiers false)) Q eng.
Proof.
  destruct b; cbn [when]; [apply wpt_openLink | intros H; exact H].
Qed.

Lemma wpt_addGlobalListener (Q : unit -> Engine -> list Effect -> Prop) h :
  Q tt (mkEngine (state eng) (isPressedStore eng)
          (if existsb (GlobalHandler_eqb h) (globalListeners eng)
           then globalListeners eng else (globalListeners eng ++ [h])%list)
          (nodeEl eng)) [AddGlobalListener h] ->
  wpt (addGlobalListener h) Q eng.
Proof. intros H; exact H. Qed.

Lemma wpt_removeAllGlobalListeners
    (Q : unit -> Engine -> list Effect -> Prop) :
  Q tt (mkEngine (state eng) (isPressedStore eng) [] (nodeEl eng))
    [RemoveAllGlobalListeners] ->
  wpt removeAllGlobalListeners Q eng.
Proof. intros H; exact H. Qed.

Lemma wpt_ifRegistered (Q : unit -> Engine -> list Effect -> Prop) h m :
  (if existsb (GlobalHandler_eqb h) (globalListeners eng)
   then wpt m Q eng else Q tt eng []) ->
  wpt (ifRegistered h m) Q eng.
Proof.
  unfold wpt, ifRegistered. destruct (existsb _ _); intros H; exact H.
Qed.

Lemma wpt_onElement (Q : unit -> Engine -> list Effect -> Prop)
    (bubbles : bool) (target : Element) (listener : Element -> M unit) :
  match nodeEl eng with
  | Some node =>
      if (if bubbles then contains node target
          else Nat.eqb (nodeId node) (nodeId target))
      then wpt (listener node) Q eng
      else Q tt eng []
  | None => Q tt eng []
  end ->
  wpt (onElement bubbles target listener) Q eng.
Proof.
  unfold wpt, onElement. destruct (nodeEl eng); [|intros H; exact H].
  destruct (if bubbles then _ else _); intros H; exact H.
Qed.

Lemma wpt_triggerPressStart (Q : bool -> Engine -> list Effect -> Prop)
    cfg e pt :
  (if isDisabled cfg || PressState.didFirePressStart (state eng)
   then Q false eng []
   else Q (negb (continued (onPressStart cfg) cfg (nodeEl eng)
                   (newPressEvent pressstart pt e)))
          (afterTrigger eng
             (PressState.ignoreClickAfterPress (state eng)) true false true)
          (pressStartTrace cfg (nodeEl eng) e pt)) ->
  wpt (triggerPressStart cfg e pt) Q eng.
Proof.
  unfold wpt. rewrite triggerPressStart_eq.
  destruct (_ || _); intros H; exact H.
Qed.

Lemma wpt_triggerPressEnd (Q : bool -> Engine -> list Effect -> Prop)
    cfg e pt w :
  (if PressState.didFirePressStart (state eng)
   then Q (pressEndStops cfg (nodeEl eng) e pt w)
          (afterTrigger eng true false false false)
          (pressEndTrace cfg (nodeEl eng) e pt w)
   else Q false eng []) ->
  wpt (triggerPressEnd cfg e pt w) Q eng.
Proof.
  unfold wpt. rewrite triggerPressEnd_eq.
  destruct (PressState.didFirePressStart _); intros H; exact H.
Qed.

Lemma wpt_triggerPressUp (Q : bool -> Engine -> list Effect -> Prop)
    cfg e pt :
  (if isDisabled cfg then Q false eng []
   else Q (negb (continued (onPressUp cfg) cfg (nodeEl eng)
                   (newPressEvent pressup pt e)))
          (afterTrigger eng
             (PressState.ignoreClickAfterPress (state eng))
             (PressState.didFirePressStart (state eng)) false
             (isPressedStore eng))
          (pressUpTrace cfg (nodeEl eng) e pt)) ->
  wpt (triggerPressUp cfg e pt) Q eng.
Proof.
  unfold wpt. rewrite triggerPressUp_eq.
  destruct (isDisabled cfg); intros H; exact H.
Qed.

End SymbolicExecutionPrimitives.

Lemma wpt_conseq {A} (m : M A) (P Q : A -> Engine -> list Effect -> Prop)
    (eng : Engine) :
  wpt m P eng -> (forall a eng' tr, P a eng' tr -> Q a eng' tr) ->
  wpt m Q eng.
Proof. unfold wpt. auto. Qed.

(** A loop, by an invariant on the state reached and the trace so far. *)
Lemma wpt_forEach_inv {A} (I : Engine -> list Effect -> Prop)
    (Q : unit -> Engine -> list Effect -> Prop) (l : list A) (f : A -> M unit)
    (eng : Engine) :
  I eng [] ->
  (forall a eng' tr, In a l -> I eng' tr ->
     wpt (f a) (fun _ eng2 t2 => I eng2 (tr ++ t2)%list) eng') ->
  (forall eng' tr, I eng' tr -> Q tt eng' tr) ->
  wpt (forEach l f) Q eng.
Proof.
  intros H0 Hstep HQ.
  assert (G : forall eng1 t1, I eng1 t1 ->
            forall l', (forall a, In a l' -> In a l) ->
            wpt (forEach l' f) (fun _ eng2 t2 => I eng2 (t1 ++ t2)%list) eng1).
  { intros eng1 t1 H1 l'. revert eng1 t1 H1.
    induction l' as [|x l' IH]; intros eng1 t1 H1 Hsub; cbn [forEach].
    - apply wpt_ret. rewrite app_nil_r. exact H1.
    - apply wpt_bind.
      eapply wpt_conseq; [apply (Hstep x eng1 t1); [apply Hsub; left; reflexivity | exact H1]|].
      intros u eng2 t2 H2. cbv beta.
      eapply wpt_conseq; [apply (IH eng2 (t1 ++ t2)%list H2); intros a Ha; apply Hsub; right; exact Ha|].
      intros u' eng3 t3 H3. cbv beta in *. rewrite app_assoc. exact H3. }
  eapply wpt_conseq; [apply (G eng [] H0 l); auto|].
  intros [] eng' tr H. apply HQ. exact H.
Qed.

(** A property of a run, read as a postcondition. *)
Lemma wpt_intro {A} (m : M A) (eng : Engine)
    (P : A * Engine * list Effect -> Prop) :
  wpt m (fun a eng' tr => P (a, eng', tr)) eng -> P (m eng).
Proof. unfold wpt, result, final, trace. destruct (m eng) as [[a e] t]. auto. Qed.

Ltac wpt_start :=
  match goal with
  | |- context [step ?pf ?cfg ?i ?eng] =>
      pattern (step pf cfg i eng); apply wpt_intro
  end.

Ltac wpt_start_at r := pattern r; apply wpt_intro.

(** At the end of the run: the postcondition on the final state and the
    trace. *)
Ltac wpt_done := cbv beta; cbn [result final trace fst snd app].

Lemma wpt_step_bound (Q : unit -> Engine -> list Effect -> Prop) pf cfg i eng
    node :
  nodeEl eng = Some node ->
  wpt (listeners pf cfg i) Q eng -> wpt (step pf cfg i) Q eng.
Proof. unfold wpt, step. intros ->. auto. Qed.

Ltac wpt_simpl :=
  cbv beta;
  cbn [state isPressedStore globalListeners nodeEl afterTrigger
       PressState.isPressed PressState.ignoreEmulatedMouseEvents
       PressState.ignoreClickAfterPress PressState.didFirePressStart
       PressState.isTriggeringEvent PressState.activePointerId
       PressState.target PressState.isOverTarget PressState.pointerType
       PressState.metaKeyEvents
       PressState.set_isPressed PressState.set_ignoreEmulatedMouseEvents
       PressState.set_ignoreClickAfterPress PressState.set_didFirePressStart
       PressState.set_isTriggeringEvent PressState.set_activePointerId
       PressState.set_target PressState.set_isOverTarget
       PressState.set_pointerType PressState.set_metaKeyEvents
       when forEach map_values map snd fst andb orb negb List.length Nat.eqb
       KeyboardEvent.key KeyboardEvent.code KeyboardEvent.repeat
       KeyboardEvent.base KeyboardEvent.target KeyboardEvent.linkClicked
       synthesizedKeyUp createEvent currentTarget shiftKey ctrlKey metaKey
       altKey].

(** One step of execution.  A condition the hypotheses do not settle
    splits the proof. *)
Ltac wpt_rule :=
  lazymatch goal with
  | |- wpt (bind _ _) _ _ => apply wpt_bind
  | |- wpt (ret _) _ _ => apply wpt_ret
  | |- wpt getState _ _ => apply wpt_getState
  | |- wpt (update _) _ _ => apply wpt_update
  | |- wpt (emit _) _ _ => apply wpt_emit
  | |- wpt (when _ (emit _)) _ _ => apply wpt_when_emit
  | |- wpt (when _ (openLink _ _ _ _ false)) _ _ => apply wpt_when_openLink
  | |- wpt (when ?b _) _ _ => destruct b eqn:?
  | |- wpt (openLink _ _ _ _ false) _ _ => apply wpt_openLink
  | |- wpt (addGlobalListener _) _ _ => apply wpt_addGlobalListener
  | |- wpt removeAllGlobalListeners _ _ => apply wpt_removeAllGlobalListeners
  | |- wpt (ifRegistered _ _) _ _ => apply wpt_ifRegistered
  | |- wpt (onElement _ _ _) _ _ => apply wpt_onElement
  | |- wpt (triggerPressStart _ _ _) _ _ => apply wpt_triggerPressStart
  | |- wpt (triggerPressEnd _ _ _ _) _ _ => apply wpt_triggerPressEnd
  | |- wpt (triggerPressUp _ _ _) _ _ => apply wpt_triggerPressUp
  | |- wpt (cancel _ _) _ _ => unfold cancel
  | |- wpt (cancelOnPointerExit _ _) _ _ => unfold cancelOnPointerExit
  | |- wpt (endOnRelease _ _ _ _) _ _ => unfold endOnRelease
  | |- wpt (if ?b then _ else _) _ _ => destruct b eqn:?
  | |- wpt (match ?x with _ => _ end) _ _ => destruct x eqn:?
  | |- if ?b then _ else _ => destruct b eqn:?
  | |- match ?x with _ => _ end => destruct x eqn:?
  end.

(** Runs a handler; [rw] rewrites with what is known of the inputs. *)
Ltac wpt_go rw := repeat (wpt_simpl; first [progress rw | wpt_rule]).

(** The press events of a trace produced by symbolic execution. *)
Ltac dispatched_simpl :=
  repeat first
    [ rewrite dispatched_app'
    | rewrite dispatched_pressStartTrace
    | rewrite dispatched_pressEndTrace
    | rewrite dispatched_pressUpTrace
    | match goal with
      | |- context [dispatched (if ?b then _ else _)] => destruct b
      end
    | progress cbn [dispatched app]
    | rewrite app_nil_r ].

(* ------------------------------------------------------------------ *)
(** ** Scenarios on the handlers *)

Arguments isValidKeyboardEvent : simpl never.
Arguments shouldPreventDefaultKeyboard : simpl never.
Arguments shouldPreventDefault : simpl never.
Arguments contains : simpl never.
Arguments isOverTarget : simpl never.

Lemma contains_refl (el : Element) : contains el el = true.
Proof. unfold contains. rewrite Nat.eqb_refl. reflexivity. Qed.

(** *** Virtual clicks *)

(** C1, at the failing input.  A programmatic click (button 0, detected as
    virtual) on a freshly bound, enabled button, with no link being opened:
    the click listener emits nothing and leaves the state as it was, where
    the claim expects focus, pressstart, pressup, pressend and press. *)
Theorem virtual_click_emits_nothing :
  trace programmaticClick = [] /\
  emittedTypes (trace programmaticClick) = [] /\
  final programmaticClick = boundButton.
Proof. repeat split. Qed.

(** The same click processed while [openLink.isOpening] is set goes
    through the whole virtual triplet, focus first. *)
Example virtual_click_while_opening :
  let r := step (macBrowser true) defaultConfig
             (Click true (mouseEvent 5 5 sampleButton)) boundButton in
  let origin := noModifiers sampleButton in
  trace r =
    [Focus sampleButton;
     Dispatched sampleButton (newPressEvent pressstart virtual origin);
     Dispatched sampleButton (newPressEvent pressup virtual origin);
     Dispatched sampleButton (newPressEvent pressend virtual origin);
     Dispatched sampleButton (newPressEvent press virtual origin);
     StopPropagation].
Proof. reflexivity. Qed.

(** *** Meta-key recovery *)

Lemma isValidKeyboardEvent_Meta (ev : string -> string -> Element -> KeyboardEvent.t)
    (el target : Element) :
  (forall k c, KeyboardEvent.key (ev k c el) = k) ->
  (forall k c, KeyboardEvent.code (ev k c el) = c) ->
  isValidKeyboardEvent (ev "Meta" "MetaLeft" el) target = false.
Proof.
  intros Hk Hc. unfold isValidKeyboardEvent. rewrite Hk, Hc. reflexivity.
Qed.

Lemma existsb_after_add (h : GlobalHandler) (ls : list GlobalHandler) :
  existsb (GlobalHandler_eqb h)
    (if existsb (GlobalHandler_eqb h) ls then ls else (ls ++ [h])%list) = true.
Proof.
  destruct (existsb (GlobalHandler_eqb h) ls) eqn:E; [exact E|].
  rewrite existsb_app. cbn. destruct h; cbn; apply orb_true_r.
Qed.

(** Symbolic evaluation of a handler: compute, rewrite with [rw], and split
    on whatever input still blocks the computation. *)
Ltac eval_engine rw :=
  repeat first
    [ progress cbn
    | rw
    | rewrite existsb_after_add
    | match goal with
      | |- context [match ?x with _ => _ end] =>
          lazymatch x with
          | context [match _ with _ => _ end] => fail
          | existsb _ _ => fail
          | _ => destruct x eqn:?
          end
      end ].

(** Splits an engine into its fields. *)
Ltac open_engine eng :=
  let st := fresh "st" in
  destruct eng as [st sStore sListeners sNode];
  destruct st as [sPressed sIgnoreMouse sIgnoreClick sFired sTriggering sActive
                 sTarget sOver sPointerType sMeta];
  cbn [state isPressedStore globalListeners nodeEl
       PressState.isPressed PressState.ignoreEmulatedMouseEvents
       PressState.ignoreClickAfterPress PressState.didFirePressStart
       PressState.isTriggeringEvent PressState.activePointerId
       PressState.target PressState.isOverTarget PressState.pointerType
       PressState.metaKeyEvents] in *.

Ltac unfold_engine :=
  cbv [step listeners ifRegistered cancelOnPointerExit cancel endOnRelease
       triggerPressEnd triggerPressStart triggerPressUp
       removeAllGlobalListeners addGlobalListener pressedValidTarget forEach];
  unfold_listener;
  cbv [cancelOnPointerExit cancel endOnRelease
       triggerPressEnd triggerPressStart triggerPressUp
       removeAllGlobalListeners addGlobalListener pressedValidTarget];
  run_monad.

(** C3 as stated fails: with 'a' pressed while Meta is held, then Meta
    pressed and released, nothing is replayed when Meta's keyup is
    processed, on the element or on the document. *)
Lemma meta_keyup_replays_nothing_for_a :
  isMac (macBrowser false) = true /\
  trace (run (macBrowser false) metaAroundA boundButton) = [] /\
  (forall el keyup,
     ~ In (KeyUpDispatched el keyup)
          (trace (run (macBrowser false) metaAroundA boundButton))).
Proof.
  split; [reflexivity|]. split; [reflexivity|].
  intros el keyup H. exact H.
Qed.

(** A key that is not an activation key, and is not Meta, is not recorded:
    its keydown leaves the engine as it was. *)
Lemma onKeyDown_other_key_ignored pf cfg e el eng :
  currentTarget (KeyboardEvent.base e) = Some el ->
  isValidKeyboardEvent e el = false ->
  KeyboardEvent.key e <> "Meta" ->
  BaseHandlers.onKeyDown pf cfg e eng = (tt, eng, []).
Proof.
  intros Hc Hv Hk. unfold BaseHandlers.onKeyDown. rewrite Hc, Hv. cbn.
  destruct (String.eqb_spec (KeyboardEvent.key e) "Meta"); [contradiction|].
  reflexivity.
Qed.

Lemma isValidKeyboardEvent_synthesizedKeyUp event target ct el :
  isValidKeyboardEvent (synthesizedKeyUp event target ct) el
  = isValidKeyboardEvent event el.
Proof. reflexivity. Qed.

(** The state two keydowns lead to: Meta, then an accepted key with
    metaKey set. *)
Lemma meta_then_key_down pf cfg1 cfg2 eng el key code :
  isMac pf = true ->
  nodeEl eng = Some el ->
  PressState.isPressed (state eng) = false ->
  isValidKeyboardEvent (metaKeyEvent key code el) el = true ->
  let down := metaKeyEvent key code el in
  let eng2 :=
    final (run pf [(cfg1, Keydown (metaKeyEvent "Meta" "MetaLeft" el));
                   (cfg2, Keydown down)] eng) in
  PressState.metaKeyEvents (state eng2) = Some [(key, down)] /\
  PressState.target (state eng2) = Some el /\
  PressState.isPressed (state eng2) = true /\
  nodeEl eng2 = Some el /\
  existsb (GlobalHandler_eqb GKeyUp) (globalListeners eng2) = true.
Proof.
  intros Hmac Hbound Hidle Hvalid. cbv zeta.
  assert (Hm1 : isValidKeyboardEvent (metaKeyEvent "Meta" "MetaLeft" el) el = false)
    by (apply (isValidKeyboardEvent_Meta metaKeyEvent); reflexivity).
  destruct eng as [st store ls nd]. cbn in Hbound, Hidle. subst nd.
  destruct st as [pressed iem icap fired trig apid tgt over ptype mke].
  cbn in Hidle. subst pressed.
  cbv [run step listeners BaseHandlers.onKeyDown
       triggerPressStart addGlobalListener].
  run_monad.
  eval_engine
    ltac:(first [ rewrite Hm1 | rewrite Hvalid | rewrite Hmac
                | rewrite contains_refl ]);
    repeat split;
    destruct (existsb (GlobalHandler_eqb GKeyUp) ls) eqn:E; cbn; rewrite ?E;
    try reflexivity; rewrite existsb_app; cbn; apply orb_true_r.
Qed.

(** Meta released while one accepted key is recorded and a press is in
    progress on the bound element: the recorded key's keyup is dispatched
    and heard by the element's and the document's keyup listeners. *)
Lemma meta_keyup_ends_recorded_press pf cfg e eng el key down :
  nodeEl eng = Some el ->
  PressState.isPressed (state eng) = true ->
  PressState.target (state eng) = Some el ->
  PressState.metaKeyEvents (state eng) = Some [(key, down)] ->
  existsb (GlobalHandler_eqb GKeyUp) (globalListeners eng) = true ->
  KeyboardEvent.key e = "Meta" ->
  isValidKeyboardEvent e el = false ->
  isValidKeyboardEvent down el = true ->
  KeyboardEvent.repeat down = false ->
  let r := step pf cfg (DocumentKeyup e) eng in
  let keyup := synthesizedKeyUp down el None in
  let ev ty :=
    newPressEvent ty keyboard (createEvent el (KeyboardEvent.base keyup)) in
  let enabled := negb (isDisabled cfg) in
  (exists rest, trace r = KeyUpDispatched el keyup :: rest) /\
  dispatched (trace r)
  = ((if enabled then [ev pressup] else []) ++
     (if PressState.didFirePressStart (state eng)
      then ev pressend :: (if enabled then [ev press] else [])
      else []))%list /\
  PressState.isPressed (state (final r)) = false /\
  PressState.didFirePressStart (state (final r)) = false /\
  PressState.metaKeyEvents (state (final r)) = None /\
  globalListeners (final r) = [].
Proof.
  intros Hn Hp Ht Hm Hreg Hkey Hmeta Hvalid Hrep. cbv zeta.
  assert (Hup : forall ct,
            isValidKeyboardEvent (synthesizedKeyUp down el ct) el = true)
    by (intros ct; rewrite isValidKeyboardEvent_synthesizedKeyUp; exact Hvalid).
  open_engine eng. subst.
  wpt_start.
  apply wpt_step_bound with (node := el); [reflexivity|].
  unfold listeners, onKeyUp, onKeyUpAt, dispatchKeyUp, BaseHandlers.onKeyUp,
    pressedValidTarget.
  destruct (isDisabled cfg) eqn:Hd, sFired;
    wpt_go ltac:(first [ rewrite Hmeta | rewrite Hup | rewrite Hkey
                       | rewrite Hreg | rewrite Hrep | rewrite Hd
                       | rewrite contains_refl | rewrite String.eqb_refl ]);
    wpt_done;
    (split; [eexists; reflexivity|]);
    (split; [dispatched_simpl; rewrite ?Hd; reflexivity|]);
    repeat split.
Qed.

(** C3, as the code has it.  On a Mac, with the engine bound and idle:
    keydown of Meta, then keydown of an activation key (Enter or Space on
    an element that accepts it) with metaKey set, which starts a keyboard
    press and is recorded; when Meta's keyup then reaches the document with
    no keyup for that key in between, a keyup for the recorded key is
    dispatched on the recorded target, first of all.  That keyup is heard
    by the engine's own listeners within the same step: the element's keyup
    listener emits pressup (engine enabled) and the document's ends the
    press, emitting pressend and press (press only if enabled) when a start
    is pending, clearing isPressed and removing the document listeners. *)
Theorem meta_keyup_replays_recorded_press_key (pf : Platform)
    (cfg1 cfg2 cfg3 : PressConfig) (eng : Engine) (el : Element)
    (key code : string)
    (Hmac : isMac pf = true)
    (Hbound : nodeEl eng = Some el)
    (Hidle : PressState.isPressed (state eng) = false)
    (Hvalid : isValidKeyboardEvent (metaKeyEvent key code el) el = true) :
  let down := metaKeyEvent key code el in
  let eng2 :=
    final (run pf [(cfg1, Keydown (metaKeyEvent "Meta" "MetaLeft" el));
                   (cfg2, Keydown down)] eng) in
  let r := step pf cfg3 (DocumentKeyup (keyEvent "Meta" "MetaLeft" el)) eng2 in
  let keyup := synthesizedKeyUp down el None in
  let ev ty :=
    newPressEvent ty keyboard (createEvent el (KeyboardEvent.base keyup)) in
  let enabled := negb (isDisabled cfg3) in
  PressState.metaKeyEvents (state eng2) = Some [(key, down)] /\
  PressState.target (state eng2) = Some el /\
  PressState.isPressed (state eng2) = true /\
  (exists rest, trace r = KeyUpDispatched el keyup :: rest) /\
  dispatched (trace r)
  = ((if enabled then [ev pressup] else []) ++
     (if PressState.didFirePressStart (state eng2)
      then ev pressend :: (if enabled then [ev press] else [])
      else []))%list /\
  PressState.isPressed (state (final r)) = false /\
  PressState.didFirePressStart (state (final r)) = false /\
  PressState.metaKeyEvents (state (final r)) = None /\
  globalListeners (final r) = [].
Proof.
  cbv zeta.
  destruct (meta_then_key_down pf cfg1 cfg2 eng el key code Hmac Hbound Hidle
              Hvalid) as (Hm & Ht & Hp & Hn & Hreg).
  cbv zeta in Hm, Ht, Hp, Hn, Hreg.
  do 3 (split; [assumption|]).
  apply (meta_keyup_ends_recorded_press pf cfg3
           (keyEvent "Meta" "MetaLeft" el) _ el key
           (metaKeyEvent key code el) Hn Hp Ht Hm Hreg eq_refl).
  - apply (isValidKeyboardEvent_Meta keyEvent); reflexivity.
  - exact Hvalid.
  - reflexivity.
Qed.

(** Enter on the sample button while Meta is held, on a Mac. *)
Lemma meta_keyup_replays_recorded_press_key_witness :
  let down := metaKeyEvent "Enter" "Enter" sampleButton in
  let eng2 :=
    final (run (macBrowser false)
             [(defaultConfig, Keydown (metaKeyEvent "Meta" "MetaLeft" sampleButton));
              (defaultConfig, Keydown down)] boundButton) in
  let r := step (macBrowser false) defaultConfig
             (DocumentKeyup (keyEvent "Meta" "MetaLeft" sampleButton)) eng2 in
  isValidKeyboardEvent down sampleButton = true /\
  PressState.metaKeyEvents (state eng2) = Some [("Enter", down)] /\
  map PressEvent.type (dispatched (trace r)) = [pressup; pressend; press] /\
  PressState.isPressed (state (final r)) = false.
Proof.
  cbv zeta. split; [reflexivity|].
  pose proof (meta_keyup_replays_recorded_press_key (macBrowser false)
                defaultConfig defaultConfig defaultConfig boundButton
                sampleButton "Enter" "Enter" eq_refl eq_refl eq_refl eq_refl)
    as H.
  cbv zeta in H. destruct H as (Hm & _ & _ & _ & Hd & Hp & _).
  split; [exact Hm|]. split; [rewrite Hd; reflexivity | exact Hp].
Defined.

(** *** Leaving and re-entering the target during a pointer press *)

Lemma bind_getState {A} (k : PressState.t -> M A) (eng : Engine) :
  bind getState k eng = k (state eng) eng.
Proof.
  unfold bind, getState. destruct (k (state eng) eng) as [[b e2] t2].
  reflexivity.
Qed.

Lemma step_pointermove_unregistered pf cfg e eng :
  globalListeners eng = [] ->
  step pf cfg (DocumentPointermove e) eng = (tt, eng, []).
Proof.
  intros H. unfold step, listeners, ifRegistered. rewrite H. cbn.
  destruct (nodeEl eng); reflexivity.
Qed.

Lemma pointermoves_unregistered pf moves eng :
  globalListeners eng = [] ->
  run pf (pointermoves moves) eng = (tt, eng, []).
Proof.
  intros H. induction moves as [|[cfg e] rest IH]; [reflexivity|].
  cbn [pointermoves map run fst snd]. unfold bind.
  rewrite step_pointermove_unregistered by exact H.
  fold (pointermoves rest). rewrite IH. reflexivity.
Qed.

Lemma onPointerMove_no_active_pointer cfg e eng :
  PressState.activePointerId (state eng) = None ->
  PointerHandlers.onPointerMove cfg e eng = (tt, eng, []).
Proof.
  intros H. unfold PointerHandlers.onPointerMove. run_monad.
  rewrite H. reflexivity.
Qed.

(** The step in which the pointer leaves, evaluated up to the
    configuration. *)
Ltac exit_step Hreg Hout :=
  cbv [step listeners ifRegistered PointerHandlers.onPointerMove
       cancelOnPointerExit cancel triggerPressEnd triggerPressStart
       removeAllGlobalListeners];
  run_monad; cbn; rewrite Hreg, Z.eqb_refl; cbn; rewrite Hout; cbn.

Lemma step_pointermove_away pf cfg e eng target id :
  PressState.isOverTarget (state eng) = false ->
  PressState.target (state eng) = Some target ->
  PressState.activePointerId (state eng) = Some id ->
  staysAway target id e ->
  step pf cfg (DocumentPointermove e) eng = (tt, eng, []).
Proof.
  intros Ho Ht Ha He. unfold step, listeners, ifRegistered.
  destruct (nodeEl eng); [|reflexivity].
  destruct (existsb _ _); [|reflexivity].
  unfold PointerHandlers.onPointerMove. rewrite bind_getState.
  rewrite Ha, Ht, Ho. cbn [optZ_eqb].
  destruct (Z.eqb_spec (PointerEvent.pointerId e) id) as [Heq|Hne];
    [|reflexivity].
  destruct He as [He|He]; [contradiction|]. rewrite He. cbn.
  destruct (PressState.pointerType (state eng)); reflexivity.
Qed.

(** Once the pointer has left, moves that stay away change nothing. *)
Lemma pointermoves_away pf moves eng target id :
  PressState.isOverTarget (state eng) = false ->
  PressState.target (state eng) = Some target ->
  PressState.activePointerId (state eng) = Some id ->
  Forall (fun m => staysAway target id (snd m)) moves ->
  run pf (pointermoves moves) eng = (tt, eng, []).
Proof.
  intros Ho Ht Ha Hall. induction Hall as [|[cfg e] rest He _ IH];
    [reflexivity|].
  cbn [pointermoves map run fst snd]. unfold bind.
  rewrite (step_pointermove_away pf cfg e eng target id Ho Ht Ha He).
  fold (pointermoves rest). rewrite IH. reflexivity.
Qed.

(** C9. During a pointer press, a pointermove of the active pointer that
    leaves the hit area emits pressend and no press, to the host or to the
    onPress callback (wasPressed = false).  With shouldCancelOnPointerExit
    = false the press stays recoverable until release: pointermoves that
    stay away (of another pointer, or of the active pointer outside the hit
    area), however many and under whatever configuration, emit nothing and
    leave the engine as the exit left it, and the pointermove of the active
    pointer that then re-enters the hit area emits a fresh pressstart.
    With shouldCancelOnPointerExit = true, leaving cancels the interaction:
    the active pointer identity is cleared, the document listeners are
    removed, and no later pointermove emits anything, whether it is
    delivered through the document or handed to the handler directly. *)
Theorem pointer_exit_and_reentry (pf : Platform) (cfg : PressConfig)
    (eng : Engine) (node target : Element) (id : Z) (pt : PointerType)
    (eOut eIn : PointerEvent.t)
    (Hpress : pointerPressActive eng node target id pt)
    (HidOut : PointerEvent.pointerId eOut = id)
    (HidIn : PointerEvent.pointerId eIn = id)
    (Hout : isOverTarget (PointerEvent.point eOut) target = false)
    (Hin : isOverTarget (PointerEvent.point eIn) target = true) :
  let r1 := step pf cfg (DocumentPointermove eOut) eng in
  dispatched (trace r1)
  = [newPressEvent pressend pt (createEvent target (PointerEvent.base eOut))] /\
  (forall ev, PressEvent.type ev = press ->
              ~ In (CallbackCalled ev) (trace r1)) /\
  (shouldCancelOnPointerExit cfg = false ->
   forall cfg', isDisabled cfg' = false ->
   dispatched (trace (step pf cfg' (DocumentPointermove eIn) (final r1)))
   = [newPressEvent pressstart pt (createEvent target (PointerEvent.base eIn))]) /\
  (shouldCancelOnPointerExit cfg = false ->
   forall moves,
     Forall (fun m => staysAway target id (snd m)) moves ->
     let r2 := run pf (pointermoves moves) (final r1) in
     trace r2 = [] /\
     final r2 = final r1 /\
     forall cfg', isDisabled cfg' = false ->
     dispatched (trace (step pf cfg' (DocumentPointermove eIn) (final r2)))
     = [newPressEvent pressstart pt
          (createEvent target (PointerEvent.base eIn))]) /\
  (shouldCancelOnPointerExit cfg = true ->
   PressState.activePointerId (state (final r1)) = None /\
   PressState.isPressed (state (final r1)) = false /\
   globalListeners (final r1) = [] /\
   (forall moves, trace (run pf (pointermoves moves) (final r1)) = []) /\
   (forall cfg' e', trace (PointerHandlers.onPointerMove cfg' e' (final r1)) = [])).
Proof.
  destruct Hpress as (Hn & Hp & Ht & Ha & Ho & Hpt & Hf & Hreg).
  destruct eng as [st store ls nd]. cbn in Hn, Hp, Ht, Ha, Ho, Hpt, Hf, Hreg.
  destruct st as [pressed iem icap fired trig apid tgt over ptype mke].
  cbn in Hp, Ht, Ha, Ho, Hpt, Hf. subst.
  cbv zeta.
  match goal with
  | |- context [step pf cfg (DocumentPointermove eOut) ?e] =>
      set (pressed := e)
  end.
  assert (Hre : shouldCancelOnPointerExit cfg = false ->
    forall cfg', isDisabled cfg' = false ->
    dispatched
      (trace (step pf cfg' (DocumentPointermove eIn)
                (final (step pf cfg (DocumentPointermove eOut) pressed))))
    = [newPressEvent pressstart pt
         (createEvent target (PointerEvent.base eIn))]).
  { intros Hc cfg' Hd. subst pressed. exit_step Hreg Hout. rewrite Hc.
    eval_engine
      ltac:(first [ rewrite Hreg | rewrite HidIn | rewrite Z.eqb_refl
                  | rewrite Hin | rewrite Hd ]);
      reflexivity. }
  split; [|split; [|split; [exact Hre|split]]].
  - subst pressed. exit_step Hreg Hout. eval_engine fail; reflexivity.
  - intros ev Hty. subst pressed. exit_step Hreg Hout.
    eval_engine fail;
      intros Hin'; repeat (destruct Hin' as [Hx | Hin']; [try discriminate Hx|]);
      try exact Hin';
      injection Hx as <-; discriminate Hty.
  - intros Hc moves Hall.
    rewrite (pointermoves_away pf moves _ target (PointerEvent.pointerId eOut)).
    + split; [reflexivity|]. split; [reflexivity|]. exact (Hre Hc).
    + subst pressed. exit_step Hreg Hout. rewrite Hc.
      eval_engine fail; reflexivity.
    + subst pressed. exit_step Hreg Hout. rewrite Hc.
      eval_engine fail; reflexivity.
    + subst pressed. exit_step Hreg Hout. rewrite Hc.
      eval_engine fail; reflexivity.
    + exact Hall.
  - subst pressed. exit_step Hreg Hout. intros Hc. rewrite Hc.
    assert (Hls : forall r : unit * Engine * list Effect,
              globalListeners (final r) = [] ->
              PressState.activePointerId (state (final r)) = None ->
              PressState.isPressed (state (final r)) = false ->
              PressState.activePointerId (state (final r)) = None /\
              PressState.isPressed (state (final r)) = false /\
              globalListeners (final r) = [] /\
              (forall moves, trace (run pf (pointermoves moves) (final r)) = []) /\
              (forall cfg' e',
                 trace (PointerHandlers.onPointerMove cfg' e' (final r)) = [])).
    { intros r Hl Hap Hip. repeat split; auto.
      - intros moves. rewrite pointermoves_unregistered by exact Hl. reflexivity.
      - intros cfg' e'.
        rewrite onPointerMove_no_active_pointer by exact Hap. reflexivity. }
    apply Hls; eval_engine fail; reflexivity.
Qed.

(** The sample button just after a pointerdown of pointer 1 inside it.  The
    pointer moves to (50, 50), outside; then on to (60, 60) while pointer 2
    moves inside; then back to (5, 5).  Under shouldCancelOnPointerExit the
    same exit ends the interaction. *)
Lemma pointer_exit_and_reentry_witness :
  let eng := final (step (macBrowser false) defaultConfig
                      (Pointerdown (pointerEvent 1 5 5 sampleButton))
                      boundButton) in
  let eOut := documentPointerEvent 1 50 50 sampleButton in
  let eIn := documentPointerEvent 1 5 5 sampleButton in
  let away := [(defaultConfig, documentPointerEvent 1 60 60 sampleButton);
               (withCancelOnExit true defaultConfig,
                documentPointerEvent 2 5 5 sampleButton)] in
  pointerPressActive eng sampleButton sampleButton 1 mouse /\
  Forall (fun m => staysAway sampleButton 1 (snd m)) away /\
  (let r1 := step (macBrowser false) defaultConfig
               (DocumentPointermove eOut) eng in
   let r2 := run (macBrowser false) (pointermoves away) (final r1) in
   dispatched (trace r1)
   = [newPressEvent pressend mouse
        (createEvent sampleButton (PointerEvent.base eOut))] /\
   trace r2 = [] /\
   dispatched (trace (step (macBrowser false) defaultConfig
                        (DocumentPointermove eIn) (final r2)))
   = [newPressEvent pressstart mouse
        (createEvent sampleButton (PointerEvent.base eIn))]) /\
  (let r1 := step (macBrowser false) (withCancelOnExit true defaultConfig)
               (DocumentPointermove eOut) eng in
   dispatched (trace r1)
   = [newPressEvent pressend mouse
        (createEvent sampleButton (PointerEvent.base eOut))] /\
   PressState.activePointerId (state (final r1)) = None /\
   trace (run (macBrowser false)
            (pointermoves [(defaultConfig, eIn)]) (final r1)) = []).
Proof.
  cbv zeta.
  assert (H : pointerPressActive
                (final (step (macBrowser false) defaultConfig
                          (Pointerdown (pointerEvent 1 5 5 sampleButton))
                          boundButton))
                sampleButton sampleButton 1 mouse).
  { repeat split. }
  assert (Haway : Forall (fun m => staysAway sampleButton 1 (snd m))
                    [(defaultConfig, documentPointerEvent 1 60 60 sampleButton);
                     (withCancelOnExit true defaultConfig,
                      documentPointerEvent 2 5 5 sampleButton)]).
  { constructor; [right; reflexivity|].
    constructor; [left; cbn; discriminate | constructor]. }
  split; [exact H|]. split; [exact Haway|]. split.
  - pose proof (pointer_exit_and_reentry (macBrowser false) defaultConfig _
                  sampleButton sampleButton 1 mouse
                  (documentPointerEvent 1 50 50 sampleButton)
                  (documentPointerEvent 1 5 5 sampleButton)
                  H eq_refl eq_refl eq_refl eq_refl) as (H1 & _ & _ & H3 & _).
    split; [exact H1|].
    destruct (H3 eq_refl _ Haway) as (Ht & _ & Hs).
    split; [exact Ht | exact (Hs defaultConfig eq_refl)].
  - pose proof (pointer_exit_and_reentry (macBrowser false)
                  (withCancelOnExit true defaultConfig) _ sampleButton
                  sampleButton 1 mouse
                  (documentPointerEvent 1 50 50 sampleButton)
                  (documentPointerEvent 1 5 5 sampleButton)
                  H eq_refl eq_refl eq_refl eq_refl) as (H1 & _ & _ & _ & H3).
    split; [exact H1|].
    destruct (H3 eq_refl) as (Ha & _ & _ & Hm & _).
    split; [exact Ha
           | exact (Hm [(defaultConfig, documentPointerEvent 1 5 5 sampleButton)])].
Defined.

(* ------------------------------------------------------------------ *)
(** ** Whole-press scenarios *)

(** Touch fallback: touchstart inside the target, touchend of the same
    touch still over it. *)
Example touch_press_lifecycle :
  emittedTypes
    (trace (run legacyBrowser
              [(defaultConfig, Touchstart (touchEvent 7 5 5 sampleButton));
               (defaultConfig, Touchend (touchEvent 7 5 5 sampleButton))]
              boundButton))
  = [pressstart; pressup; pressend; press].
Proof. reflexivity. Qed.

(** Keyboard: Enter down then up on a button; the keyup reaches the element
    and then the document. *)
Example keyboard_press_lifecycle :
  emittedTypes
    (trace (run (macBrowser false)
              [(defaultConfig, Keydown (keyEvent "Enter" "Enter" sampleButton));
               (defaultConfig, Keyup (keyEvent "Enter" "Enter" sampleButton));
               (defaultConfig, DocumentKeyup (keyEvent "Enter" "Enter" sampleButton))]
              boundButton))
  = [pressstart; pressup; pressend; press].
Proof. reflexivity. Qed.

(** Pointer: down inside, move out, move back in, up inside. *)
Example pointer_press_lifecycle :
  emittedTypes
    (trace (run (macBrowser false)
              [(defaultConfig, Pointerdown (pointerEvent 1 5 5 sampleButton));
               (defaultConfig,
                DocumentPointermove (documentPointerEvent 1 50 50 sampleButton));
               (defaultConfig,
                DocumentPointermove (documentPointerEvent 1 5 5 sampleButton));
               (defaultConfig, Pointerup (pointerEvent 1 5 5 sampleButton));
               (defaultConfig,
                DocumentPointerup (documentPointerEvent 1 5 5 sampleButton))]
              boundButton))
  = [pressstart; pressend; pressstart; pressup; pressend; press].
Proof. reflexivity. Qed.

(* ================================================================== *)
(** * Further properties of the engine *)

(* ------------------------------------------------------------------ *)
(** ** The emitted events follow the press lifecycle *)

Lemma lifecycle_app p l1 l2 :
  lifecycle p (l1 ++ l2) =
  match lifecycle p l1 with
  | Some q => lifecycle q l2
  | None => None
  end.
Proof.
  revert p. induction l1 as [|ty l1 IH]; intros p; cbn; [reflexivity|].
  destruct (advance p ty); [apply IH | reflexivity].
Qed.

(** Having just ended allows whatever being idle allows. *)
Lemma lifecycle_Ended l p :
  lifecycle Idle l = Some p ->
  exists p', lifecycle Ended l = Some p' /\ pendingIn p' = pendingIn p.
Proof.
  destruct l as [|ty l]; cbn.
  - intros [= <-]. exists Ended. split; reflexivity.
  - destruct ty; cbn; try discriminate; intros H; exists p; split;
      auto.
Qed.

Lemma emittedTypes_app t1 t2 :
  emittedTypes (t1 ++ t2) = (emittedTypes t1 ++ emittedTypes t2)%list.
Proof. unfold emittedTypes. rewrite dispatched_app, map_app. reflexivity. Qed.

#[export] Instance Rlifecycle_composable : Composable Rlifecycle.
Proof.
  split.
  - intros eng node Hn. split; [exact Hn|].
    exists (phaseOf (PressState.didFirePressStart (state eng))).
    split; [reflexivity|].
    destruct (PressState.didFirePressStart (state eng)); reflexivity.
  - intros e1 t1 e2 t2 e3 H1 H2 node Hn.
    destruct (H1 node Hn) as (Hn2 & p2 & L1 & P2).
    destruct (H2 node Hn2) as (Hn3 & p3 & L2 & P3).
    split; [exact Hn3|].
    rewrite emittedTypes_app, lifecycle_app, L1.
    rewrite <- P2 in L2.
    destruct p2; cbn in L2.
    + exists p3. auto.
    + exists p3. auto.
    + destruct (lifecycle_Ended _ _ L2) as (p' & L' & P').
      exists p'. split; [exact L' | congruence].
Qed.

Lemma Rlifecycle_unchanged (eng eng' : Engine) (tr : list Effect) :
  dispatched tr = [] ->
  nodeEl eng' = nodeEl eng ->
  PressState.didFirePressStart (state eng')
  = PressState.didFirePressStart (state eng) ->
  Rlifecycle eng tr eng'.
Proof.
  intros Hd Hn Hf node Hb. split; [congruence|].
  unfold emittedTypes. rewrite Hd, Hf. cbn.
  exists (phaseOf (PressState.didFirePressStart (state eng))).
  split; [reflexivity|].
  destruct (PressState.didFirePressStart (state eng)); reflexivity.
Qed.

Lemma Rlifecycle_emit (e : Effect) :
  match e with Dispatched _ _ => False | _ => True end ->
  respects Rlifecycle (emit e).
Proof.
  intros He eng. apply Rlifecycle_unchanged; try reflexivity.
  destruct e; try contradiction; reflexivity.
Qed.

Lemma Rlifecycle_update (f : PressState.t -> PressState.t) :
  (forall s, PressState.didFirePressStart (f s) = PressState.didFirePressStart s) ->
  respects Rlifecycle (update f).
Proof. intros Hf eng. apply Rlifecycle_unchanged; cbn; auto. Qed.

Lemma Rlifecycle_addGlobalListener h :
  respects Rlifecycle (addGlobalListener h).
Proof. intros eng. apply Rlifecycle_unchanged; reflexivity. Qed.

Lemma Rlifecycle_removeAllGlobalListeners :
  respects Rlifecycle removeAllGlobalListeners.
Proof. intros eng. apply Rlifecycle_unchanged; reflexivity. Qed.

Lemma Rlifecycle_triggerPressStart cfg e pt :
  respects Rlifecycle (triggerPressStart cfg e pt).
Proof.
  intros eng.
  destruct (isDisabled cfg || PressState.didFirePressStart (state eng)) eqn:G.
  - apply Rlifecycle_unchanged;
      unfold triggerPressStart; run_monad; rewrite G; cbn; reflexivity.
  - apply orb_false_iff in G. destruct G as [Hd Hp]. intros node Hn.
    unfold triggerPressStart. run_monad. rewrite Hd, Hp. cbn.
    destruct (onPressStart cfg), (onPressChange cfg); cbn; rewrite ?Hn; cbn;
      (split; [first [exact Hn | reflexivity]|]);
      exists Pending; split; reflexivity.
Qed.

Lemma Rlifecycle_triggerPressEnd cfg e pt w :
  respects Rlifecycle (triggerPressEnd cfg e pt w).
Proof.
  intros eng.
  destruct (PressState.didFirePressStart (state eng)) eqn:Hp.
  - intros node Hn. unfold triggerPressEnd. run_monad. rewrite Hp. cbn.
    destruct (onPressEnd cfg), (onPressChange cfg), (onPress cfg), w,
      (isDisabled cfg); cbn; rewrite ?Hn; cbn; rewrite ?Hn; cbn;
      (split; [first [exact Hn | reflexivity]|]);
      first [ exists Idle; split; reflexivity
            | exists Ended; split; reflexivity ].
  - apply Rlifecycle_unchanged;
      unfold triggerPressEnd; run_monad; rewrite ?Hp; cbn; rewrite ?Hp;
      reflexivity.
Qed.

Lemma Rlifecycle_triggerPressUp cfg e pt :
  respects Rlifecycle (triggerPressUp cfg e pt).
Proof.
  intros eng node Hn. unfold triggerPressUp. run_monad.
  destruct (isDisabled cfg); cbn.
  - split; [exact Hn|].
    exists (phaseOf (PressState.didFirePressStart (state eng))).
    split; [reflexivity|].
    destruct (PressState.didFirePressStart (state eng)); reflexivity.
  - destruct (onPressUp cfg); cbn; rewrite ?Hn; cbn;
      (split; [first [exact Hn | reflexivity]|]);
      exists (phaseOf (PressState.didFirePressStart (state eng)));
      destruct (PressState.didFirePressStart (state eng)); split; reflexivity.
Qed.

Ltac lifecycle_prim :=
  first
    [ apply Rlifecycle_triggerPressStart
    | apply Rlifecycle_triggerPressEnd
    | apply Rlifecycle_triggerPressUp
    | apply Rlifecycle_addGlobalListener
    | apply Rlifecycle_removeAllGlobalListeners
    | apply Rlifecycle_emit; exact I
    | apply Rlifecycle_update; intros ?; reflexivity ].

Lemma Rlifecycle_listeners pf cfg i : respects Rlifecycle (listeners pf cfg i).
Proof.
  destruct i; unfold_listener;
    unfold cancelOnPointerExit, cancel, endOnRelease;
    respects_auto lifecycle_prim.
Qed.

Lemma occurrences_countType ty tr :
  countType ty tr = occurrences ty (emittedTypes tr).
Proof.
  unfold countType, occurrences, emittedTypes.
  induction (dispatched tr) as [|e l IH]; [reflexivity|]. cbn.
  destruct (PressEvent.type e), ty; cbn; rewrite ?IH; reflexivity.
Qed.

Lemma lifecycle_counts l : forall p q,
  lifecycle p l = Some q ->
  (occurrences pressstart l + phaseWeight p
   = occurrences pressend l + phaseWeight q)%nat /\
  (occurrences press l + endedWeight q
   <= occurrences pressend l + endedWeight p)%nat.
Proof.
  induction l as [|ty l IH]; intros p q; cbn [lifecycle].
  - intros [= <-]. cbn. lia.
  - destruct (advance p ty) as [p'|] eqn:A; [|discriminate].
    intros H. destruct (IH _ _ H) as [H1 H2].
    destruct ty, p; cbn in A; inversion A; subst; clear A;
      unfold occurrences in *; cbn in *; lia.
Qed.

(** X1. Over the whole life of a bound engine the press events reaching the
    host follow the lifecycle: pressstart and pressend alternate, starting
    with pressstart, and a press only ever comes immediately after a
    pressend.  The run ends with a start pending exactly when
    didFirePressStart is set.  In numbers: pressend never outruns
    pressstart, pressstart is at most one ahead, and there are no more press
    than pressend events. *)
Theorem press_events_follow_lifecycle (pf : Platform) (node : Element)
    (inputs : list (PressConfig * Input)) :
  let r := run pf inputs (pressAction node createPress) in
  (exists p,
     lifecycle Idle (emittedTypes (trace r)) = Some p /\
     pendingIn p = PressState.didFirePressStart (state (final r))) /\
  (countType pressend (trace r) <= countType pressstart (trace r))%nat /\
  (countType pressstart (trace r) <= countType pressend (trace r) + 1)%nat /\
  (countType press (trace r) <= countType pressend (trace r))%nat.
Proof.
  intros r.
  assert (Hr : respects Rlifecycle (run pf inputs)).
  { apply respects_run; [exact _|]. apply Forall_forall. intros [cfg i] _.
    apply Rlifecycle_listeners. }
  destruct (Hr (pressAction node createPress) node eq_refl) as (_ & p & L & P).
  cbn in L. fold r in L, P.
  split; [exists p; split; assumption|].
  destruct (lifecycle_counts _ _ _ L) as [H1 H2].
  rewrite !occurrences_countType.
  destruct p; cbn in H1, H2; lia.
Qed.

(* ------------------------------------------------------------------ *)
(** ** What the configuration switches off *)

#[export] Instance Rsilent_composable : Composable Rsilent.
Proof.
  split.
  - intros eng H. split; [constructor | exact H].
  - intros e1 t1 e2 t2 e3 H1 H2 H.
    destruct (H1 H) as [F1 P2]. destruct (H2 P2) as [F2 P3].
    split; [apply Forall_app; split; assumption | exact P3].
Qed.

#[export] Instance Ronly_composable ok : Composable (Ronly ok).
Proof.
  split.
  - intros eng. constructor.
  - intros e1 t1 e2 t2 e3 H1 H2. apply Forall_app. split; assumption.
Qed.

Section Disabled.

Context (cfg : PressConfig) (Hdisabled : isDisabled cfg = true).

Lemma Rsilent_triggerPressStart e pt : respects Rsilent (triggerPressStart cfg e pt).
Proof.
  intros eng H.
  destruct (triggerPressStart_disabled cfg e pt eng Hdisabled) as (Ht & _ & Hf).
  rewrite Ht, Hf. split; [constructor | exact H].
Qed.

Lemma Rsilent_triggerPressUp e pt : respects Rsilent (triggerPressUp cfg e pt).
Proof.
  intros eng H.
  destruct (triggerPressUp_disabled cfg e pt eng Hdisabled) as (Ht & _ & Hf).
  rewrite Ht, Hf. split; [constructor | exact H].
Qed.

End Disabled.

Lemma Rsilent_triggerPressEnd cfg e pt w :
  respects Rsilent (triggerPressEnd cfg e pt w).
Proof.
  intros eng H.
  destruct (triggerPressEnd_not_pending cfg e pt w eng H) as (Ht & _ & Hf).
  rewrite Ht, Hf. split; [constructor | exact H].
Qed.

Lemma Rsilent_emit (e : Effect) : noPressEffect e -> respects Rsilent (emit e).
Proof. intros He eng H. split; [repeat constructor; exact He | exact H]. Qed.

Lemma Rsilent_update (f : PressState.t -> PressState.t) :
  (forall s, PressState.didFirePressStart (f s) = PressState.didFirePressStart s) ->
  respects Rsilent (update f).
Proof. intros Hf eng H. split; [constructor | cbn; rewrite Hf; exact H]. Qed.

Lemma Rsilent_addGlobalListener h : respects Rsilent (addGlobalListener h).
Proof. intros eng H. split; [repeat constructor | exact H]. Qed.

Lemma Rsilent_removeAllGlobalListeners :
  respects Rsilent removeAllGlobalListeners.
Proof. intros eng H. split; [repeat constructor | exact H]. Qed.

Lemma Rsilent_listeners pf cfg i :
  isDisabled cfg = true -> respects Rsilent (listeners pf cfg i).
Proof.
  intros Hd.
  destruct i; unfold_listener;
    unfold cancelOnPointerExit, cancel, endOnRelease;
    respects_auto
      ltac:(first
              [ apply Rsilent_triggerPressStart; exact Hd
              | apply Rsilent_triggerPressUp; exact Hd
              | apply Rsilent_triggerPressEnd
              | apply Rsilent_addGlobalListener
              | apply Rsilent_removeAllGlobalListeners
              | apply Rsilent_emit; exact I
              | apply Rsilent_update; intros ?; reflexivity ]).
Qed.

(** X2. An engine that is disabled throughout never shows the consumer
    anything: over any run from the freshly bound state no callback is
    invoked, no press event is dispatched, and the public isPressed store
    stays false. *)
Theorem disabled_engine_is_silent (pf : Platform) (node : Element)
    (inputs : list (PressConfig * Input))
    (Hdisabled : Forall (fun ci => isDisabled (fst ci) = true) inputs) :
  let r := run pf inputs (pressAction node createPress) in
  Forall noPressEffect (trace r) /\
  dispatched (trace r) = [] /\
  isPressedStore (final r) = false.
Proof.
  intros r.
  assert (Hr : respects Rsilent (run pf inputs)).
  { apply respects_run; [exact _|].
    eapply Forall_impl; [|exact Hdisabled].
    intros [cfg i] Hd. apply Rsilent_listeners. exact Hd. }
  destruct (Hr (pressAction node createPress) eq_refl) as [Hs Hf].
  fold r in Hs, Hf.
  assert (Hd : dispatched (trace r) = []).
  { clear -Hs. induction Hs as [|x l Hx _ IH]; [reflexivity|].
    destruct x; cbn in *; try contradiction; exact IH. }
  split; [exact Hs|]. split; [exact Hd|].
  pose proof (Rsync_inSync _ _ _ node
                (Rsync_run pf inputs (pressAction node createPress))
                eq_refl eq_refl) as Hi.
  unfold inSync in Hi. fold r in Hi. congruence.
Qed.

(** A disabled button pressed with the pointer and then with Enter. *)
Lemma disabled_engine_is_silent_witness :
  Forall (fun ci => isDisabled (fst ci) = true)
    [(withDisabled true defaultConfig,
      Pointerdown (pointerEvent 1 5 5 sampleButton));
     (withDisabled true defaultConfig,
      DocumentPointerup (documentPointerEvent 1 5 5 sampleButton));
     (withDisabled true defaultConfig,
      Keydown (keyEvent "Enter" "Enter" sampleButton))] /\
  dispatched
    (trace (run (macBrowser false)
              [(withDisabled true defaultConfig,
                Pointerdown (pointerEvent 1 5 5 sampleButton));
               (withDisabled true defaultConfig,
                DocumentPointerup (documentPointerEvent 1 5 5 sampleButton));
               (withDisabled true defaultConfig,
                Keydown (keyEvent "Enter" "Enter" sampleButton))]
              boundButton)) = [].
Proof.
  assert (H : Forall (fun ci => isDisabled (fst ci) = true)
    [(withDisabled true defaultConfig,
      Pointerdown (pointerEvent 1 5 5 sampleButton));
     (withDisabled true defaultConfig,
      DocumentPointerup (documentPointerEvent 1 5 5 sampleButton));
     (withDisabled true defaultConfig,
      Keydown (keyEvent "Enter" "Enter" sampleButton))]).
  { repeat constructor. }
  split; [exact H|].
  exact (proj1 (proj2 (disabled_engine_is_silent (macBrowser false)
                         sampleButton _ H))).
Defined.

(** What a trigger puts in the trace. *)
Lemma triggerPressStart_effects cfg e pt eng :
  Forall (fromTrigger pt) (trace (triggerPressStart cfg e pt eng)).
Proof.
  unfold triggerPressStart. run_monad. split_matches;
    repeat constructor.
Qed.

Lemma triggerPressEnd_effects cfg e pt w eng :
  Forall (fromTrigger pt) (trace (triggerPressEnd cfg e pt w eng)).
Proof.
  unfold triggerPressEnd. run_monad. split_matches;
    repeat constructor.
Qed.

Lemma triggerPressUp_effects cfg e pt eng :
  Forall (fromTrigger pt) (trace (triggerPressUp cfg e pt eng)).
Proof.
  unfold triggerPressUp. run_monad. split_matches;
    repeat constructor.
Qed.

Section Only.

Context (ok : Effect -> Prop).

Lemma Ronly_emit (e : Effect) : ok e -> respects (Ronly ok) (emit e).
Proof. intros He eng. repeat constructor. exact He. Qed.

Lemma Ronly_update (f : PressState.t -> PressState.t) :
  respects (Ronly ok) (update f).
Proof. intros eng. constructor. Qed.

Lemma Ronly_addGlobalListener h :
  ok (AddGlobalListener h) -> respects (Ronly ok) (addGlobalListener h).
Proof. intros H eng. repeat constructor. exact H. Qed.

Lemma Ronly_removeAllGlobalListeners :
  ok RemoveAllGlobalListeners -> respects (Ronly ok) removeAllGlobalListeners.
Proof. intros H eng. repeat constructor. exact H. Qed.

Lemma Ronly_triggerPressStart cfg e pt :
  (forall x, fromTrigger pt x -> ok x) ->
  respects (Ronly ok) (triggerPressStart cfg e pt).
Proof.
  intros H eng. eapply Forall_impl; [exact H | apply triggerPressStart_effects].
Qed.

Lemma Ronly_triggerPressEnd cfg e pt w :
  (forall x, fromTrigger pt x -> ok x) ->
  respects (Ronly ok) (triggerPressEnd cfg e pt w).
Proof.
  intros H eng. eapply Forall_impl; [exact H | apply triggerPressEnd_effects].
Qed.

Lemma Ronly_triggerPressUp cfg e pt :
  (forall x, fromTrigger pt x -> ok x) ->
  respects (Ronly ok) (triggerPressUp cfg e pt).
Proof.
  intros H eng. eapply Forall_impl; [exact H | apply triggerPressUp_effects].
Qed.

End Only.

(** Closes the primitives for [Ronly ok]; [side] proves [ok] of an effect
    given as a constructor, or of whatever a trigger emits. *)
Ltac only_prim side :=
  first
    [ apply Ronly_triggerPressStart; intros []; side
    | apply Ronly_triggerPressEnd; intros []; side
    | apply Ronly_triggerPressUp; intros []; side
    | apply Ronly_addGlobalListener; side
    | apply Ronly_removeAllGlobalListeners; side
    | apply Ronly_update
    | apply Ronly_emit; side ].

Ltac trivial_side := cbn; intros; first [exact I | assumption | contradiction].

Lemma Ronly_keyboard_listeners pf cfg i :
  isKeyboardInput i = true ->
  respects (Ronly (dispatchesAs keyboard)) (listeners pf cfg i).
Proof.
  destruct i; intros Hk; try discriminate Hk; unfold_listener;
    respects_auto ltac:(only_prim trivial_side).
Qed.

Lemma Ronly_click_listeners pf cfg i :
  isClickInput i = true ->
  respects (Ronly (dispatchesAs virtual)) (listeners pf cfg i).
Proof.
  destruct i; intros Hk; try discriminate Hk; unfold_listener;
    respects_auto ltac:(only_prim trivial_side).
Qed.

(** X3. Whatever the state, the press events the keyboard listeners emit
    (keydown, keyup on the element, keyup on the document) all carry
    pointerType 'keyboard', and those the click listener emits all carry
    pointerType 'virtual': these paths never use the pointer type recorded
    in the state. *)
Theorem keyboard_and_click_pointer_types (pf : Platform) (cfg : PressConfig)
    (eng : Engine) :
  (forall e, Forall (dispatchesAs keyboard) (trace (step pf cfg (Keydown e) eng))) /\
  (forall e, Forall (dispatchesAs keyboard) (trace (step pf cfg (Keyup e) eng))) /\
  (forall e, Forall (dispatchesAs keyboard)
               (trace (step pf cfg (DocumentKeyup e) eng))) /\
  (forall isOpening e,
     Forall (dispatchesAs virtual) (trace (step pf cfg (Click isOpening e) eng))).
Proof.
  repeat split; intros.
  - exact (respects_step _ pf cfg _
             (Ronly_keyboard_listeners pf cfg (Keydown e) eq_refl) eng).
  - exact (respects_step _ pf cfg _
             (Ronly_keyboard_listeners pf cfg (Keyup e) eq_refl) eng).
  - exact (respects_step _ pf cfg _
             (Ronly_keyboard_listeners pf cfg (DocumentKeyup e) eq_refl) eng).
  - exact (respects_step _ pf cfg _
             (Ronly_click_listeners pf cfg (Click isOpening e) eq_refl) eng).
Qed.

Lemma Ronly_noTextSelection_listeners pf cfg i :
  allowTextSelectionOnPress cfg = true ->
  respects (Ronly noTextSelection) (listeners pf cfg i).
Proof.
  intros Ha.
  destruct i; unfold_listener;
    unfold cancelOnPointerExit, cancel, endOnRelease;
    rewrite ?Ha; cbn [negb when];
    respects_auto ltac:(only_prim trivial_side).
Qed.

(** X4. With allowTextSelectionOnPress set throughout, the engine never
    touches text selection: no run, from any state, disables or restores
    it. *)
Theorem text_selection_untouched_when_allowed (pf : Platform) (eng : Engine)
    (inputs : list (PressConfig * Input))
    (Hallow : Forall (fun ci => allowTextSelectionOnPress (fst ci) = true)
                inputs) :
  Forall noTextSelection (trace (run pf inputs eng)).
Proof.
  refine (respects_run (Ronly noTextSelection) pf inputs _ eng).
  eapply Forall_impl; [|exact Hallow].
  intros [cfg i] Ha. apply Ronly_noTextSelection_listeners. exact Ha.
Qed.

Lemma focused_app t1 t2 :
  focused (t1 ++ t2) = (focused t1 ++ focused t2)%list.
Proof.
  induction t1 as [|x t1 IH]; [reflexivity|].
  destruct x; cbn; rewrite ?IH; reflexivity.
Qed.

Lemma linksOpened_app t1 t2 :
  linksOpened (t1 ++ t2) = (linksOpened t1 ++ linksOpened t2)%list.
Proof.
  induction t1 as [|x t1 IH]; [reflexivity|].
  destruct x; cbn; rewrite ?IH; reflexivity.
Qed.

#[export] Instance Rfocus_composable : Composable Rfocus.
Proof.
  split.
  - intros eng. reflexivity.
  - intros e1 t1 e2 t2 e3 H1 H2. unfold Rfocus in *.
    rewrite focused_app, linksOpened_app, H1, H2. reflexivity.
Qed.

Lemma Rfocus_of_trigger pt tr eng eng' :
  Forall (fromTrigger pt) tr -> Rfocus eng tr eng'.
Proof.
  unfold Rfocus. induction 1 as [|x l Hx _ IH]; [reflexivity|].
  destruct x; cbn in *; try contradiction; exact IH.
Qed.

Lemma Rfocus_emit x :
  match x with Focus _ | OpenLink _ => False | _ => True end ->
  respects Rfocus (emit x).
Proof. intros H eng. destruct x; try contradiction; reflexivity. Qed.

Lemma Rfocus_openLink pf cfg target modifiers :
  respects Rfocus (openLink pf cfg target modifiers false).
Proof. intros eng. rewrite openLink_effects. reflexivity. Qed.

Ltac focus_prim :=
  first
    [ apply Rfocus_openLink
    | intros ?; eapply Rfocus_of_trigger;
      first [ apply triggerPressStart_effects | apply triggerPressEnd_effects
            | apply triggerPressUp_effects ]
    | apply Rfocus_emit; exact I
    | intros ?; reflexivity ].

Lemma Rfocus_listeners pf cfg i :
  preventFocusOnPress cfg = true \/ isDisabled cfg = true ->
  respects Rfocus (listeners pf cfg i).
Proof.
  intros Hp.
  assert (Hf : negb (isDisabled cfg) && negb (preventFocusOnPress cfg) = false).
  { destruct Hp as [-> | ->]; cbn; [apply andb_false_r | reflexivity]. }
  destruct i; unfold_listener;
    unfold cancelOnPointerExit, cancel, endOnRelease;
    rewrite ?Hf; cbn [when];
    respects_auto focus_prim.
Qed.

(** X5. While preventFocusOnPress is set or the engine is disabled, the
    press handlers themselves never move focus: over any run from any
    state, the elements focus is moved to are exactly the anchors the
    engine opens the link of, one focus move per link opened and in that
    order (openLink focuses the anchor whatever the configuration).  In
    particular a run that opens no link moves no focus. *)
Theorem focus_never_moved_when_prevented (pf : Platform) (eng : Engine)
    (inputs : list (PressConfig * Input))
    (Hprevent : Forall (fun ci => preventFocusOnPress (fst ci) = true \/
                                  isDisabled (fst ci) = true) inputs) :
  focused (trace (run pf inputs eng)) = linksOpened (trace (run pf inputs eng)).
Proof.
  refine (respects_run Rfocus pf inputs _ eng).
  eapply Forall_impl; [|exact Hprevent].
  intros [cfg i] Ha. apply Rfocus_listeners. exact Ha.
Qed.

(* ------------------------------------------------------------------ *)
(** ** What the handlers do, case by case *)

(** X6. cancel does nothing unless a press is in progress on a target.
    Otherwise it clears isPressed, isOverTarget, the active pointer and the
    pointer type and removes every document listener, keeping the target;
    towards the host it emits at most a pressend, never a pressstart, a
    pressup or a press.  Cancelling twice is cancelling once. *)
Theorem cancel_clears_and_is_idempotent (cfg cfg' : PressConfig)
    (e e' : EventBase) (eng : Engine) :
  let r := cancel cfg e eng in
  (PressState.isPressed (state eng) = false \/
   PressState.target (state eng) = None -> r = (tt, eng, [])) /\
  (PressState.isPressed (state eng) = true ->
   PressState.target (state eng) <> None ->
   PressState.isPressed (state (final r)) = false /\
   PressState.isOverTarget (state (final r)) = false /\
   PressState.activePointerId (state (final r)) = None /\
   PressState.pointerType (state (final r)) = None /\
   PressState.target (state (final r)) = PressState.target (state eng) /\
   globalListeners (final r) = []) /\
  countType pressstart (trace r) = 0%nat /\
  countType pressup (trace r) = 0%nat /\
  countType press (trace r) = 0%nat /\
  (countType pressend (trace r) <= 1)%nat /\
  cancel cfg' e' (final r) = (tt, final r, []).
Proof.
  cbv zeta. open_engine eng.
  split; [|split; [|split; [|split; [|split; [|split]]]]].
  - intros [H|H]; subst; unfold_engine; eval_engine fail; reflexivity.
  - intros H Ht; subst. destruct sTarget as [t|]; [|contradiction].
    unfold_engine; eval_engine fail; repeat split.
  - unfold_engine; eval_engine fail; reflexivity.
  - unfold_engine; eval_engine fail; reflexivity.
  - unfold_engine; eval_engine fail; reflexivity.
  - unfold_engine; eval_engine fail; cbn; lia.
  - unfold_engine; eval_engine fail; reflexivity.
Qed.

(** X7. Releasing an activation key while a keyboard press is pending: the
    document keyup listener emits pressend, and a press only if the keyup's
    target is still inside the pressed element and the engine is enabled;
    all carry pointerType 'keyboard' and the pressed element as target.
    The press is over: isPressed and didFirePressStart are cleared, the
    public store is false and every document listener is removed. *)
Theorem keyup_ends_keyboard_press (pf : Platform) (cfg : PressConfig)
    (e : KeyboardEvent.t) (eng : Engine) (node target : Element)
    (Hbound : nodeEl eng = Some node)
    (Hpressed : PressState.isPressed (state eng) = true)
    (Htarget : PressState.target (state eng) = Some target)
    (Hpending : PressState.didFirePressStart (state eng) = true)
    (Hvalid : isValidKeyboardEvent e target = true) :
  let r := onKeyUp pf cfg e eng in
  let origin := createEvent target (KeyboardEvent.base e) in
  dispatched (trace r)
  = newPressEvent pressend keyboard origin ::
    (if contains target (KeyboardEvent.target e) && negb (isDisabled cfg)
     then [newPressEvent press keyboard origin] else []) /\
  PressState.isPressed (state (final r)) = false /\
  PressState.didFirePressStart (state (final r)) = false /\
  isPressedStore (final r) = false /\
  globalListeners (final r) = [].
Proof.
  cbv zeta. open_engine eng. subst.
  wpt_start_at (onKeyUp pf cfg e
                  (mkEngine
                     (PressState.mk true sIgnoreMouse sIgnoreClick true
                        sTriggering sActive (Some target) sOver sPointerType
                        sMeta) sStore sListeners (Some node))).
  unfold onKeyUp, onKeyUpAt, pressedValidTarget.
  wpt_go ltac:(rewrite Hvalid).
  wpt_done. split; [dispatched_simpl; reflexivity|]. repeat split.
Qed.

(** X8. Releasing the active pointer (button 0) during a pointer press.
    With a start pending, a release over the target emits pressend and then
    press (press only if the engine is enabled); a release outside it, the
    pointer still being flagged over the target, emits pressend alone; with
    no start pending nothing is emitted.  In every case the press state is
    cleared (isPressed, isOverTarget, active pointer, pointer type) and the
    document listeners are removed. *)
Theorem pointerup_ends_pointer_press (cfg : PressConfig) (e : PointerEvent.t)
    (eng : Engine) (node target : Element) (pt : PointerType)
    (Hbound : nodeEl eng = Some node)
    (Hpressed : PressState.isPressed (state eng) = true)
    (Htarget : PressState.target (state eng) = Some target)
    (Hactive : PressState.activePointerId (state eng)
               = Some (PointerEvent.pointerId e))
    (Hpt : PressState.pointerType (state eng) = Some pt)
    (Hbutton : PointerEvent.button e = 0%Z) :
  let r := PointerHandlers.onPointerUp cfg e eng in
  let origin := createEvent target (PointerEvent.base e) in
  let over := isOverTarget (PointerEvent.point e) target in
  dispatched (trace r)
  = (if PressState.didFirePressStart (state eng)
        && (over || PressState.isOverTarget (state eng))
     then newPressEvent pressend pt origin ::
          (if over && negb (isDisabled cfg)
           then [newPressEvent press pt origin] else [])
     else []) /\
  PressState.isPressed (state (final r)) = false /\
  PressState.isOverTarget (state (final r)) = false /\
  PressState.activePointerId (state (final r)) = None /\
  PressState.pointerType (state (final r)) = None /\
  globalListeners (final r) = [].
Proof.
  cbv zeta. open_engine eng. subst.
  destruct sFired, sOver,
    (isOverTarget (PointerEvent.point e) target) eqn:Ho,
    (isDisabled cfg) eqn:Hd;
    unfold_engine;
    eval_engine
      ltac:(first [ rewrite Hbutton | rewrite Z.eqb_refl | rewrite Ho
                  | rewrite Hd ]);
    repeat split.
Qed.

(** X9. Key repeat never restarts a press: a keydown that repeats, or that
    arrives while a press is in progress, emits no press event and invokes
    no callback, and leaves isPressed, the target, the pending-start flag,
    the public store and the document listeners as they were. *)
Theorem repeated_keydown_starts_nothing (pf : Platform) (cfg : PressConfig)
    (e : KeyboardEvent.t) (eng : Engine)
    (Hrepeat : KeyboardEvent.repeat e = true \/
               PressState.isPressed (state eng) = true) :
  let r := BaseHandlers.onKeyDown pf cfg e eng in
  Forall noPressEffect (trace r) /\
  PressState.isPressed (state (final r)) = PressState.isPressed (state eng) /\
  PressState.target (state (final r)) = PressState.target (state eng) /\
  PressState.didFirePressStart (state (final r))
  = PressState.didFirePressStart (state eng) /\
  isPressedStore (final r) = isPressedStore eng /\
  globalListeners (final r) = globalListeners eng.
Proof.
  cbv zeta. open_engine eng.
  assert (Hg : negb sPressed && negb (KeyboardEvent.repeat e) = false).
  { destruct Hrepeat as [-> | ->]; cbn;
      [apply andb_false_r | reflexivity]. }
  unfold_engine.
  eval_engine ltac:(rewrite Hg);
    repeat split; repeat constructor.
Qed.

(** X10. A second pointer during a pointer press is not tracked.  Its
    pointerdown (button 0, inside the element) emits no press event and
    leaves isPressed, the target, the active pointer, isOverTarget, the
    pending-start flag and the document listeners untouched; only the
    recorded pointer type is overwritten with the new pointer's.  Its
    pointermove and pointerup on the document change nothing at all. *)
Theorem second_pointer_is_not_tracked (pf : Platform) (cfg : PressConfig)
    (e : PointerEvent.t) (eng : Engine) (ct : Element)
    (Hpressed : PressState.isPressed (state eng) = true)
    (Hct : currentTarget (PointerEvent.base e) = Some ct)
    (Hinside : contains ct (PointerEvent.target e) = true)
    (Hbutton : PointerEvent.button e = 0%Z)
    (Hreal : isVirtualPointerEvent pf e = false)
    (Hother : optZ_eqb (PointerEvent.pointerId e)
                (PressState.activePointerId (state eng)) = false) :
  PointerHandlers.handlers.onPointerDown pf cfg e eng
  = (tt, withPointerType (Some (PointerEvent.pointerType e)) eng,
     [StopPropagation]) /\
  PointerHandlers.onPointerMove cfg e eng = (tt, eng, []) /\
  PointerHandlers.onPointerUp cfg e eng = (tt, eng, []).
Proof.
  open_engine eng. subst. unfold withPointerType.
  split; [|split]; unfold_engine;
    eval_engine
      ltac:(first [ rewrite Hct | rewrite Hinside | rewrite Hbutton
                  | rewrite Hreal | rewrite Hother ]);
    reflexivity.
Qed.

(** X11. Pointer events synthesized by assistive technology are left to
    the click listener: a pointerdown detected as virtual (button 0, inside
    the element) only records pointerType 'virtual' and emits nothing, and
    while that is the recorded pointer type the element's pointerup
    listener does nothing. *)
Theorem virtual_pointer_events_are_deferred (pf : Platform)
    (cfg : PressConfig) (e up : PointerEvent.t) (eng : Engine) (ct : Element)
    (Hct : currentTarget (PointerEvent.base e) = Some ct)
    (Hinside : contains ct (PointerEvent.target e) = true)
    (Hbutton : PointerEvent.button e = 0%Z)
    (Hvirtual : isVirtualPointerEvent pf e = true) :
  let r := PointerHandlers.handlers.onPointerDown pf cfg e eng in
  r = (tt, withPointerType (Some virtual) eng, []) /\
  PointerHandlers.handlers.onPointerUp cfg up (final r) = (tt, final r, []).
Proof.
  cbv zeta. open_engine eng. unfold withPointerType.
  split; unfold_engine;
    eval_engine
      ltac:(first [ rewrite Hct | rewrite Hinside | rewrite Hbutton
                  | rewrite Hvirtual | rewrite orb_true_r ]);
    reflexivity.
Qed.

(** X12. Events from outside are ignored: when the target of an event is
    not contained in the element the listener is attached to, every
    listener on the element leaves the engine as it was and emits nothing.
    The one exception is a keydown of Meta, which still resets the record
    of keys held with Meta. *)
Theorem outside_events_are_ignored (pf : Platform) (cfg : PressConfig)
    (i : Input) (eng : Engine)
    (Houtside : targetInside i = Some false)
    (Hmeta : isMetaKeydown i = false) :
  step pf cfg i eng = (tt, eng, []).
Proof.
  unfold step. destruct (nodeEl eng) eqn:Hn; [|reflexivity].
  destruct i; cbn in Houtside, Hmeta; try discriminate Houtside;
    match type of Houtside with
    | match currentTarget ?b with _ => _ end = _ =>
        destruct (currentTarget b) as [ct|] eqn:Hct; [|discriminate Houtside]
    end;
    injection Houtside as Hout;
    open_engine eng; unfold_engine;
    eval_engine
      ltac:(first [ rewrite Hct | rewrite Hout | rewrite Hmeta
                  | rewrite andb_false_r | rewrite orb_true_r ]);
    reflexivity.
Qed.

(** X13. Only the main button counts: click, mousedown, mouseup,
    pointerdown and pointerup, on the element or on the document, with a
    button other than 0 leave the engine as it was and emit nothing. *)
Theorem other_buttons_are_ignored (pf : Platform) (cfg : PressConfig)
    (i : Input) (eng : Engine) (button : Z)
    (Hbutton : buttonOf i = Some button)
    (Hother : button <> 0%Z) :
  step pf cfg i eng = (tt, eng, []).
Proof.
  apply Z.eqb_neq in Hother.
  unfold step. destruct (nodeEl eng) eqn:Hn; [|reflexivity].
  destruct i; cbn in Hbutton; try discriminate Hbutton;
    injection Hbutton as Hb; rewrite <- Hb in Hother;
    open_engine eng; unfold_engine;
    eval_engine
      ltac:(first [ rewrite Hother | rewrite andb_false_r
                  | rewrite andb_false_l ]);
    try reflexivity; destruct (existsb _ sListeners); reflexivity.
Qed.

(** X14. Mouse events emulated after a touch are suppressed.  In the mouse
    and touch fallback, while ignoreEmulatedMouseEvents is set, mousedown,
    mouseenter, mouseleave and mouseup start, end and release nothing: no
    callback runs, no press event is dispatched, and the listeners on the
    element leave the state as it was.  The flag is set by every accepted
    touchstart and by every touchend that ends a press. *)
Theorem emulated_mouse_events_are_suppressed (pf : Platform)
    (cfg : PressConfig) (eng : Engine)
    (Hfallback : hasPointerEvent pf = false) :
  (PressState.ignoreEmulatedMouseEvents (state eng) = true ->
   forall i, isFallbackMouseInput i = true ->
   Forall noPressEffect (trace (step pf cfg i eng)) /\
   (isDocumentInput i = false -> final (step pf cfg i eng) = eng)) /\
  (forall e ct c,
     currentTarget (TouchEvent.base e) = Some ct ->
     contains ct (TouchEvent.target e) = true ->
     getTouchFromEvent e = Some c ->
     PressState.ignoreEmulatedMouseEvents
       (state (final (NonPointerHandlers.handlers.onTouchStart cfg e eng)))
     = true) /\
  (forall e ct,
     currentTarget (TouchEvent.base e) = Some ct ->
     contains ct (TouchEvent.target e) = true ->
     PressState.isPressed (state eng) = true ->
     PressState.ignoreEmulatedMouseEvents
       (state (final (NonPointerHandlers.handlers.onTouchEnd cfg e eng)))
     = true).
Proof.
  split; [|split].
  - intros Hflag i Hi. unfold step.
    destruct (nodeEl eng) eqn:Hn; [|split; [constructor | reflexivity]].
    destruct i; try discriminate Hi; cbn [listeners isDocumentInput];
      rewrite ?Hfallback; open_engine eng; subst; unfold_engine;
      (split; [|first [intros D; discriminate D | intros _]]);
      eval_engine ltac:(rewrite andb_false_r);
      try (destruct (existsb _ sListeners));
      eval_engine ltac:(rewrite andb_false_r);
      try reflexivity; repeat constructor.
  - intros e ct c Hct Hin Hc. open_engine eng. unfold_engine.
    eval_engine ltac:(first [rewrite Hct | rewrite Hin | rewrite Hc]);
      reflexivity.
  - intros e ct Hct Hin Hp. open_engine eng. subst. unfold_engine.
    eval_engine ltac:(first [rewrite Hct | rewrite Hin]); reflexivity.
Qed.

(** *** Opening links *)

Lemma valid_non_Enter_on_anchor (e : KeyboardEvent.t) (el : Element) :
  isValidKeyboardEvent e el = true ->
  isHTMLAnchorLink el = true ->
  KeyboardEvent.key e <> "Enter" ->
  truthy (roleAttr el) = true /\ roleAttr el <> Some "link".
Proof.
  unfold isValidKeyboardEvent. intros Hv Ha Hk.
  apply andb_true_iff in Hv. destruct Hv as [_ Hv].
  apply negb_true_iff in Hv. rewrite Ha, andb_true_r in Hv.
  apply String.eqb_neq in Hk. rewrite Hk in Hv. cbn in Hv.
  rewrite andb_true_r in Hv. apply orb_false_iff in Hv.
  destruct Hv as [Hl Ht]. apply negb_false_iff in Ht. split; [exact Ht|].
  intros Hr. rewrite Hr in Hl. discriminate Hl.
Qed.

Lemma pressedValidTarget_Some st e el :
  pressedValidTarget st e = Some el ->
  PressState.target st = Some el /\
  PressState.isPressed st = true /\
  isValidKeyboardEvent e el = true.
Proof.
  unfold pressedValidTarget.
  destruct (PressState.target st) as [t|]; [|discriminate].
  destruct (PressState.isPressed st); [|discriminate]. cbn.
  destruct (isValidKeyboardEvent e t) eqn:Hv; [|discriminate].
  intros [= <-]. auto.
Qed.

Lemma Ronly_noOpenLink_listeners pf cfg i :
  match i with DocumentKeyup _ => False | _ => True end ->
  respects (Ronly noOpenLink) (listeners pf cfg i).
Proof.
  destruct i; intros Hi; try contradiction; unfold_listener;
    unfold cancelOnPointerExit, cancel, endOnRelease;
    respects_auto ltac:(only_prim trivial_side).
Qed.

Lemma Forall_noOpenLink_In tr el :
  Forall noOpenLink tr -> ~ In (OpenLink el) tr.
Proof.
  intros H Hin. rewrite Forall_forall in H. exact (H _ Hin).
Qed.

Lemma trace_bind_getState {A} (k : PressState.t -> M A) (eng : Engine) :
  trace (bind getState k eng) = trace (k (state eng) eng).
Proof.
  unfold bind, getState, trace.
  destruct (k (state eng) eng) as [[b eng2] t2]. reflexivity.
Qed.

Lemma linksOpened_In tr el : In (OpenLink el) tr <-> In el (linksOpened tr).
Proof.
  induction tr as [|x tr IH]; [tauto|].
  destruct x; cbn; rewrite <- ?IH; try (split; [intros [H|H]; [discriminate H | exact H] | tauto]).
  split; [intros [[= ->]|H]; auto | intros [->|H]; auto].
Qed.

Lemma linksOpened_calls cb ev : linksOpened (calls cb ev) = [].
Proof. destruct cb; reflexivity. Qed.

Lemma linksOpened_dispatches node ev : linksOpened (dispatches node ev) = [].
Proof. destruct node; reflexivity. Qed.

Lemma linksOpened_pressEndTrace cfg node e pt w :
  linksOpened (pressEndTrace cfg node e pt w) = [].
Proof.
  unfold pressEndTrace.
  rewrite !linksOpened_app, linksOpened_calls, linksOpened_dispatches.
  destruct (onPressChange cfg), (w && negb (isDisabled cfg)); cbn;
    rewrite ?linksOpened_app, ?linksOpened_calls, ?linksOpened_dispatches;
    reflexivity.
Qed.

Lemma linksOpened_pressUpTrace cfg node e pt :
  linksOpened (pressUpTrace cfg node e pt) = [].
Proof.
  unfold pressUpTrace.
  rewrite !linksOpened_app, linksOpened_calls, linksOpened_dispatches.
  reflexivity.
Qed.

Ltac linksOpened_simpl :=
  repeat first
    [ rewrite linksOpened_app
    | rewrite linksOpened_pressEndTrace
    | rewrite linksOpened_pressUpTrace
    | match goal with
      | |- context [linksOpened (if ?b then _ else _)] => destruct b eqn:?
      end
    | progress cbn [linksOpened app]
    | rewrite app_nil_r ].

Ltac link_leaf :=
  lazymatch goal with
  | |- In _ [] -> _ => intros []
  | |- In _ [_] -> _ =>
      intros [<-|[]]; left;
      match goal with
      | H : _ && _ && _ && _ = true |- _ =>
          let Hl := fresh "Hl" in
          let Hc := fresh "Hc" in
          let Hk := fresh "Hk" in
          let Ha := fresh "Ha" in
          apply andb_true_iff in H; destruct H as [H Hl];
          apply andb_true_iff in H; destruct H as [H Hc];
          apply andb_true_iff in H; destruct H as [Hk Ha];
          apply negb_true_iff in Hk, Hl; apply String.eqb_neq in Hk;
          unfold opensLinkOn; cbn; repeat split; assumption
      end
  end.

Lemma onKeyUpAt_link depth pf cfg e eng el :
  wpt (onKeyUpAt depth pf cfg e) (fun _ => linkPost el e eng) eng.
Proof.
  revert e eng. induction depth as [|depth IH]; intros e eng;
    open_engine eng; unfold linkPost; unfold onKeyUpAt; fold onKeyUpAt;
    apply wpt_bind, wpt_getState; wpt_simpl;
    (destruct (pressedValidTarget _ e) as [stTarget|] eqn:Hp;
     [ apply pressedValidTarget_Some in Hp; cbn in Hp;
       destruct Hp as (-> & -> & Hv);
       wpt_go idtac; wpt_done;
       (split; [reflexivity|]); (split; [intros H; discriminate H|]);
       (split; [intros ->; reflexivity|]);
       linksOpened_simpl; link_leaf
     | wpt_go idtac; wpt_done;
       try (split; [reflexivity|]; split; [auto|]; split; [auto|]; intros []);
       wpt_simpl ]).
  - apply (wpt_forEach_inv
             (fun eng' t =>
                PressState.target (state eng') = sTarget /\
                (PressState.isPressed (state eng') = true -> sPressed = true) /\
                linksOpened t = [])).
    + repeat split; auto.
    + intros event eng' tr _ (H1 & H2 & H3).
      wpt_go idtac; wpt_done; rewrite ?app_nil_r, ?linksOpened_app, ?H3;
        repeat split; auto.
    + intros eng' tr (H1 & H2 & H3). rewrite H3.
      split; [exact H1|]. split; [exact H2|].
      split; [intros H; discriminate H | intros []].
  - apply andb_true_iff in Heqb. destruct Heqb as [Hmeta _].
    apply String.eqb_eq in Hmeta.
    match goal with
    | |- context [opensLinkOn el e ?E] => set (eng0 := E)
    end.
    apply (wpt_forEach_inv
             (fun eng' t =>
                PressState.target (state eng') = sTarget /\
                (PressState.isPressed (state eng') = true -> sPressed = true) /\
                PressState.metaKeyEvents (state eng') = None /\
                (In el (linksOpened t) ->
                 exists down, In down (map_values k) /\
                   opensLinkOn el (synthesizedKeyUp down el None) eng0))).
    + repeat split; auto. intros [].
    + intros event eng' tr Hin (H1 & H2 & H3 & H4).
      destruct sTarget as [target|]; [|apply wpt_ret; rewrite app_nil_r; auto].
      unfold dispatchKeyUp, BaseHandlers.onKeyUp.
      wpt_go ltac:(rewrite H1).
      all: try (eapply wpt_conseq; [apply IH|]; unfold linkPost; wpt_simpl;
                intros u eng3 t3 (G1 & G2 & G3 & G4)).
      all: wpt_done.
      all: split; [congruence|]; split; [auto|]; split; [auto|].
      all: rewrite ?linksOpened_app; cbn [linksOpened];
        rewrite ?linksOpened_app, ?linksOpened_pressUpTrace; cbn [app];
        rewrite ?app_nil_r.
      all: intros Hl; try (apply in_app_or in Hl; destruct Hl as [Hl|Hl]);
        try (exact (H4 Hl)); try (destruct Hl; fail).
      all: destruct (G4 Hl) as [Ho|(_ & events & down & Hm & _)];
        [|cbn in Hm; congruence].
      all: exists event; split; [exact Hin|].
      all: destruct Ho as (O1 & O2 & O3 & O4 & O5 & O6 & O7); cbn in O1, O2;
        assert (target = el) by congruence; subst target;
        unfold opensLinkOn, eng0; cbn;
        repeat split; auto.
    + intros eng' tr (H1 & H2 & H3 & H4).
      split; [exact H1|]. split; [exact H2|].
      split; [intros H; discriminate H|].
      intros Hl. right. split; [exact Hmeta|].
      destruct (H4 Hl) as (down & Hd & Ho).
      exists k, down. repeat split; auto; apply Ho.
Qed.

Lemma onKeyUp_link pf cfg e eng el :
  In (OpenLink el) (trace (onKeyUp pf cfg e eng)) ->
  opensLinkOn el e eng \/
  (KeyboardEvent.key e = "Meta" /\
   exists events down,
     PressState.metaKeyEvents (state eng) = Some events /\
     In down (map_values events) /\
     opensLinkOn el (synthesizedKeyUp down el None) eng).
Proof.
  rewrite linksOpened_In. intros H.
  exact (proj2 (proj2 (proj2 (onKeyUpAt_link 1 pf cfg e eng el))) H).
Qed.

(** X15. The engine opens a link itself in one place only, the document
    keyup listener ending a keyboard press on an anchor with an href.  Such
    an anchor always carries a role override other than "link".  The link
    is opened either for the keyup being handled, its key not being Enter,
    its target being inside the anchor and the event not already marked as
    having opened a link, or, when that keyup releases Meta, for a key
    other than Enter recorded while Meta was held and replayed now.  No
    other listener ever opens a link. *)
Theorem link_opened_only_on_role_override (pf : Platform) (cfg : PressConfig)
    (i : Input) (eng : Engine) (el : Element)
    (Hopen : In (OpenLink el) (trace (step pf cfg i eng))) :
  exists e,
    i = DocumentKeyup e /\
    PressState.target (state eng) = Some el /\
    PressState.isPressed (state eng) = true /\
    isHTMLAnchorLink el = true /\
    truthy (roleAttr el) = true /\
    roleAttr el <> Some "link" /\
    ((KeyboardEvent.key e <> "Enter" /\
      contains el (KeyboardEvent.target e) = true /\
      KeyboardEvent.linkClicked e = false) \/
     (KeyboardEvent.key e = "Meta" /\
      exists events down,
        PressState.metaKeyEvents (state eng) = Some events /\
        In down (map_values events) /\
        KeyboardEvent.key down <> "Enter")).
Proof.
  assert (Hother : match i with DocumentKeyup _ => False | _ => True end ->
                   False).
  { intros Hi. revert Hopen. apply Forall_noOpenLink_In.
    refine (respects_step (Ronly noOpenLink) pf cfg i _ eng).
    apply Ronly_noOpenLink_listeners. exact Hi. }
  destruct i; try (exfalso; apply Hother; exact I).
  exists e. split; [reflexivity|].
  unfold step, listeners, ifRegistered in Hopen.
  destruct (nodeEl eng); [|destruct Hopen].
  destruct (existsb _ _); [|destruct Hopen].
  destruct (onKeyUp_link _ _ _ _ _ Hopen)
    as [Ho|(Hm & events & down & He & Hd & Ho)];
    destruct Ho as (Ht & Hp & Hv & Ha & Hk & Hc & Hl);
    destruct (valid_non_Enter_on_anchor _ _ Hv Ha Hk) as [Hr1 Hr2];
    (do 5 (split; [assumption|])).
  - left. repeat split; assumption.
  - right. split; [exact Hm|]. exists events, down. repeat split; assumption.
Qed.

(** Space held with Meta on an anchor with role="button", then Meta
    released: the replayed keyup of Space ends the press and opens the
    link within the step that handles Meta's keyup. *)
Example link_opened_by_replayed_keyup :
  let pressed :=
    final (run (macBrowser false)
             [(defaultConfig,
               Keydown (metaKeyEvent "Meta" "MetaLeft" buttonRoleAnchor));
              (defaultConfig,
               Keydown (metaKeyEvent " " "Space" buttonRoleAnchor))]
             (pressAction buttonRoleAnchor createPress)) in
  let r := step (macBrowser false) defaultConfig
             (DocumentKeyup (keyEvent "Meta" "MetaLeft" buttonRoleAnchor))
             pressed in
  In (OpenLink buttonRoleAnchor) (trace r) /\
  In (Focus buttonRoleAnchor) (trace r) /\
  map PressEvent.type (dispatched (trace r)) = [pressup; pressend; press].
Proof. vm_compute. tauto. Qed.

(* ------------------------------------------------------------------ *)
(** ** Invariants of the state across whole handlers *)

Section WeakestPrecondition.

Context {A : Type} (Q : A -> Engine -> Prop) (eng : Engine).

Lemma wp_ret (a : A) : Q a eng -> wp (ret a) Q eng.
Proof. intros H; exact H. Qed.

Lemma wp_bind {B} (m : M B) (k : B -> M A) :
  wp m (fun b eng1 => wp (k b) Q eng1) eng -> wp (bind m k) Q eng.
Proof.
  unfold wp, bind, result, final.
  destruct (m eng) as [[b eng1] t1]. cbn.
  destruct (k b eng1) as [[a eng2] t2]. cbn. auto.
Qed.

End WeakestPrecondition.

Section WeakestPreconditionPrimitives.

Context (eng : Engine).

Lemma wp_getState (Q : PressState.t -> Engine -> Prop) :
  Q (state eng) eng -> wp getState Q eng.
Proof. intros H; exact H. Qed.

Lemma wp_update (Q : unit -> Engine -> Prop) f :
  Q tt (mkEngine (f (state eng)) (isPressedStore eng) (globalListeners eng)
          (nodeEl eng)) ->
  wp (update f) Q eng.
Proof. intros H; exact H. Qed.

Lemma wp_emit (Q : unit -> Engine -> Prop) e : Q tt eng -> wp (emit e) Q eng.
Proof. intros H; exact H. Qed.

Lemma wp_when (Q : unit -> Engine -> Prop) b m :
  wp m Q eng -> Q tt eng -> wp (when b m) Q eng.
Proof. intros H1 H2. destruct b; assumption. Qed.

Lemma wp_addGlobalListener (Q : unit -> Engine -> Prop) h :
  Q tt (mkEngine (state eng) (isPressedStore eng)
          (if existsb (GlobalHandler_eqb h) (globalListeners eng)
           then globalListeners eng else (globalListeners eng ++ [h])%list)
          (nodeEl eng)) ->
  wp (addGlobalListener h) Q eng.
Proof. intros H; exact H. Qed.

Lemma wp_removeAllGlobalListeners (Q : unit -> Engine -> Prop) :
  Q tt (mkEngine (state eng) (isPressedStore eng) [] (nodeEl eng)) ->
  wp removeAllGlobalListeners Q eng.
Proof. intros H; exact H. Qed.

Lemma wp_ifRegistered (Q : unit -> Engine -> Prop) h m :
  wp m Q eng -> Q tt eng -> wp (ifRegistered h m) Q eng.
Proof.
  intros H1 H2. unfold wp, ifRegistered in *.
  destruct (existsb _ _); assumption.
Qed.

Lemma wp_triggerPressStart (Q : bool -> Engine -> Prop) cfg e pt :
  (forall b i f t s, Q b (afterTrigger eng i f t s)) ->
  wp (triggerPressStart cfg e pt) Q eng.
Proof.
  intros H. unfold wp.
  assert (X : exists b i f t s,
            result (triggerPressStart cfg e pt eng) = b /\
            final (triggerPressStart cfg e pt eng) = afterTrigger eng i f t s).
  { destruct eng as [[] ? ? ?]. unfold afterTrigger, triggerPressStart.
    run_monad. split_matches; repeat eexists. }
  destruct X as (b & i & f & t & s & -> & ->). apply H.
Qed.

Lemma wp_triggerPressEnd (Q : bool -> Engine -> Prop) cfg e pt w :
  (forall b i f t s, Q b (afterTrigger eng i f t s)) ->
  wp (triggerPressEnd cfg e pt w) Q eng.
Proof.
  intros H. unfold wp.
  assert (X : exists b i f t s,
            result (triggerPressEnd cfg e pt w eng) = b /\
            final (triggerPressEnd cfg e pt w eng) = afterTrigger eng i f t s).
  { destruct eng as [[] ? ? ?]. unfold afterTrigger, triggerPressEnd.
    run_monad. split_matches; repeat eexists. }
  destruct X as (b & i & f & t & s & -> & ->). apply H.
Qed.

Lemma wp_triggerPressUp (Q : bool -> Engine -> Prop) cfg e pt :
  (forall b i f t s, Q b (afterTrigger eng i f t s)) ->
  wp (triggerPressUp cfg e pt) Q eng.
Proof.
  intros H. unfold wp.
  assert (X : exists b i f t s,
            result (triggerPressUp cfg e pt eng) = b /\
            final (triggerPressUp cfg e pt eng) = afterTrigger eng i f t s).
  { destruct eng as [[] ? ? ?]. unfold afterTrigger, triggerPressUp.
    run_monad. split_matches; repeat eexists. }
  destruct X as (b & i & f & t & s & -> & ->). apply H.
Qed.

End WeakestPreconditionPrimitives.

Lemma wp_onElement (Q : unit -> Engine -> Prop) (bubbles : bool)
    (target : Element) (listener : Element -> M unit) (eng : Engine) :
  (forall node, wp (listener node) Q eng) -> Q tt eng ->
  wp (onElement bubbles target listener) Q eng.
Proof.
  intros H1 H2. unfold wp, onElement in *.
  destruct (nodeEl eng); [|exact H2].
  destruct (if bubbles then _ else _); [apply H1 | exact H2].
Qed.

Lemma wp_openLink (Q : unit -> Engine -> Prop) pf cfg target modifiers eng :
  Q tt eng -> wp (openLink pf cfg target modifiers false) Q eng.
Proof. unfold wp. rewrite openLink_effects. intros H; exact H. Qed.

(** A loop, by an invariant of the state. *)
Lemma wp_forEach_inv {A} (I : Engine -> Prop) (Q : unit -> Engine -> Prop)
    (l : list A) (f : A -> M unit) (eng : Engine) :
  I eng ->
  (forall a eng', I eng' -> wp (f a) (fun _ eng2 => I eng2) eng') ->
  (forall eng', I eng' -> Q tt eng') ->
  wp (forEach l f) Q eng.
Proof.
  intros H0 Hstep HQ.
  assert (G : forall eng1, I eng1 -> I (final (forEach l f eng1))).
  { induction l as [|x l IH]; intros eng1 H1; [exact H1|].
    cbn [forEach]. unfold bind, final in *.
    pose proof (Hstep x eng1 H1) as Hx. unfold wp, final in Hx.
    destruct (f x eng1) as [[u e1] t1]. cbn in Hx.
    pose proof (IH e1 Hx) as Hl.
    destruct (forEach l f e1) as [[u2 e2] t2]. exact Hl. }
  unfold wp. destruct (result (forEach l f eng)). apply HQ, G, H0.
Qed.

Ltac wp_simpl :=
  cbv beta;
  cbn [state isPressedStore globalListeners nodeEl afterTrigger
       PressState.isPressed PressState.ignoreEmulatedMouseEvents
       PressState.ignoreClickAfterPress PressState.didFirePressStart
       PressState.isTriggeringEvent PressState.activePointerId
       PressState.target PressState.isOverTarget PressState.pointerType
       PressState.metaKeyEvents
       PressState.set_isPressed PressState.set_ignoreEmulatedMouseEvents
       PressState.set_ignoreClickAfterPress PressState.set_didFirePressStart
       PressState.set_isTriggeringEvent PressState.set_activePointerId
       PressState.set_target PressState.set_isOverTarget
       PressState.set_pointerType PressState.set_metaKeyEvents].

(** One step of symbolic execution; the triggers are stepped over and a
    loop keeps the invariant [inv]. *)
Ltac wp_step inv :=
  lazymatch goal with
  | |- wp (bind _ _) _ _ => apply wp_bind
  | |- wp (ret _) _ _ => apply wp_ret
  | |- wp getState _ _ => apply wp_getState
  | |- wp (update _) _ _ => apply wp_update
  | |- wp (emit _) _ _ => apply wp_emit
  | |- wp (addGlobalListener _) _ _ => apply wp_addGlobalListener
  | |- wp removeAllGlobalListeners _ _ => apply wp_removeAllGlobalListeners
  | |- wp (when _ _) _ _ => apply wp_when
  | |- wp (triggerPressStart _ _ _) _ _ => apply wp_triggerPressStart; intros
  | |- wp (triggerPressEnd _ _ _ _) _ _ => apply wp_triggerPressEnd; intros
  | |- wp (triggerPressUp _ _ _) _ _ => apply wp_triggerPressUp; intros
  | |- wp (cancel _ _) _ _ => unfold cancel
  | |- wp (cancelOnPointerExit _ _) _ _ => unfold cancelOnPointerExit
  | |- wp (endOnRelease _ _ _ _) _ _ => unfold endOnRelease
  | |- wp (forEach _ _) _ _ =>
      apply (wp_forEach_inv inv);
      [ | intros ? ? ? | intros ? ?; assumption ]
  | |- wp (ifRegistered _ _) _ _ => apply wp_ifRegistered
  | |- wp (onElement _ _ _) _ _ => apply wp_onElement; [intros ? |]
  | |- wp (openLink _ _ _ _ false) _ _ => apply wp_openLink
  | |- wp (if ?b then _ else _) _ _ => destruct b
  | |- wp (match ?x with _ => _ end) _ _ => destruct x
  end; wp_simpl.

Ltac wp_auto inv := wp_simpl; repeat wp_step inv.

Lemma wp_step_of_listeners (Q : unit -> Engine -> Prop) pf cfg i eng :
  wp (listeners pf cfg i) Q eng -> Q tt eng -> wp (step pf cfg i) Q eng.
Proof.
  intros H1 H2. unfold wp, step in *. destruct (nodeEl eng); assumption.
Qed.

Lemma listenersReleased_step pf cfg i eng :
  listenersReleased eng -> listenersReleased (final (step pf cfg i eng)).
Proof.
  intros Hinv.
  change (wp (step pf cfg i) (fun _ eng' => listenersReleased eng') eng).
  apply wp_step_of_listeners; [|exact Hinv].
  destruct i; unfold_listener; wp_auto listenersReleased;
    unfold listenersReleased in *; wp_simpl;
    first [assumption | intros ?; congruence | reflexivity].
Qed.

Lemma pressedOnTarget_step pf cfg i eng :
  pressedOnTarget eng -> pressedOnTarget (final (step pf cfg i eng)).
Proof.
  intros Hinv.
  change (wp (step pf cfg i) (fun _ eng' => pressedOnTarget eng') eng).
  apply wp_step_of_listeners; [|exact Hinv].
  destruct i; unfold_listener; wp_auto pressedOnTarget;
    unfold pressedOnTarget in *; wp_simpl;
    first [assumption | intros ?; congruence | intros _; discriminate].
Qed.

Lemma final_run_cons pf cfg i rest eng :
  final (run pf ((cfg, i) :: rest) eng)
  = final (run pf rest (final (step pf cfg i eng))).
Proof.
  cbn [run]. unfold bind, final.
  destruct (step pf cfg i eng) as [[u e1] t1]. cbn.
  destruct (run pf rest e1) as [[u2 e2] t2]. reflexivity.
Qed.

Lemma run_invariant (P : Engine -> Prop) pf :
  (forall cfg i eng, P eng -> P (final (step pf cfg i eng))) ->
  forall inputs eng, P eng -> P (final (run pf inputs eng)).
Proof.
  intros Hstep inputs. induction inputs as [|[cfg i] rest IH]; intros eng H.
  - exact H.
  - rewrite final_run_cons. apply IH, Hstep, H.
Qed.

(** X16. Whatever sequence of events a bound engine has handled, under
    whatever configurations, no document or window listener stays
    registered once no press is in progress. *)
Theorem listeners_released_between_presses pf node inputs :
  listenersReleased (final (run pf inputs (pressAction node createPress))).
Proof.
  apply run_invariant.
  - intros cfg i eng. apply listenersReleased_step.
  - intros _. reflexivity.
Qed.

(** X17. Whatever sequence of events a bound engine has handled, a press
    in progress has a recorded target. *)
Theorem pressed_state_has_target pf node inputs :
  pressedOnTarget (final (run pf inputs (pressAction node createPress))).
Proof.
  apply run_invariant.
  - intros cfg i eng. apply pressedOnTarget_step.
  - intros H. discriminate H.
Qed.

(* ------------------------------------------------------------------ *)
(** ** A press without a pointer type *)

Lemma pressedByKeyboard_step pf cfg i eng :
  pressedByKeyboard eng -> pressedByKeyboard (final (step pf cfg i eng)).
Proof.
  intros Hinv.
  change (wp (step pf cfg i) (fun _ eng' => pressedByKeyboard eng') eng).
  apply wp_step_of_listeners; [|exact Hinv].
  destruct i; unfold_listener; wp_auto pressedByKeyboard;
    unfold pressedByKeyboard in *; wp_simpl;
    first [ assumption | intros ?; congruence | intros _; discriminate
          | intros _ _; apply existsb_after_add ].
Qed.

(** C2, as the code has it.  In every state a bound engine reaches, whatever
    the events and configurations, a press in progress whose pointerType is
    null is a keyboard press: the document keyup listener, which keydown
    alone registers, is in place.  In particular, through events other than
    a keyboard keydown pointerType is non-null whenever isPressed is true;
    and a keydown leaves pointerType as it was: it marks the press without
    recording a pointer type. *)
Theorem pointerType_known_unless_keydown (pf : Platform) :
  (forall node inputs,
     pressedByKeyboard
       (final (run pf inputs (pressAction node createPress)))) /\
  (forall node inputs,
     Forall (fun ci => isKeydown (snd ci) = false) inputs ->
     known (state (final (run pf inputs (pressAction node createPress))))) /\
  (forall cfg e eng,
     PressState.pointerType (state (final (BaseHandlers.onKeyDown pf cfg e eng)))
     = PressState.pointerType (state eng)).
Proof.
  split; [|split].
  - intros node inputs. apply run_invariant.
    + intros cfg i eng. apply pressedByKeyboard_step.
    + intros H. discriminate H.
  - intros node inputs Hin.
    assert (Hr : respects (lift keepsKnown) (run pf inputs)).
    { apply respects_run; [exact _|].
      eapply Forall_impl; [|exact Hin].
      intros [cfg i] Hk. apply known_listeners. exact Hk. }
    apply (Hr (pressAction node createPress)).
    intros Hp. discriminate Hp.
  - intros cfg e eng. apply (pointerType_kept_by_onKeyDown pf cfg e eng).
Qed.

(** A pointer press on the sample button, seen just after pointerdown, and
    a keyboard press on it, seen just after the keydown of Enter. *)
Lemma pointerType_known_unless_keydown_witness :
  Forall (fun ci => isKeydown (snd ci) = false)
    [(defaultConfig, Pointerdown (pointerEvent 1 5 5 sampleButton))] /\
  known (state (final (run (macBrowser false)
                         [(defaultConfig,
                           Pointerdown (pointerEvent 1 5 5 sampleButton))]
                         boundButton))) /\
  existsb (GlobalHandler_eqb GKeyUp)
    (globalListeners
       (final (run (macBrowser false)
                 [(defaultConfig,
                   Keydown (keyEvent "Enter" "Enter" sampleButton))]
                 boundButton))) = true.
Proof.
  assert (H : Forall (fun ci => isKeydown (snd ci) = false)
                [(defaultConfig, Pointerdown (pointerEvent 1 5 5 sampleButton))]).
  { repeat constructor. }
  split; [exact H|]. split.
  - exact (proj1 (proj2 (pointerType_known_unless_keydown (macBrowser false)))
             sampleButton _ H).
  - exact (proj1 (pointerType_known_unless_keydown (macBrowser false))
             sampleButton
             [(defaultConfig, Keydown (keyEvent "Enter" "Enter" sampleButton))]
             eq_refl eq_refl).
Defined.

(** C2 as stated fails: after the first keydown of Enter on a freshly bound
    button the state has isPressed true and pointerType null. *)
Lemma keydown_pressed_without_pointerType :
  reachable (macBrowser false) afterEnterKeydown /\
  PressState.isPressed (state afterEnterKeydown) = true /\
  PressState.pointerType (state afterEnterKeydown) = None /\
  ~ known (state afterEnterKeydown).
Proof.
  split; [|split; [|split]].
  - exists sampleButton,
      [(defaultConfig, Keydown (keyEvent "Enter" "Enter" sampleButton))].
    reflexivity.
  - reflexivity.
  - reflexivity.
  - intros H. apply H; reflexivity.
Qed.

(* ------------------------------------------------------------------ *)
(** *** One level of nesting is enough *)

Lemma onKeyUpAt_without_record depth pf cfg e eng :
  PressState.metaKeyEvents (state eng) = None ->
  onKeyUpAt depth pf cfg e eng = onKeyUpAt 0 pf cfg e eng.
Proof.
  intros H. destruct depth; [reflexivity|].
  unfold onKeyUpAt; fold onKeyUpAt. rewrite !bind_getState.
  destruct (pressedValidTarget (state eng) e); [reflexivity|].
  rewrite H. reflexivity.
Qed.

Lemma onKeyUpAt_keeps_no_record depth pf cfg e eng :
  PressState.metaKeyEvents (state eng) = None ->
  PressState.metaKeyEvents (state (final (onKeyUpAt depth pf cfg e eng)))
  = None.
Proof.
  exact (proj1 (proj2 (proj2
           (onKeyUpAt_link depth pf cfg e eng (KeyboardEvent.target e))))).
Qed.

Lemma elementKeyUp_keeps_record cfg target (ev : Element -> KeyboardEvent.t)
    eng :
  PressState.metaKeyEvents
    (state (final (onElement true target
                     (fun node => BaseHandlers.onKeyUp cfg (ev node)) eng)))
  = PressState.metaKeyEvents (state eng).
Proof.
  change (wp (onElement true target
                (fun node => BaseHandlers.onKeyUp cfg (ev node)))
             (fun _ eng' => PressState.metaKeyEvents (state eng')
                            = PressState.metaKeyEvents (state eng)) eng).
  apply wp_onElement; [intros node|reflexivity].
  unfold BaseHandlers.onKeyUp.
  wp_auto (fun _ : Engine => True); reflexivity.
Qed.

Lemma dispatchKeyUp_depth depth pf cfg target event eng :
  PressState.metaKeyEvents (state eng) = None ->
  dispatchKeyUp (onKeyUpAt depth pf cfg) cfg target event eng
  = dispatchKeyUp (onKeyUpAt 0 pf cfg) cfg target event eng /\
  PressState.metaKeyEvents
    (state (final (dispatchKeyUp (onKeyUpAt 0 pf cfg) cfg target event eng)))
  = None.
Proof.
  intros H. unfold dispatchKeyUp.
  pose proof (elementKeyUp_keeps_record cfg target
                (fun node => synthesizedKeyUp event target (Some node)) eng)
    as He.
  cbv beta in He. unfold bind, emit.
  destruct (onElement true target _ eng) as [[u1 eng1] t1].
  unfold final in He. cbn [fst snd] in He. rewrite H in He.
  unfold ifRegistered. destruct (existsb _ _); [|split; [reflexivity | exact He]].
  rewrite (onKeyUpAt_without_record depth pf cfg _ eng1 He).
  split; [reflexivity|].
  pose proof (onKeyUpAt_keeps_no_record 0 pf cfg
                (synthesizedKeyUp event target None) eng1 He) as Hk.
  destruct (onKeyUpAt 0 pf cfg _ eng1) as [[u2 eng2] t2]. exact Hk.
Qed.

Lemma forEach_ext_inv {A} (I : Engine -> Prop) (l : list A)
    (f g : A -> M unit) :
  (forall a eng, I eng -> f a eng = g a eng /\ I (final (g a eng))) ->
  forall eng, I eng -> forEach l f eng = forEach l g eng.
Proof.
  intros Hfg. induction l as [|x l IH]; intros eng H; [reflexivity|].
  cbn [forEach]. unfold bind.
  destruct (Hfg x eng H) as [-> Hx].
  destruct (g x eng) as [[u e1] t1]. unfold final in Hx. cbn in Hx.
  rewrite (IH e1 Hx). reflexivity.
Qed.

(** The nesting of the document keyup listener never goes deeper than one
    replayed keyup: with any larger bound the listener does exactly what it
    does with the bound [onKeyUp] runs with. *)
Lemma onKeyUp_depth_enough depth pf cfg e eng :
  onKeyUpAt (S depth) pf cfg e eng = onKeyUp pf cfg e eng.
Proof.
  unfold onKeyUp, onKeyUpAt; fold onKeyUpAt. rewrite !bind_getState.
  destruct (pressedValidTarget (state eng) e); [reflexivity|].
  destruct (PressState.metaKeyEvents (state eng)) as [events|];
    [|reflexivity].
  destruct (_ && _); [|reflexivity].
  unfold bind at 1 3. unfold update at 1 2.
  rewrite (forEach_ext_inv
             (fun eng' => PressState.metaKeyEvents (state eng') = None)
             (map_values events) _
             (fun event =>
                match PressState.target (state eng) with
                | Some target =>
                    dispatchKeyUp (onKeyUpAt 0 pf cfg) cfg target event
                | None => ret tt
                end)).
  - reflexivity.
  - intros event eng' H'.
    destruct (PressState.target (state eng)) as [target|];
      [|split; [reflexivity | exact H']].
    apply dispatchKeyUp_depth. exact H'.
  - reflexivity.
Qed.

(* ------------------------------------------------------------------ *)
(** ** Keyboard defaults, hit testing and touch lookup *)

Lemma accepted_input_key_keeps_default (e : KeyboardEvent.t) (el : Element)
    (type : string) :
  elementClass el = HTMLInputElement type ->
  isValidKeyboardEvent e el = true ->
  shouldPreventDefaultKeyboard el (KeyboardEvent.key e) = false.
Proof.
  unfold isValidKeyboardEvent, shouldPreventDefaultKeyboard.
  intros ->. destruct (isValidInputKey type (KeyboardEvent.key e)).
  - reflexivity.
  - cbn. rewrite !andb_false_r. cbn. intros H; discriminate H.
Qed.

Lemma Ronly_noPreventDefault_onKeyDown pf cfg e el type :
  currentTarget (KeyboardEvent.base e) = Some el ->
  KeyboardEvent.target e = el ->
  elementClass el = HTMLInputElement type ->
  respects (Ronly noPreventDefault) (BaseHandlers.onKeyDown pf cfg e).
Proof.
  intros Hc Ht Hcls. unfold BaseHandlers.onKeyDown. rewrite Hc, Ht.
  destruct (isValidKeyboardEvent e el) eqn:Hv.
  - rewrite (accepted_input_key_keeps_default e el type Hcls Hv).
    cbn [andb when].
    respects_auto ltac:(only_prim trivial_side).
  - cbn [andb]. respects_auto ltac:(only_prim trivial_side).
Qed.

Lemma Forall_calls (P : Effect -> Prop) cb ev :
  P (CallbackCalled ev) -> Forall P (calls cb ev).
Proof. intros H. destruct cb; repeat constructor; exact H. Qed.

Lemma Forall_dispatches (P : Effect -> Prop) node ev :
  (forall n, P (Dispatched n ev)) -> Forall P (dispatches node ev).
Proof. intros H. destruct node; repeat constructor; apply H. Qed.

Lemma pressEndTrace_effects cfg node e pt w :
  Forall (fromTrigger pt) (pressEndTrace cfg node e pt w).
Proof.
  unfold pressEndTrace.
  repeat (apply Forall_app; split);
    try (apply Forall_calls; reflexivity);
    try (apply Forall_dispatches; reflexivity).
  - destruct (onPressChange cfg); repeat constructor.
  - destruct (w && negb (isDisabled cfg)); [|constructor].
    apply Forall_app; split;
      [apply Forall_calls | apply Forall_dispatches]; reflexivity.
Qed.

Lemma pressUpTrace_effects cfg node e pt :
  Forall (fromTrigger pt) (pressUpTrace cfg node e pt).
Proof.
  unfold pressUpTrace. apply Forall_app; split;
    [apply Forall_calls | apply Forall_dispatches]; reflexivity.
Qed.

Lemma pressStartTrace_effects cfg node e pt :
  Forall (fromTrigger pt) (pressStartTrace cfg node e pt).
Proof.
  unfold pressStartTrace.
  repeat (apply Forall_app; split);
    try (apply Forall_calls; reflexivity);
    try (apply Forall_dispatches; reflexivity).
  destruct (onPressChange cfg); repeat constructor.
Qed.

(** Closes [Forall ok tr] for a trace produced by symbolic execution, when
    [ok] holds of what the triggers emit and of the other effects met. *)
Ltac forall_trace :=
  repeat
    lazymatch goal with
    | |- Forall _ (pressEndTrace _ _ _ _ _) =>
        eapply Forall_impl; [|apply pressEndTrace_effects];
        intros []; cbn; intros; first [exact I | assumption | contradiction]
    | |- Forall _ (pressUpTrace _ _ _ _) =>
        eapply Forall_impl; [|apply pressUpTrace_effects];
        intros []; cbn; intros; first [exact I | assumption | contradiction]
    | |- Forall _ (pressStartTrace _ _ _ _) =>
        eapply Forall_impl; [|apply pressStartTrace_effects];
        intros []; cbn; intros; first [exact I | assumption | contradiction]
    | |- Forall _ (_ ++ _) => apply Forall_app; split
    | |- Forall _ [] => apply Forall_nil
    | |- Forall _ (_ :: _) =>
        apply Forall_cons; [first [exact I | reflexivity | assumption]|]
    | |- Forall _ (if ?b then _ else _) => destruct b
    | |- Forall _ _ => assumption
    end.

Lemma onKeyUpAt_keeps_default depth pf cfg e eng el type :
  PressState.target (state eng) = Some el ->
  KeyboardEvent.target e = el ->
  elementClass el = HTMLInputElement type ->
  wpt (onKeyUpAt depth pf cfg e)
    (fun _ eng' tr =>
       PressState.target (state eng') = Some el /\
       Forall noPreventDefault tr) eng.
Proof.
  revert e eng. induction depth as [|depth IH]; intros e eng Hs Ht Hcls;
    open_engine eng; subst sTarget; unfold onKeyUpAt; fold onKeyUpAt;
    apply wpt_bind, wpt_getState; wpt_simpl;
    (destruct (pressedValidTarget _ e) as [stTarget|] eqn:Hp;
     [ apply pressedValidTarget_Some in Hp; cbn in Hp;
       destruct Hp as (Hst & _ & Hv); injection Hst as <-;
       wpt_go ltac:(first [ rewrite Ht
                          | rewrite (accepted_input_key_keeps_default e el type Hcls Hv) ]);
       wpt_done; (split; [reflexivity|]); forall_trace
     | wpt_go idtac; wpt_done;
       try (split; [reflexivity | forall_trace]);
       wpt_simpl ]).
  - apply (wpt_forEach_inv
             (fun eng' t =>
                PressState.target (state eng') = Some el /\
                Forall noPreventDefault t)).
    + split; [reflexivity | constructor].
    + intros event eng' tr _ (H1 & H2).
      wpt_go idtac; wpt_done. split; [exact H1 | forall_trace].
    + intros eng' tr H. exact H.
  - apply (wpt_forEach_inv
             (fun eng' t =>
                PressState.target (state eng') = Some el /\
                Forall noPreventDefault t)).
    + split; [reflexivity | constructor].
    + intros event eng' tr _ (H1 & H2).
      unfold dispatchKeyUp, BaseHandlers.onKeyUp.
      wpt_go ltac:(rewrite H1).
      all: try (eapply wpt_conseq;
                [apply (IH (synthesizedKeyUp event el None));
                 [wpt_simpl; exact H1 | reflexivity | exact Hcls]|];
                wpt_simpl; intros u eng3 t3 (G1 & G2)).
      all: wpt_simpl; wpt_done;
        (split; [first [assumption | reflexivity]|]); forall_trace.
    + intros eng' tr H. exact H.
Qed.

Lemma Ronly_noPreventDefault_onKeyUp pf cfg e el type eng :
  KeyboardEvent.target e = el ->
  PressState.target (state eng) = Some el ->
  elementClass el = HTMLInputElement type ->
  Forall noPreventDefault (trace (onKeyUp pf cfg e eng)).
Proof.
  intros Ht Hs Hcls.
  exact (proj2 (onKeyUpAt_keeps_default 1 pf cfg e eng el type Hs Ht Hcls)).
Qed.

(** X18. A key that activates an input element keeps its native default:
    for a keyboard event whose target is an input element, neither the
    keydown listener of that element nor the document keyup listener that
    ends a press on it ever calls preventDefault, whatever the key and the
    state.  (A key the input does not accept starts no press at all.) *)
Theorem input_activation_keeps_default (pf : Platform) (cfg : PressConfig)
    (e : KeyboardEvent.t) (el : Element) (type : string) (eng : Engine)
    (Htarget : KeyboardEvent.target e = el)
    (Hclass : elementClass el = HTMLInputElement type) :
  (currentTarget (KeyboardEvent.base e) = Some el ->
   Forall noPreventDefault (trace (step pf cfg (Keydown e) eng))) /\
  (PressState.target (state eng) = Some el ->
   Forall noPreventDefault (trace (step pf cfg (DocumentKeyup e) eng))).
Proof.
  split.
  - intros Hc.
    exact (respects_step (Ronly noPreventDefault) pf cfg (Keydown e)
             (Ronly_noPreventDefault_onKeyDown pf cfg e el type Hc Htarget Hclass)
             eng).
  - intros Hs. unfold step, listeners, ifRegistered.
    destruct (nodeEl eng); [|constructor].
    destruct (existsb _ _); [|constructor].
    exact (Ronly_noPreventDefault_onKeyUp pf cfg e el type eng Htarget Hs
             Hclass).
Qed.

Lemma input_activation_keeps_default_witness :
  let e := keyEvent " " "Space" sampleCheckbox in
  let eng := pressAction sampleCheckbox createPress in
  let pressed := final (step legacyBrowser defaultConfig (Keydown e) eng) in
  isValidKeyboardEvent e sampleCheckbox = true /\
  PressState.isPressed (state pressed) = true /\
  Forall noPreventDefault (trace (step legacyBrowser defaultConfig (Keydown e) eng)) /\
  Forall noPreventDefault
    (trace (step legacyBrowser defaultConfig (DocumentKeyup e) pressed)).
Proof.
  cbv zeta.
  do 2 (split; [reflexivity|]).
  split.
  - exact (proj1 (input_activation_keeps_default legacyBrowser defaultConfig
                    (keyEvent " " "Space" sampleCheckbox) sampleCheckbox
                    "checkbox" (pressAction sampleCheckbox createPress)
                    eq_refl eq_refl) eq_refl).
  - exact (proj2 (input_activation_keeps_default legacyBrowser defaultConfig
                    (keyEvent " " "Space" sampleCheckbox) sampleCheckbox
                    "checkbox"
                    (final (step legacyBrowser defaultConfig
                              (Keydown (keyEvent " " "Space" sampleCheckbox))
                              (pressAction sampleCheckbox createPress)))
                    eq_refl eq_refl) eq_refl).
Defined.

(** Adding or subtracting JavaScript's 0 changes no comparison: the sum is
    the number itself, up to the sign of a zero. *)
Lemma SFcompare_add_zero_r (a x : spec_float) :
  SFcompare a (SF64add x (S754_zero false)) = SFcompare a x.
Proof. destruct a, x as [[]|[]| |[] ? ?]; reflexivity. Qed.

Lemma SFcompare_add_zero_l (a x : spec_float) :
  SFcompare (SF64add x (S754_zero false)) a = SFcompare x a.
Proof. destruct a, x as [[]|[]| |[] ? ?]; reflexivity. Qed.

Lemma SFcompare_sub_zero_r (a x : spec_float) :
  SFcompare a (SF64sub x (S754_zero false)) = SFcompare a x.
Proof. destruct a, x as [[]|[]| |[] ? ?]; reflexivity. Qed.

Lemma SFcompare_sub_zero_l (a x : spec_float) :
  SFcompare (SF64sub x (S754_zero false)) a = SFcompare x a.
Proof. destruct a, x as [[]|[]| |[] ? ?]; reflexivity. Qed.

Lemma gt_add_zero (a x : float) : gt a (x + 0) = gt a x.
Proof.
  unfold gt. rewrite !ltb_spec, add_spec. unfold SFltb.
  change (Prim2SF 0) with (S754_zero false).
  rewrite SFcompare_add_zero_l. reflexivity.
Qed.

Lemma gt_zero_add (a x : float) : gt (x + 0) a = gt x a.
Proof.
  unfold gt. rewrite !ltb_spec, add_spec. unfold SFltb.
  change (Prim2SF 0) with (S754_zero false).
  rewrite SFcompare_add_zero_r. reflexivity.
Qed.

Lemma gt_sub_zero (a x : float) : gt a (x - 0) = gt a x.
Proof.
  unfold gt. rewrite !ltb_spec, sub_spec. unfold SFltb.
  change (Prim2SF 0) with (S754_zero false).
  rewrite SFcompare_sub_zero_l. reflexivity.
Qed.

Lemma gt_zero_sub (a x : float) : gt (x - 0) a = gt x a.
Proof.
  unfold gt. rewrite !ltb_spec, sub_spec. unfold SFltb.
  change (Prim2SF 0) with (S754_zero false).
  rewrite SFcompare_sub_zero_r. reflexivity.
Qed.

Lemma SFcompare_antisym (a b : spec_float) :
  SFcompare b a = option_map CompOpp (SFcompare a b).
Proof.
  destruct a as [[]|[]| |[] m1 e1], b as [[]|[]| |[] m2 e2]; try reflexivity;
    cbn; rewrite (Z.compare_antisym e1 e2);
    destruct (e1 ?= e2)%Z; cbn; try reflexivity;
    rewrite (Pos.compare_cont_antisym m1 m2 Eq); cbn;
    rewrite ?CompOpp_involutive; reflexivity.
Qed.

Lemma is_nan_false (x : float) : is_nan x = false -> Prim2SF x <> S754_nan.
Proof.
  unfold is_nan. rewrite eqb_spec. intros H E. rewrite E in H.
  discriminate H.
Qed.

(** Between two numbers, [a > b] fails exactly when [a <= b] holds. *)
Lemma gt_false_iff_leb (a b : float) :
  is_nan a = false -> is_nan b = false ->
  (gt a b = false <-> (a <=? b)%float = true).
Proof.
  intros Ha Hb. apply is_nan_false in Ha, Hb.
  unfold gt. rewrite ltb_spec, leb_spec. unfold SFltb, SFleb.
  rewrite (SFcompare_antisym (Prim2SF a) (Prim2SF b)).
  destruct (Prim2SF a) as [[]|[]| |[] m1 e1], (Prim2SF b) as [[]|[]| |[] m2 e2];
    try contradiction; cbn; try (split; congruence);
    destruct (e1 ?= e2)%Z; cbn; try (split; congruence);
    destruct (Pos.compare_cont Eq m1 m2); cbn; split; congruence.
Qed.

(** X19. A mouse event carries no contact size, so its point is over the
    target exactly when it lies strictly beyond no edge of the target's
    bounding rectangle; when none of the numbers is NaN, that is exactly
    when it lies within the rectangle, edges included. *)
Theorem mouse_point_over_iff_inside (e : MouseEvent.t) (target : Element) :
  let r := boundingClientRect target in
  let x := MouseEvent.clientX e in
  let y := MouseEvent.clientY e in
  (isOverTarget (MouseEvent.point e) target = true <->
   gt (left r) x = false /\ gt x (right r) = false /\
   gt (top r) y = false /\ gt y (bottom r) = false) /\
  (is_nan x = false -> is_nan y = false ->
   is_nan (left r) = false -> is_nan (right r) = false ->
   is_nan (top r) = false -> is_nan (bottom r) = false ->
   (isOverTarget (MouseEvent.point e) target = true <->
    (left r <=? x)%float = true /\ (x <=? right r)%float = true /\
    (top r <=? y)%float = true /\ (y <=? bottom r)%float = true)).
Proof.
  cbv zeta.
  assert (H : isOverTarget (MouseEvent.point e) target = true <->
              gt (left (boundingClientRect target)) (MouseEvent.clientX e)
              = false /\
              gt (MouseEvent.clientX e) (right (boundingClientRect target))
              = false /\
              gt (top (boundingClientRect target)) (MouseEvent.clientY e)
              = false /\
              gt (MouseEvent.clientY e) (bottom (boundingClientRect target))
              = false).
  { unfold isOverTarget, areRectanglesOverlapping, getPointClientRect,
      MouseEvent.point.
    cbn [width height radiusX radiusY clientX clientY top right bottom left].
    rewrite gt_add_zero, gt_zero_sub, gt_add_zero, gt_zero_sub.
    destruct (gt (left (boundingClientRect target)) (MouseEvent.clientX e)),
      (gt (MouseEvent.clientX e) (right (boundingClientRect target))),
      (gt (top (boundingClientRect target)) (MouseEvent.clientY e)),
      (gt (MouseEvent.clientY e) (bottom (boundingClientRect target)));
      cbn; intuition congruence. }
  split; [exact H|].
  intros Hx Hy Hl Hr Ht Hb. rewrite H.
  rewrite (gt_false_iff_leb _ _ Hl Hx), (gt_false_iff_leb _ _ Hx Hr),
    (gt_false_iff_leb _ _ Ht Hy), (gt_false_iff_leb _ _ Hy Hb).
  reflexivity.
Qed.

(** X21. getTouchById returns the first changed touch whose identifier is
    the requested pointer id, and nothing when no pointer is active. *)
Theorem getTouchById_first_match (e : TouchEvent.t) (id : Z) (c : Touch.t) :
  (getTouchById e (Some id) = Some c <->
   exists before after,
     TouchEvent.changedTouches e = (before ++ c :: after)%list /\
     Touch.identifier c = id /\
     Forall (fun c' => Touch.identifier c' <> id) before) /\
  getTouchById e None = None.
Proof.
  unfold getTouchById. split.
  - induction (TouchEvent.changedTouches e) as [|x l IH]; cbn [find].
    + split; [discriminate|].
      intros (before & after & H & _). destruct before; discriminate H.
    + unfold optZ_eqb at 1. destruct (Z.eqb_spec (Touch.identifier x) id) as [E|E].
      * split.
        -- intros [= <-]. exists [], l. repeat split; [exact E | constructor].
        -- intros (before & after & H & Hid & Hb).
           destruct before as [|y before]; cbn in H.
           ++ congruence.
           ++ injection H as <- _. inversion Hb; subst. contradiction.
      * rewrite IH. split.
        -- intros (before & after & H & Hid & Hb).
           exists (x :: before), after. rewrite H.
           repeat split; [exact Hid | constructor; assumption].
        -- intros (before & after & H & Hid & Hb).
           destruct before as [|y before]; cbn in H.
           ++ injection H as -> _. contradiction.
           ++ injection H as <- ->. inversion Hb; subst.
              exists before, after. repeat split; assumption.
  - induction (TouchEvent.changedTouches e) as [|x l IH]; [reflexivity|].
    cbn. exact IH.
Qed.

(** X22. Lifting a finger during a touch press always ends the press,
    whichever finger it is.  If the changed touch with the active pointer
    id is over the element, pressup is emitted (engine enabled), then, a
    start being pending, pressend and press (press only if enabled).  If
    there is no such touch or it is outside, a pending start is closed by a
    pressend alone when the press was flagged over the target.  In every
    case isPressed, isOverTarget and the active pointer are cleared, the
    emulated mouse events that follow are flagged to be ignored, and every
    document or window listener is removed. *)
Theorem touchend_ends_touch_press (cfg : PressConfig) (e : TouchEvent.t)
    (eng : Engine) (node ct : Element) (pt : PointerType)
    (Hbound : nodeEl eng = Some node)
    (Hct : currentTarget (TouchEvent.base e) = Some ct)
    (Hinside : contains ct (TouchEvent.target e) = true)
    (Hpressed : PressState.isPressed (state eng) = true)
    (Hpt : PressState.pointerType (state eng) = Some pt) :
  let r := NonPointerHandlers.handlers.onTouchEnd cfg e eng in
  let over := NonPointerHandlers.handlers.touchOver (getTouchById e (PressState.activePointerId (state eng))) ct in
  let ev ty := newPressEvent ty pt (TouchEvent.base e) in
  let enabled := negb (isDisabled cfg) in
  let pending := PressState.didFirePressStart (state eng) in
  dispatched (trace r)
  = (if over then
       ((if enabled then [ev pressup] else []) ++
        (if pending
         then ev pressend :: (if enabled then [ev press] else [])
         else []))%list
     else if PressState.isOverTarget (state eng) && pending
          then [ev pressend] else []) /\
  PressState.isPressed (state (final r)) = false /\
  PressState.isOverTarget (state (final r)) = false /\
  PressState.activePointerId (state (final r)) = None /\
  PressState.ignoreEmulatedMouseEvents (state (final r)) = true /\
  globalListeners (final r) = [].
Proof.
  cbv zeta. open_engine eng. subst.
  destruct sFired, sOver,
    (NonPointerHandlers.handlers.touchOver (getTouchById e sActive) ct) eqn:Ho,
    (isDisabled cfg) eqn:Hd;
    unfold_engine;
    eval_engine
      ltac:(first [ rewrite Hct | rewrite Hinside | rewrite Ho | rewrite Hd ]);
    repeat split.
Qed.

(** X23. Scrolling cancels a press only when the scrolled container holds
    the pressed element: for any other scroll target, or with no press in
    progress, the scroll listener changes nothing and emits nothing; when
    the document or an ancestor of the target scrolls during a press, the
    press is cancelled: isPressed is cleared, every document or window
    listener is removed, and no press or pressup is emitted. *)
Theorem scroll_cancels_press_of_scrolled_target (cfg : PressConfig)
    (t : ScrollTarget) (eng : Engine) :
  let r := NonPointerHandlers.onScroll cfg t eng in
  (PressState.isPressed (state eng)
   && scrollContains t (PressState.target (state eng)) = false ->
   r = (tt, eng, [])) /\
  (PressState.isPressed (state eng)
   && scrollContains t (PressState.target (state eng)) = true ->
   PressState.isPressed (state (final r)) = false /\
   globalListeners (final r) = [] /\
   countType press (trace r) = 0%nat /\
   countType pressup (trace r) = 0%nat).
Proof.
  cbv zeta. open_engine eng. split; intros H.
  - unfold NonPointerHandlers.onScroll. run_monad. cbn. rewrite H. reflexivity.
  - apply andb_true_iff in H. destruct H as [-> Hs].
    destruct sTarget as [target|]; [|discriminate Hs].
    unfold NonPointerHandlers.onScroll.
    destruct t as [|el]; cbn in Hs;
      unfold_engine; eval_engine ltac:(rewrite Hs); repeat split.
Qed.

(** X24. Releasing the main mouse button in the mouse and touch fallback
    always clears isPressed and removes the document listeners.  When the
    event is not one emulated after a touch, a pending start is closed: a
    release over the target emits pressend and then press (press only if
    the engine is enabled), a release outside it, the press still flagged
    over the target, emits pressend alone.  When the event is emulated
    after a touch, nothing is emitted and the flag is consumed. *)
Theorem mouseup_ends_mouse_press (cfg : PressConfig) (e : MouseEvent.t)
    (eng : Engine) (node target : Element) (pt : PointerType)
    (Hbound : nodeEl eng = Some node)
    (Htarget : PressState.target (state eng) = Some target)
    (Hpt : PressState.pointerType (state eng) = Some pt)
    (Hbutton : MouseEvent.button e = 0%Z) :
  let r := NonPointerHandlers.onMouseUp cfg e eng in
  let origin := createEvent target (MouseEvent.base e) in
  let over := isOverTarget (MouseEvent.point e) target in
  dispatched (trace r)
  = (if negb (PressState.ignoreEmulatedMouseEvents (state eng))
        && PressState.didFirePressStart (state eng)
        && (over || PressState.isOverTarget (state eng))
     then newPressEvent pressend pt origin ::
          (if over && negb (isDisabled cfg)
           then [newPressEvent press pt origin] else [])
     else []) /\
  PressState.isPressed (state (final r)) = false /\
  PressState.ignoreEmulatedMouseEvents (state (final r)) = false /\
  globalListeners (final r) = [].
Proof.
  cbv zeta. open_engine eng. subst.
  destruct sIgnoreMouse, sFired, sOver,
    (isOverTarget (MouseEvent.point e) target) eqn:Ho,
    (isDisabled cfg) eqn:Hd;
    unfold_engine;
    eval_engine
      ltac:(first [ rewrite Hbutton | rewrite Z.eqb_refl | rewrite Ho
                  | rewrite Hd ]);
    repeat split.
Qed.

(** X25. The click that follows a press is not a second press: while
    ignoreClickAfterPress or ignoreEmulatedMouseEvents is set, or a press
    is in progress, the click listener invokes no callback and dispatches
    no press event, whatever the platform says about the click; and when
    it handles the click (main button, no trigger running, link-opening
    flag set) both flags are cleared for the next click. *)
Theorem click_after_press_is_ignored (pf : Platform) (cfg : PressConfig)
    (isOpening : bool) (e : MouseEvent.t) (eng : Engine) (ct : Element)
    (Hct : currentTarget (MouseEvent.base e) = Some ct)
    (Hinside : contains ct (MouseEvent.target e) = true)
    (Hignore : PressState.ignoreClickAfterPress (state eng) = true \/
               PressState.ignoreEmulatedMouseEvents (state eng) = true \/
               PressState.isPressed (state eng) = true) :
  let r := BaseHandlers.onClick pf cfg isOpening e eng in
  Forall noPressEffect (trace r) /\
  PressState.didFirePressStart (state (final r))
  = PressState.didFirePressStart (state eng) /\
  ((MouseEvent.button e =? 0)%Z
   && negb (PressState.isTriggeringEvent (state eng)) && isOpening = true ->
   PressState.ignoreClickAfterPress (state (final r)) = false /\
   PressState.ignoreEmulatedMouseEvents (state (final r)) = false).
Proof.
  cbv zeta. open_engine eng.
  assert (Hg : negb sIgnoreClick && negb sIgnoreMouse && negb sPressed = false).
  { destruct Hignore as [-> | [-> | ->]]; cbn;
      rewrite ?andb_false_r; reflexivity. }
  destruct ((MouseEvent.button e =? 0)%Z && negb sTriggering && isOpening)
    eqn:Hh;
    unfold_engine;
    eval_engine ltac:(first [ rewrite Hct | rewrite Hinside | rewrite Hh
                            | rewrite Hg ]);
    repeat split; try discriminate; repeat constructor.
Qed.

(* ------------------------------------------------------------------ *)
(** ** The order of binary64 sums and differences *)

Section Binary64Order.

Local Open Scope Z_scope.

(** *** Rounding integers to nearest, ties to even *)

Lemma rne_bounds num k :
  0 <= k -> num / 2 ^ k <= rne num k <= num / 2 ^ k + 1.
Proof.
  intros Hk. unfold rne.
  destruct (2 * (num mod 2 ^ k) ?= 2 ^ k); [destruct (Z.even _)| |]; lia.
Qed.

Lemma rne_mono num num' k :
  0 <= k -> num <= num' -> rne num k <= rne num' k.
Proof.
  intros Hk Hle.
  assert (HP : 0 < 2 ^ k) by (apply Z.pow_pos_nonneg; lia).
  pose proof (Z.div_le_mono num num' (2 ^ k) HP Hle) as Hq.
  destruct (Z.eq_dec (num / 2 ^ k) (num' / 2 ^ k)) as [E|E].
  - pose proof (Z.div_mod num (2 ^ k)) as D1.
    pose proof (Z.div_mod num' (2 ^ k)) as D2.
    assert (HR : num mod 2 ^ k <= num' mod 2 ^ k) by (rewrite E in D1; lia).
    unfold rne. rewrite E.
    destruct (Z.compare_spec (2 * (num mod 2 ^ k)) (2 ^ k));
      destruct (Z.compare_spec (2 * (num' mod 2 ^ k)) (2 ^ k));
      destruct (Z.even (num' / 2 ^ k)); lia.
  - pose proof (rne_bounds num k Hk). pose proof (rne_bounds num' k Hk). lia.
Qed.

Lemma rne_exact m j : 0 <= j -> rne (m * 2 ^ j) j = m.
Proof.
  intros Hj. unfold rne.
  assert (HP : 0 < 2 ^ j) by (apply Z.pow_pos_nonneg; lia).
  rewrite Z.mod_mul, Z.div_mul by lia.
  destruct (Z.compare_spec (2 * 0) (2 ^ j)); lia.
Qed.

(** Scaling the numerator and the divisor together changes nothing. *)
Lemma rne_scale num k j :
  0 <= k -> 0 <= j -> rne (num * 2 ^ j) (k + j) = rne num k.
Proof.
  intros Hk Hj. unfold rne.
  assert (HP : 0 < 2 ^ j) by (apply Z.pow_pos_nonneg; lia).
  assert (HQ : 0 < 2 ^ k) by (apply Z.pow_pos_nonneg; lia).
  rewrite Z.pow_add_r by lia.
  rewrite Z.div_mul_cancel_r by lia.
  rewrite Z.mul_mod_distr_r by lia.
  replace (2 * (num mod 2 ^ k * 2 ^ j) ?= 2 ^ k * 2 ^ j)
    with (2 * (num mod 2 ^ k) ?= 2 ^ k); [reflexivity|].
  destruct (Z.compare_spec (2 * (num mod 2 ^ k)) (2 ^ k)) as [E|E|E];
    symmetry; [apply Z.compare_eq_iff | apply Z.compare_lt_iff
              | apply Z.compare_gt_iff]; nia.
Qed.

Lemma roundingShift_nonneg u : 0 <= roundingShift u.
Proof. unfold roundingShift. lia. Qed.

Lemma roundingShift_mono u v : u <= v -> roundingShift u <= roundingShift v.
Proof.
  intros H. unfold roundingShift. pose proof (Z.log2_le_mono u v H). lia.
Qed.

(** Rounding to 53 significant bits is monotone. *)
Lemma roundedValue_mono u v :
  0 < u -> u <= v -> roundedValue u <= roundedValue v.
Proof.
  intros Hu Hle. unfold roundedValue.
  pose proof (roundingShift_mono u v Hle) as Hs.
  pose proof (roundingShift_nonneg u) as Hk.
  destruct (Z.eq_dec (roundingShift u) (roundingShift v)) as [E|E].
  - rewrite <- E.
    apply Z.mul_le_mono_nonneg_r; [apply Z.pow_nonneg; lia|].
    apply rne_mono; assumption.
  - set (k := roundingShift u) in *. set (k' := roundingShift v) in *.
    assert (Hk' : k < k') by lia.
    (* v has k' + 53 digits, u fewer *)
    assert (Hv : 2 ^ (k' + 52) <= v).
    { unfold k', roundingShift in *.
      assert (Z.log2 v = k' + 52) by (unfold k', roundingShift; lia).
      destruct (Z.log2_spec v) as [L _]; [lia|].
      unfold k', roundingShift in H. rewrite <- H. exact L. }
    assert (Hu' : u < 2 ^ (k' + 52)).
    { assert (Z.log2 u < k' + 52) by (unfold k, k', roundingShift in *; lia).
      destruct (Z.log2_spec u) as [_ L]; [lia|].
      eapply Z.lt_le_trans; [exact L|].
      apply Z.pow_le_mono_r; lia. }
    apply Z.le_trans with (2 ^ (k' + 52)).
    + (* rounding u cannot pass the power of two above it *)
      assert (HP : 0 < 2 ^ k) by (apply Z.pow_pos_nonneg; lia).
      replace (2 ^ (k' + 52)) with (2 ^ (k' + 52 - k) * 2 ^ k)
        by (rewrite <- Z.pow_add_r by lia; f_equal; lia).
      apply Z.mul_le_mono_nonneg_r; [lia|].
      pose proof (rne_bounds u k Hk) as [_ Hb].
      assert (u / 2 ^ k < 2 ^ (k' + 52 - k)).
      { apply Z.div_lt_upper_bound; [lia|].
        rewrite <- Z.pow_add_r by lia.
        replace (k + (k' + 52 - k)) with (k' + 52) by lia. exact Hu'. }
      lia.
    + assert (HP : 0 < 2 ^ k') by (apply Z.pow_pos_nonneg; lia).
      replace (2 ^ (k' + 52)) with (2 ^ 52 * 2 ^ k')
        by (rewrite <- Z.pow_add_r by lia; f_equal; lia).
      apply Z.mul_le_mono_nonneg_r; [lia|].
      pose proof (rne_bounds v k' ltac:(lia)) as [Hb _].
      assert (2 ^ 52 <= v / 2 ^ k').
      { apply Z.div_le_lower_bound; [lia|].
        rewrite <- Z.pow_add_r by lia. exact Hv. }
      lia.
Qed.

(** *** Shifting right with a round and a sticky bit *)

Lemma shr_1_nonneg mrs :
  0 <= shr_m mrs ->
  shr_1 mrs = Build_shr_record (shr_m mrs / 2) (Z.odd (shr_m mrs))
                (shr_r mrs || shr_s mrs).
Proof.
  destruct mrs as [m r s]. cbn [shr_m shr_r shr_s]. intros Hm.
  destruct m as [|p|p]; [reflexivity| |lia].
  destruct p as [p|p|]; cbn [shr_1].
  - f_equal. rewrite Pos2Z.inj_xI. apply Z.div_unique with 1; lia.
  - f_equal. rewrite Pos2Z.inj_xO. apply Z.div_unique with 0; lia.
  - reflexivity.
Qed.

Lemma shr_inv_init num : shr_inv num 0 (Build_shr_record num false false).
Proof.
  unfold shr_inv. cbn [shr_m shr_r shr_s]. rewrite Z.pow_0_r, Z.mod_1_r, Z.div_1_r.
  split; [reflexivity|]. split; split; try discriminate; lia.
Qed.

Lemma shr_inv_step num k mrs :
  0 <= num -> 0 <= k -> shr_inv num k mrs -> shr_inv num (k + 1) (shr_1 mrs).
Proof.
  intros HM Hk (Hm & Hr & Hs).
  assert (HP : 0 < 2 ^ k) by (apply Z.pow_pos_nonneg; lia).
  assert (Hq : 0 <= num / 2 ^ k) by (apply Z.div_pos; lia).
  rewrite shr_1_nonneg by (rewrite Hm; exact Hq).
  pose proof (Z.mod_pos_bound num (2 ^ k) HP) as HR.
  assert (Hmod : num mod 2 ^ (k + 1)
                 = num mod 2 ^ k + 2 ^ k * ((num / 2 ^ k) mod 2)).
  { rewrite Z.pow_add_r, Z.pow_1_r by lia. apply Z.rem_mul_r; lia. }
  assert (Hpow : 2 ^ (k + 1) = 2 * 2 ^ k)
    by (rewrite Z.pow_add_r, Z.pow_1_r by lia; lia).
  pose proof (Z.mod_pos_bound (num / 2 ^ k) 2 ltac:(lia)) as Hb.
  unfold shr_inv. cbn [shr_m shr_r shr_s]. rewrite Hm, Hmod, Hpow.
  split; [|split].
  - rewrite Z.pow_add_r, Z.pow_1_r in Hpow by lia.
    rewrite Z.div_div by lia. f_equal. lia.
  - rewrite Zmod_even, <- Z.negb_even.
    destruct (Z.even (num / 2 ^ k)); cbn [negb]; split; intros H;
      try discriminate; try reflexivity; lia.
  - rewrite orb_true_iff, Hr, Hs. rewrite Zmod_even.
    destruct (Z.even (num / 2 ^ k)); split; intros H; lia.
Qed.

Lemma shr_inv_iter num p : forall k mrs,
  0 <= num -> 0 <= k -> shr_inv num k mrs ->
  shr_inv num (k + Zpos p) (iter_pos shr_1 p mrs).
Proof.
  induction p as [p IH|p IH|]; intros k mrs HM Hk H; cbn [iter_pos].
  - replace (k + Zpos p~1) with (k + 1 + Zpos p + Zpos p) by lia.
    apply IH; [assumption|lia|]. apply IH; [assumption|lia|].
    apply shr_inv_step; assumption.
  - replace (k + Zpos p~0) with (k + Zpos p + Zpos p) by lia.
    apply IH; [assumption|lia|]. apply IH; assumption.
  - apply shr_inv_step; assumption.
Qed.

Lemma round_nearest_even_inv num k mrs :
  0 <= k -> shr_inv num k mrs ->
  round_nearest_even (shr_m mrs) (loc_of_shr_record mrs) = rne num k.
Proof.
  intros Hk (Hm & Hr & Hs).
  assert (HP : 0 < 2 ^ k) by (apply Z.pow_pos_nonneg; lia).
  pose proof (Z.mod_pos_bound num (2 ^ k) HP) as HR.
  unfold rne. rewrite <- Hm.
  destruct mrs as [m r s]. cbn [shr_m shr_r shr_s loc_of_shr_record] in *.
  destruct (Z.compare_spec (2 * (num mod 2 ^ k)) (2 ^ k)) as [E|E|E];
    destruct r, s; cbn [round_nearest_even]; try reflexivity;
    try (exfalso;
         first [ assert (X : true = true) by reflexivity;
                 first [apply Hr in X | apply Hs in X]; lia
               | assert (X : false = true) by (first [apply Hr | apply Hs]; lia);
                 discriminate X ]).
Qed.

(** Shifting [num] right by [n] places from an exact start. *)
Lemma shr_spec num e n :
  0 <= num -> 0 <= n ->
  let r := shr (Build_shr_record num false false) e n in
  snd r = e + n /\
  shr_m (fst r) = num / 2 ^ n /\
  round_nearest_even (shr_m (fst r)) (loc_of_shr_record (fst r)) = rne num n.
Proof.
  intros HM Hn. cbv zeta.
  assert (H : shr_inv num n (fst (shr (Build_shr_record num false false) e n)) /\
              snd (shr (Build_shr_record num false false) e n) = e + n).
  { unfold shr. destruct n as [|p|p]; [| |lia]; cbn [fst snd].
    - split; [apply shr_inv_init|lia].
    - split; [|reflexivity].
      apply (shr_inv_iter num p 0); [assumption|lia|apply shr_inv_init]. }
  destruct H as [Hi He]. split; [exact He|]. split; [apply Hi|].
  apply round_nearest_even_inv; assumption.
Qed.

(** *** The rounding procedure of SpecFloat, by value *)

Lemma fexp64 e : fexp prec emax e = Z.max (e - 53) (-1074).
Proof. reflexivity. Qed.

Lemma digits2_pos_log2 p : Zpos (digits2_pos p) = Z.log2 (Zpos p) + 1.
Proof.
  induction p as [p IH|p IH|]; cbn [digits2_pos]; [| |reflexivity].
  - rewrite Pos2Z.inj_succ, IH, Pos2Z.inj_xI, Z.log2_succ_double by lia. lia.
  - rewrite Pos2Z.inj_succ, IH, Pos2Z.inj_xO, Z.log2_double by lia. lia.
Qed.

Lemma Zdigits2_log2 z : 0 < z -> Zdigits2 z = Z.log2 z + 1.
Proof.
  destruct z as [|p|p]; try lia. intros _. apply digits2_pos_log2.
Qed.

Lemma pow2_pos k : 0 <= k -> 0 < 2 ^ k.
Proof. intros H. apply Z.pow_pos_nonneg; lia. Qed.

Lemma pow2_scale_lt x a b c :
  0 <= a -> 0 <= b -> x < 2 ^ a -> a + b <= c -> x * 2 ^ b < 2 ^ c.
Proof.
  intros Ha Hb Hx Hc.
  apply Z.lt_le_trans with (2 ^ (a + b)); [|apply Z.pow_le_mono_r; lia].
  rewrite Z.pow_add_r by lia.
  apply Z.mul_lt_mono_pos_r; [apply pow2_pos; lia | exact Hx].
Qed.

Lemma pow2_scale_le x a b c :
  0 <= a -> 0 <= b -> 2 ^ a <= x -> c <= a + b -> 2 ^ c <= x * 2 ^ b.
Proof.
  intros Ha Hb Hx Hc.
  apply Z.le_trans with (2 ^ (a + b)); [apply Z.pow_le_mono_r; lia|].
  rewrite Z.pow_add_r by lia.
  apply Z.mul_le_mono_nonneg_r; [apply Z.pow_nonneg; lia | exact Hx].
Qed.

Lemma rne_0 num : rne num 0 = num.
Proof.
  unfold rne. rewrite Z.pow_0_r, Z.mod_1_r, Z.div_1_r. reflexivity.
Qed.

(** The shift at which a positive integer is rounded, from its size. *)
Lemma roundingShift_scaled m e :
  0 < m -> 0 <= e + 1074 ->
  roundingShift (m * 2 ^ (e + 1074))
  = Z.max (Z.log2 m + 1 + e - 53) (-1074) + 1074.
Proof.
  intros Hm He. unfold roundingShift.
  rewrite Z.log2_mul_pow2 by lia. lia.
Qed.

(** Rounding a mantissa held at an exponent not above the canonical one. *)
Lemma binary_round_aux_value s m1 e1 :
  -1074 <= e1 ->
  e1 <= fexp prec emax (Zpos (digits2_pos m1) + e1) ->
  let r := binary_round_aux prec emax s (Zpos m1) e1 loc_Exact in
  r <> S754_nan /\
  exactValue r
  = cond_Zopp s (Z.min (roundedValue (Zpos m1 * 2 ^ (e1 + 1074))) maxValue).
Proof.
  intros He1 Hcan. cbv zeta.
  rewrite fexp64, digits2_pos_log2 in Hcan.
  set (D := Z.log2 (Zpos m1) + 1) in *.
  set (ec := Z.max (D + e1 - 53) (-1074)) in *.
  set (n := ec - e1).
  assert (Hn : 0 <= n) by (unfold n; lia).
  destruct (Z.log2_spec (Zpos m1)) as [Hlo Hhi]; [lia|].
  replace (Z.succ (Z.log2 (Zpos m1))) with D in Hhi by (unfold D; lia).
  replace (Z.log2 (Zpos m1)) with (D - 1) in Hlo by (unfold D; lia).
  assert (HD : 1 <= D) by (unfold D; pose proof (Z.log2_nonneg (Zpos m1)); lia).
  (* the value being rounded *)
  assert (Hu : roundedValue (Zpos m1 * 2 ^ (e1 + 1074))
               = rne (Zpos m1) n * 2 ^ (ec + 1074)).
  { unfold roundedValue. rewrite roundingShift_scaled by lia.
    fold D. fold ec.
    replace (ec + 1074) with (n + (e1 + 1074)) by (unfold n; lia).
    rewrite rne_scale by lia. reflexivity. }
  rewrite Hu. clear Hu.
  (* first shift *)
  unfold binary_round_aux, shr_fexp.
  cbn [shr_record_of_loc Zdigits2].
  rewrite fexp64, digits2_pos_log2. fold D. fold ec. fold n.
  destruct (shr_spec (Zpos m1) e1 n ltac:(lia) Hn) as (Hs1 & _ & Hq1).
  destruct (shr {| shr_m := Zpos m1; shr_r := false; shr_s := false |} e1 n)
    as [mrs' e'].
  cbn [fst snd] in Hs1, Hq1. rewrite Hq1. subst e'.
  replace (e1 + n) with ec by (unfold n; lia).
  set (q' := rne (Zpos m1) n) in *.
  (* the rounded mantissa *)
  assert (Hq' : 0 < q' <= 2 ^ 53 /\ (-1074 < ec -> 2 ^ 52 <= q')).
  { destruct (Z.eq_dec n 0) as [E|E].
    - unfold q'. rewrite E, rne_0.
      assert (D <= 53) by (unfold n in E; lia).
      split; [split; [lia|]|].
      + apply Z.lt_le_incl. eapply Z.lt_le_trans; [exact Hhi|].
        apply Z.pow_le_mono_r; lia.
      + intros Hec. assert (D = 53) by (unfold n in E; lia).
        replace 52 with (D - 1) by lia. exact Hlo.
    - assert (Hnn : n = D - 53) by (unfold n in *; lia).
      pose proof (rne_bounds (Zpos m1) n Hn) as Hb. fold q' in Hb.
      assert (H1 : 2 ^ 52 <= Zpos m1 / 2 ^ n).
      { apply Z.div_le_lower_bound; [apply pow2_pos; lia|].
        rewrite <- Z.pow_add_r by lia.
        replace (n + 52) with (D - 1) by lia. exact Hlo. }
      assert (H2 : Zpos m1 / 2 ^ n < 2 ^ 53).
      { apply Z.div_lt_upper_bound; [apply pow2_pos; lia|].
        rewrite <- Z.pow_add_r by lia.
        replace (n + 53) with D by lia. exact Hhi. }
      assert (0 < 2 ^ 52) by (apply pow2_pos; lia).
      split; [lia|]. intros _. lia. }
  destruct Hq' as [[Hq0 Hq53] Hq52].
  rewrite Zdigits2_log2 by exact Hq0.
  rewrite fexp64.
  destruct (Z.eq_dec q' (2 ^ 53)) as [E53|E53].
  - (* the mantissa was carried to 2^53 *)
    assert (Hl : Z.log2 q' = 53) by (rewrite E53; apply Z.log2_pow2; lia).
    rewrite Hl.
    replace (Z.max (53 + 1 + ec - 53) (-1074) - ec) with 1 by (unfold ec; lia).
    destruct (shr_spec q' ec 1 ltac:(lia) ltac:(lia)) as (Hs2 & Hm2 & _).
    destruct (shr {| shr_m := q'; shr_r := false; shr_s := false |} ec 1)
      as [mrs'' e''].
    cbn [fst snd] in Hs2, Hm2. subst e''. rewrite Hm2, E53.
    change (2 ^ 53 / 2 ^ 1) with (Zpos (2 ^ 52)%positive).
    change (emax - prec) with 971.
    destruct (Z.leb_spec (ec + 1) 971) as [Hle|Hgt].
    + split; [discriminate|]. cbn [exactValue]. f_equal.
      rewrite Z.min_l.
      * change (Zpos (2 ^ 52)%positive) with (2 ^ 52).
        replace (ec + 1 + 1074) with (1 + (ec + 1074)) by lia.
        rewrite (Z.pow_add_r 2 1) by (unfold ec; lia).
        change (2 ^ 53) with (2 ^ 52 * 2 ^ 1). ring.
      * unfold maxValue. apply Z.lt_le_incl.
        replace (2 ^ 53 * 2 ^ (ec + 1074)) with (2 ^ 52 * 2 ^ (ec + 1075)).
        -- apply (pow2_scale_lt _ 53); lia.
        -- replace (ec + 1075) with (1 + (ec + 1074)) by lia.
           rewrite (Z.pow_add_r 2 1) by (unfold ec; lia).
           change (2 ^ 53) with (2 ^ 52 * 2 ^ 1). ring.
    + split; [discriminate|]. cbn [exactValue]. f_equal.
      rewrite Z.min_r; [reflexivity|].
      unfold maxValue. apply (pow2_scale_le _ 53); lia.
  - (* the mantissa fits *)
    assert (Hlt : q' < 2 ^ 53) by lia.
    assert (Hl : Z.log2 q' <= 52).
    { apply Z.lt_succ_r. apply Z.log2_lt_pow2; [lia|exact Hlt]. }
    assert (Hl' : -1074 < ec -> Z.log2 q' = 52).
    { intros H. apply Hq52 in H. apply Z.log2_le_pow2 in H; lia. }
    replace (Z.max (Z.log2 q' + 1 + ec - 53) (-1074) - ec) with 0
      by (destruct (Z.eq_dec ec (-1074)); [unfold ec in *|rewrite Hl']; lia).
    cbn [shr fst snd shr_m].
    destruct q' as [|m''|m'']; try lia.
    change (emax - prec) with 971.
    destruct (Z.leb_spec ec 971) as [Hle|Hgt].
    + split; [discriminate|]. cbn [exactValue]. f_equal.
      rewrite Z.min_l; [reflexivity|].
      unfold maxValue. apply Z.lt_le_incl.
      apply (pow2_scale_lt _ 53); unfold ec in *; lia.
    + split; [discriminate|]. cbn [exactValue]. f_equal.
      rewrite Z.min_r; [reflexivity|].
      unfold maxValue. apply (pow2_scale_le _ 52); lia.
Qed.

Lemma roundedExact_pos z :
  0 < z -> roundedExact z = Z.min (roundedValue z) maxValue.
Proof. destruct z; try lia. reflexivity. Qed.

Lemma roundedExact_neg z :
  z < 0 -> roundedExact z = - Z.min (roundedValue (- z)) maxValue.
Proof. destruct z; try lia. reflexivity. Qed.

Lemma roundedExact_opp z : roundedExact (- z) = - roundedExact z.
Proof. destruct z; cbn [roundedExact Z.opp]; lia. Qed.

Lemma iter_xO m d : Zpos (Pos.iter xO m d) = Zpos m * 2 ^ Zpos d.
Proof.
  induction d as [|d IH] using Pos.peano_ind.
  - cbn [Pos.iter]. rewrite Pos2Z.inj_xO. change (2 ^ 1) with 2. lia.
  - rewrite Pos.iter_succ, Pos2Z.inj_xO, IH, Pos2Z.inj_succ, Z.pow_succ_r by lia.
    ring.
Qed.

(** Where shl_align leaves the mantissa: the value is kept. *)
Lemma shl_align_value m e e' :
  let r := shl_align m e e' in
  snd r = Z.min e e' /\
  Zpos (fst r) = Zpos m * 2 ^ (e - Z.min e e').
Proof.
  cbv zeta. unfold shl_align.
  destruct (e' - e) as [|d|d] eqn:E; cbn [fst snd].
  - split; [lia|]. replace (e - Z.min e e') with 0 by lia. cbn. lia.
  - split; [lia|]. replace (e - Z.min e e') with 0 by lia. cbn. lia.
  - split; [lia|]. rewrite iter_xO. f_equal. f_equal. lia.
Qed.

Lemma binary_round_value s m e :
  -1074 <= e ->
  let r := binary_round prec emax s m e in
  r <> S754_nan /\
  exactValue r
  = cond_Zopp s (Z.min (roundedValue (Zpos m * 2 ^ (e + 1074))) maxValue).
Proof.
  intros He. cbv zeta. unfold binary_round.
  set (ec := fexp prec emax (Zpos (digits2_pos m) + e)).
  assert (Hec : ec = Z.max (Z.log2 (Zpos m) + 1 + e - 53) (-1074)).
  { unfold ec. rewrite fexp64, digits2_pos_log2. reflexivity. }
  destruct (shl_align_value m e ec) as [Hs Hm]. cbv zeta in Hs, Hm.
  destruct (shl_align m e ec) as [m1 e1]. cbn [fst snd] in Hs, Hm. subst e1.
  assert (Hd : 0 <= e - Z.min e ec) by lia.
  replace (Zpos m * 2 ^ (e + 1074))
    with (Zpos m1 * 2 ^ (Z.min e ec + 1074)).
  - apply binary_round_aux_value; [lia|].
    rewrite fexp64, digits2_pos_log2, Hm, Z.log2_mul_pow2 by lia.
    lia.
  - rewrite Hm, <- Z.mul_assoc, <- Z.pow_add_r by lia. f_equal. f_equal. lia.
Qed.

Lemma binary_normalize_value z e szero :
  -1074 <= e ->
  let r := binary_normalize prec emax z e szero in
  r <> S754_nan /\ exactValue r = roundedExact (z * 2 ^ (e + 1074)).
Proof.
  intros He. cbv zeta.
  assert (HP : 0 < 2 ^ (e + 1074)) by (apply pow2_pos; lia).
  destruct z as [|m|m]; cbn [binary_normalize].
  - split; [discriminate|reflexivity].
  - rewrite roundedExact_pos by lia. apply (binary_round_value false); exact He.
  - rewrite roundedExact_neg by lia.
    replace (- (Zneg m * 2 ^ (e + 1074))) with (Zpos m * 2 ^ (e + 1074)) by lia.
    apply (binary_round_value true); exact He.
Qed.

(** *** Valid numbers and their order *)

Lemma valid_finite s m e :
  valid_binary (S754_finite s m e) = true ->
  -1074 <= e <= 971 /\
  Zpos m < 2 ^ 53 /\
  (-1074 < e -> 2 ^ 52 <= Zpos m) /\
  Z.max (Z.log2 (Zpos m) + 1 + e - 53) (-1074) = e.
Proof.
  unfold valid_binary. cbn [SpecFloat.valid_binary].
  unfold bounded, canonical_mantissa.
  rewrite andb_true_iff, Z.eqb_eq, Z.leb_le, fexp64, digits2_pos_log2.
  change (emax - prec) with 971. intros [Hc Hb].
  destruct (Z.log2_spec (Zpos m)) as [Hlo Hhi]; [lia|].
  split; [lia|]. split; [|split; [|exact Hc]].
  - eapply Z.lt_le_trans; [exact Hhi|]. apply Z.pow_le_mono_r; lia.
  - intros H. eapply Z.le_trans; [|exact Hlo]. apply Z.pow_le_mono_r; lia.
Qed.

Lemma exactValue_finite_bounds s m e :
  valid_binary (S754_finite s m e) = true ->
  0 < Zpos m * 2 ^ (e + 1074) < maxValue.
Proof.
  intros H. destruct (valid_finite s m e H) as (He & Hm & _).
  split.
  - apply Z.mul_pos_pos; [lia|apply pow2_pos; lia].
  - unfold maxValue. apply (pow2_scale_lt _ 53); lia.
Qed.

(** A representable value rounds to itself. *)
Lemma roundedValue_representable s m e :
  valid_binary (S754_finite s m e) = true ->
  roundedValue (Zpos m * 2 ^ (e + 1074)) = Zpos m * 2 ^ (e + 1074).
Proof.
  intros H. destruct (valid_finite s m e H) as (He & _ & _ & Hc).
  unfold roundedValue. rewrite roundingShift_scaled by lia. rewrite Hc.
  rewrite rne_exact by lia. reflexivity.
Qed.

Lemma maxValue_pos : 0 < maxValue.
Proof. unfold maxValue. apply pow2_pos. lia. Qed.

Lemma exactValue_bounds x :
  valid_binary x = true -> - maxValue <= exactValue x <= maxValue.
Proof.
  intros H. pose proof maxValue_pos.
  destruct x as [s|s| |s m e]; cbn [exactValue]; try lia.
  - destruct s; cbn [cond_Zopp]; lia.
  - pose proof (exactValue_finite_bounds s m e H).
    destruct s; cbn [cond_Zopp]; lia.
Qed.

Lemma roundedExact_exactValue x :
  valid_binary x = true -> isNaN x = false ->
  roundedExact (exactValue x) = exactValue x.
Proof.
  intros H Hn. pose proof maxValue_pos as HM.
  destruct x as [s|s| |s m e]; cbn [exactValue]; try reflexivity;
    try discriminate Hn.
  - (* infinity *)
    assert (Hr : roundedExact maxValue = maxValue).
    { rewrite roundedExact_pos by lia.
      unfold roundedValue, maxValue.
      replace (roundingShift (2 ^ 2098)) with 2046
        by (unfold roundingShift; rewrite Z.log2_pow2 by lia; reflexivity).
      replace (2 ^ 2098) with (2 ^ 52 * 2 ^ 2046) at 1
        by (rewrite <- Z.pow_add_r by lia; reflexivity).
      rewrite rne_exact by lia.
      rewrite <- Z.pow_add_r by lia. apply Z.min_id. }
    destruct s; cbn [cond_Zopp]; [rewrite roundedExact_opp, Hr|]; auto.
  - pose proof (exactValue_finite_bounds s m e H).
    pose proof (roundedValue_representable s m e H) as Hr.
    destruct s; cbn [cond_Zopp].
    + rewrite roundedExact_opp, roundedExact_pos, Hr by lia. lia.
    + rewrite roundedExact_pos, Hr by lia. lia.
Qed.

(** The order of valid numbers is the order of their values. *)
Lemma SFcompare_exactValue x y :
  valid_binary x = true -> valid_binary y = true ->
  isNaN x = false -> isNaN y = false ->
  SFcompare x y = Some (exactValue x ?= exactValue y).
Proof.
  intros Hx Hy Nx Ny. pose proof maxValue_pos as HM.
  assert (Hc : forall a b c, (a ?= b) = c ->
                             Some c = Some (a ?= b)) by (intros; congruence).
  destruct x as [sx|sx| |sx mx ex]; try discriminate Nx;
    destruct y as [sy|sy| |sy my ey]; try discriminate Ny;
    cbn [SFcompare exactValue];
    try pose proof (exactValue_finite_bounds _ _ _ Hx) as Bx;
    try pose proof (exactValue_finite_bounds _ _ _ Hy) as By.
  - rewrite Z.compare_refl. reflexivity.
  - destruct sy; cbn [cond_Zopp]; apply Hc;
      [apply Z.compare_gt_iff | apply Z.compare_lt_iff]; lia.
  - destruct sy; cbn [cond_Zopp]; apply Hc;
      [apply Z.compare_gt_iff | apply Z.compare_lt_iff]; lia.
  - destruct sx; cbn [cond_Zopp]; apply Hc;
      [apply Z.compare_lt_iff | apply Z.compare_gt_iff]; lia.
  - destruct sx, sy; cbn [cond_Zopp]; apply Hc;
      first [apply Z.compare_eq_iff | apply Z.compare_lt_iff
            | apply Z.compare_gt_iff]; lia.
  - destruct sx, sy; cbn [cond_Zopp]; apply Hc;
      first [apply Z.compare_lt_iff; lia | apply Z.compare_gt_iff; lia].
  - destruct sx; cbn [cond_Zopp]; apply Hc;
      [apply Z.compare_lt_iff | apply Z.compare_gt_iff]; lia.
  - destruct sx, sy; cbn [cond_Zopp]; apply Hc;
      first [apply Z.compare_lt_iff; lia | apply Z.compare_gt_iff; lia].
  - (* two finite numbers *)
    destruct (valid_finite _ _ _ Hx) as (Hex & Hmx & Hnx & _).
    destruct (valid_finite _ _ _ Hy) as (Hey & Hmy & Hny & _).
    assert (Hlt : forall m1 e1 m2 e2,
              -1074 <= e1 -> e1 < e2 -> Zpos m1 < 2 ^ 53 -> 2 ^ 52 <= Zpos m2 ->
              Zpos m1 * 2 ^ (e1 + 1074) < Zpos m2 * 2 ^ (e2 + 1074)).
    { intros m1 e1 m2 e2 H1 H2 H3 H4.
      apply Z.lt_le_trans with (2 ^ (e1 + 1074 + 53)).
      - apply (pow2_scale_lt _ 53); lia.
      - apply (pow2_scale_le _ 52); lia. }
    rewrite Pos.compare_cont_spec. cbn [Pos.switch_Eq].
    change (Pos.compare mx my) with (Zpos mx ?= Zpos my).
    destruct sx, sy; cbn [cond_Zopp]; apply Hc;
      try (apply Z.compare_lt_iff; lia); try (apply Z.compare_gt_iff; lia).
    + destruct (Z.compare_spec ex ey) as [E|E|E].
      * subst ey. rewrite <- Z.compare_opp.
        assert (HP : 0 < 2 ^ (ex + 1074)) by (apply pow2_pos; lia).
        destruct (Z.compare_spec (Zpos mx) (Zpos my)) as [E|E|E]; cbn [CompOpp];
          [apply Z.compare_eq_iff | apply Z.compare_gt_iff
          | apply Z.compare_lt_iff]; nia.
      * apply Z.compare_gt_iff.
        pose proof (Hlt mx ex my ey ltac:(lia) E Hmx ltac:(apply Hny; lia)). lia.
      * apply Z.compare_lt_iff.
        pose proof (Hlt my ey mx ex ltac:(lia) E Hmy ltac:(apply Hnx; lia)). lia.
    + destruct (Z.compare_spec ex ey) as [E|E|E].
      * subst ey.
        assert (HP : 0 < 2 ^ (ex + 1074)) by (apply pow2_pos; lia).
        destruct (Z.compare_spec (Zpos mx) (Zpos my)) as [E|E|E];
          [apply Z.compare_eq_iff | apply Z.compare_lt_iff
          | apply Z.compare_gt_iff]; nia.
      * apply Z.compare_lt_iff.
        exact (Hlt mx ex my ey ltac:(lia) E Hmx ltac:(apply Hny; lia)).
      * apply Z.compare_gt_iff.
        pose proof (Hlt my ey mx ex ltac:(lia) E Hmy ltac:(apply Hnx; lia)). lia.
Qed.

(** *** Sums and differences *)

Lemma roundedValue_nonneg u : 0 < u -> 0 <= roundedValue u.
Proof.
  intros Hu. unfold roundedValue.
  pose proof (roundingShift_nonneg u) as Hk.
  pose proof (rne_bounds u (roundingShift u) Hk) as [Hb _].
  assert (0 <= u / 2 ^ roundingShift u)
    by (apply Z.div_pos; [lia | apply pow2_pos; exact Hk]).
  apply Z.mul_nonneg_nonneg; [lia | apply Z.pow_nonneg; lia].
Qed.

Lemma roundedExact_mono z z' : z <= z' -> roundedExact z <= roundedExact z'.
Proof.
  intros H. pose proof maxValue_pos as HM.
  destruct (Z.lt_trichotomy z 0) as [Hz|[Hz|Hz]];
    destruct (Z.lt_trichotomy z' 0) as [Hz'|[Hz'|Hz']]; try lia;
    repeat first [ rewrite (roundedExact_neg z) by lia
                 | rewrite (roundedExact_neg z') by lia
                 | rewrite (roundedExact_pos z) by lia
                 | rewrite (roundedExact_pos z') by lia ];
    subst; cbn [roundedExact];
    try pose proof (roundedValue_nonneg (- z) ltac:(lia));
    try pose proof (roundedValue_nonneg (- z') ltac:(lia));
    try pose proof (roundedValue_nonneg z ltac:(lia));
    try pose proof (roundedValue_nonneg z' ltac:(lia));
    try pose proof (roundedValue_mono (- z') (- z) ltac:(lia) ltac:(lia));
    try pose proof (roundedValue_mono z z' ltac:(lia) ltac:(lia));
    lia.
Qed.

Lemma roundedExact_bounds z : - maxValue <= roundedExact z <= maxValue.
Proof.
  pose proof maxValue_pos as HM.
  destruct z as [|p|p]; cbn [roundedExact]; [lia| |].
  - pose proof (roundedValue_nonneg (Zpos p) ltac:(lia)). lia.
  - pose proof (roundedValue_nonneg (Zpos p) ltac:(lia)). lia.
Qed.

Lemma aligned_value s m e ez :
  -1074 <= ez -> ez <= e ->
  cond_Zopp s (Zpos (fst (shl_align m e ez))) * 2 ^ (ez + 1074)
  = cond_Zopp s (Zpos m * 2 ^ (e + 1074)).
Proof.
  intros H1 H2. destruct (shl_align_value m e ez) as [_ Hm]. cbv zeta in Hm.
  rewrite Hm. replace (Z.min e ez) with ez by lia.
  assert (E : Zpos m * 2 ^ (e - ez) * 2 ^ (ez + 1074) = Zpos m * 2 ^ (e + 1074)).
  { rewrite <- Z.mul_assoc, <- Z.pow_add_r by lia. f_equal. f_equal. lia. }
  destruct s; cbn [cond_Zopp]; lia.
Qed.

Lemma SFadd_value x y :
  valid_binary x = true -> valid_binary y = true ->
  isFiniteOrZero x = true -> isFiniteOrZero y = true ->
  isNaN (SFadd prec emax x y) = false /\
  exactValue (SFadd prec emax x y) = roundedExact (exactValue x + exactValue y).
Proof.
  intros Hx Hy Fx Fy.
  destruct x as [sx|sx| |sx mx ex]; try discriminate Fx;
    destruct y as [sy|sy| |sy my ey]; try discriminate Fy;
    cbn [SFadd].
  - destruct sx, sy; split; reflexivity.
  - split; [reflexivity|].
    rewrite Z.add_0_l, roundedExact_exactValue; auto.
  - split; [reflexivity|].
    change (exactValue (S754_zero sy)) with 0.
    rewrite Z.add_0_r, roundedExact_exactValue; auto.
  - destruct (valid_finite _ _ _ Hx) as (Hex & _).
    destruct (valid_finite _ _ _ Hy) as (Hey & _).
    destruct (binary_normalize_value
                (cond_Zopp sx (Zpos (fst (shl_align mx ex (Z.min ex ey)))) +
                 cond_Zopp sy (Zpos (fst (shl_align my ey (Z.min ex ey)))))
                (Z.min ex ey) false ltac:(lia)) as [Hn Hv].
    split.
    + destruct (binary_normalize _ _ _ _ _); try reflexivity. contradiction.
    + rewrite Hv. f_equal. cbn [exactValue].
      rewrite Z.mul_add_distr_r, !aligned_value by lia. reflexivity.
Qed.

Lemma cond_Zopp_negb s z : cond_Zopp (negb s) z = - cond_Zopp s z.
Proof. destruct s; cbn; lia. Qed.

Lemma SFsub_value x y :
  valid_binary x = true -> valid_binary y = true ->
  isFiniteOrZero x = true -> isFiniteOrZero y = true ->
  isNaN (SFsub prec emax x y) = false /\
  exactValue (SFsub prec emax x y) = roundedExact (exactValue x - exactValue y).
Proof.
  intros Hx Hy Fx Fy.
  destruct x as [sx|sx| |sx mx ex]; try discriminate Fx;
    destruct y as [sy|sy| |sy my ey]; try discriminate Fy;
    cbn [SFsub].
  - destruct sx, sy; split; reflexivity.
  - split; [reflexivity|].
    change (exactValue (S754_zero sx)) with 0.
    rewrite Z.sub_0_l, roundedExact_opp, roundedExact_exactValue; auto.
    cbn [exactValue]. apply cond_Zopp_negb.
  - split; [reflexivity|].
    change (exactValue (S754_zero sy)) with 0.
    rewrite Z.sub_0_r, roundedExact_exactValue; auto.
  - destruct (valid_finite _ _ _ Hx) as (Hex & _).
    destruct (valid_finite _ _ _ Hy) as (Hey & _).
    destruct (binary_normalize_value
                (cond_Zopp sx (Zpos (fst (shl_align mx ex (Z.min ex ey)))) -
                 cond_Zopp sy (Zpos (fst (shl_align my ey (Z.min ex ey)))))
                (Z.min ex ey) false ltac:(lia)) as [Hn Hv].
    split.
    + destruct (binary_normalize _ _ _ _ _); try reflexivity. contradiction.
    + rewrite Hv. f_equal. cbn [exactValue].
      rewrite Z.mul_sub_distr_r, !aligned_value by lia. reflexivity.
Qed.

Lemma SFleb_exactValue x y :
  valid_binary x = true -> valid_binary y = true ->
  SFleb x y = true ->
  isNaN x = false /\ isNaN y = false /\ exactValue x <= exactValue y.
Proof.
  intros Hx Hy H. unfold SFleb in H.
  destruct x as [sx|sx| |sx mx ex], y as [sy|sy| |sy my ey];
    try discriminate H;
    (split; [reflexivity|]; split; [reflexivity|]);
    rewrite SFcompare_exactValue in H by auto;
    match type of H with
    | context [(?a ?= ?b)] => destruct (Z.compare_spec a b)
    end; try discriminate H; lia.
Qed.

Lemma SFltb_exactValue x y :
  valid_binary x = true -> valid_binary y = true ->
  SFltb x y = true <->
  isNaN x = false /\ isNaN y = false /\ exactValue x < exactValue y.
Proof.
  intros Hx Hy. unfold SFltb. split.
  - intros H.
    destruct x as [sx|sx| |sx mx ex], y as [sy|sy| |sy my ey];
      try discriminate H;
      (split; [reflexivity|]; split; [reflexivity|]);
      rewrite SFcompare_exactValue in H by auto;
      match type of H with
      | context [(?a ?= ?b)] => destruct (Z.compare_spec a b)
      end; try discriminate H; lia.
  - intros (Nx & Ny & H).
    rewrite SFcompare_exactValue by auto.
    apply Z.compare_lt_iff in H. rewrite H. reflexivity.
Qed.

(** A number whose value is that of an infinity is that infinity. *)
Lemma exactValue_infinite x :
  valid_binary x = true -> isNaN x = false ->
  (exactValue x <= - maxValue -> x = S754_infinity true) /\
  (maxValue <= exactValue x -> x = S754_infinity false).
Proof.
  intros Hx Nx. pose proof maxValue_pos as HM.
  destruct x as [s|s| |s m e]; try discriminate Nx; cbn [exactValue].
  - split; lia.
  - destruct s; cbn [cond_Zopp]; split; intros; try reflexivity; lia.
  - pose proof (exactValue_finite_bounds s m e Hx).
    destruct s; cbn [cond_Zopp]; split; lia.
Qed.

Lemma finite_or_infinite x :
  isNaN x = false ->
  isFiniteOrZero x = true \/ x = S754_infinity true \/ x = S754_infinity false.
Proof.
  destruct x as [s|[|]| |s m e]; intros H; try discriminate H; auto.
Qed.

(** Adding more gives no less. *)
Lemma SFadd_mono a x x' :
  valid_binary a = true -> valid_binary x = true -> valid_binary x' = true ->
  SFleb x x' = true ->
  isNaN (SFadd prec emax a x') = true \/
  exactValue (SFadd prec emax a x') = maxValue \/
  (isNaN (SFadd prec emax a x) = false /\
   exactValue (SFadd prec emax a x) <= exactValue (SFadd prec emax a x')).
Proof.
  intros Ha Hx Hx' Hle.
  destruct (SFleb_exactValue x x' Hx Hx' Hle) as (Nx & Nx' & Hv).
  pose proof maxValue_pos as HM.
  destruct (exactValue_infinite x Hx Nx) as [Ix1 Ix2].
  destruct (exactValue_infinite x' Hx' Nx') as [Ix'1 Ix'2].
  pose proof (exactValue_bounds x Hx) as Bx.
  pose proof (exactValue_bounds x' Hx') as Bx'.
  destruct (isNaN a) eqn:Na.
  { destruct a; try discriminate Na. left. reflexivity. }
  destruct (finite_or_infinite a Na) as [Fa|[->| ->]];
    destruct (finite_or_infinite x' Nx') as [Fx'|[->| ->]].
  - destruct (finite_or_infinite x Nx) as [Fx|[->| ->]].
    + destruct (SFadd_value a x Ha Hx Fa Fx) as [N1 V1].
      destruct (SFadd_value a x' Ha Hx' Fa Fx') as [N2 V2].
      right. right. split; [exact N1|]. rewrite V1, V2.
      apply roundedExact_mono. lia.
    + destruct (SFadd_value a x' Ha Hx' Fa Fx') as [N2 V2].
      right. right. rewrite V2.
      pose proof (roundedExact_bounds (exactValue a + exactValue x')).
      destruct a; try discriminate Fa;
        cbn [SFadd isNaN exactValue cond_Zopp] in *;
        split; try reflexivity; lia.
    + cbn [exactValue cond_Zopp] in *. rewrite (Ix'2 ltac:(lia)).
      right. left. destruct a; try discriminate Fa; reflexivity.
  - cbn [exactValue cond_Zopp] in *. rewrite (Ix1 ltac:(lia)).
    right. right. destruct a; try discriminate Fa; split; try reflexivity;
      cbn [SFadd exactValue cond_Zopp]; lia.
  - right. left. destruct a; try discriminate Fa; reflexivity.
  - right. right.
    assert (Hx'' : x = S754_infinity true \/ isFiniteOrZero x = true).
    { destruct (finite_or_infinite x Nx) as [Fx|[->| ->]]; auto.
      cbn [exactValue cond_Zopp] in *.
      destruct x'; try discriminate Fx'; cbn [exactValue] in *; try lia.
      pose proof (exactValue_finite_bounds _ _ _ Hx').
      destruct s; cbn [cond_Zopp] in *; lia. }
    destruct Hx'' as [->|Fx];
      destruct x'; try discriminate Fx';
      try (destruct x; try discriminate Fx);
      cbn [SFadd isNaN exactValue cond_Zopp]; split; try reflexivity; lia.
  - cbn [exactValue cond_Zopp] in *. rewrite (Ix1 ltac:(lia)).
    right. right. split; reflexivity || (cbn [SFadd]; lia).
  - left. reflexivity.
  - right. left.
    destruct x'; try discriminate Fx'; reflexivity.
  - left. reflexivity.
  - right. left. reflexivity.
Qed.

(** Taking more away leaves no more. *)
Lemma SFsub_mono a x x' :
  valid_binary a = true -> valid_binary x = true -> valid_binary x' = true ->
  SFleb x x' = true ->
  isNaN (SFsub prec emax a x') = true \/
  exactValue (SFsub prec emax a x') = - maxValue \/
  (isNaN (SFsub prec emax a x) = false /\
   exactValue (SFsub prec emax a x') <= exactValue (SFsub prec emax a x)).
Proof.
  intros Ha Hx Hx' Hle.
  destruct (SFleb_exactValue x x' Hx Hx' Hle) as (Nx & Nx' & Hv).
  pose proof maxValue_pos as HM.
  destruct (exactValue_infinite x Hx Nx) as [Ix1 Ix2].
  destruct (exactValue_infinite x' Hx' Nx') as [Ix'1 Ix'2].
  pose proof (exactValue_bounds x Hx) as Bx.
  pose proof (exactValue_bounds x' Hx') as Bx'.
  destruct (isNaN a) eqn:Na.
  { destruct a; try discriminate Na. left. reflexivity. }
  destruct (finite_or_infinite a Na) as [Fa|[->| ->]];
    destruct (finite_or_infinite x' Nx') as [Fx'|[->| ->]].
  - destruct (finite_or_infinite x Nx) as [Fx|[->| ->]].
    + destruct (SFsub_value a x Ha Hx Fa Fx) as [N1 V1].
      destruct (SFsub_value a x' Ha Hx' Fa Fx') as [N2 V2].
      right. right. split; [exact N1|]. rewrite V1, V2.
      apply roundedExact_mono. lia.
    + destruct (SFsub_value a x' Ha Hx' Fa Fx') as [N2 V2].
      right. right. rewrite V2.
      pose proof (roundedExact_bounds (exactValue a - exactValue x')).
      destruct a; try discriminate Fa;
        cbn [SFsub isNaN exactValue cond_Zopp negb] in *;
        split; try reflexivity; lia.
    + cbn [exactValue cond_Zopp] in *. rewrite (Ix'2 ltac:(lia)).
      right. left. destruct a; try discriminate Fa; reflexivity.
  - cbn [exactValue cond_Zopp] in *. rewrite (Ix1 ltac:(lia)).
    right. right. destruct a; try discriminate Fa; split; try reflexivity;
      cbn [SFsub exactValue cond_Zopp negb]; lia.
  - right. left. destruct a; try discriminate Fa; reflexivity.
  - right. left. destruct x'; try discriminate Fx'; reflexivity.
  - left. reflexivity.
  - right. left. reflexivity.
  - right. right.
    assert (Hx'' : x = S754_infinity true \/ isFiniteOrZero x = true).
    { destruct (finite_or_infinite x Nx) as [Fx|[->| ->]]; auto.
      cbn [exactValue cond_Zopp] in *.
      destruct x'; try discriminate Fx'; cbn [exactValue] in *; try lia.
      pose proof (exactValue_finite_bounds _ _ _ Hx').
      destruct s; cbn [cond_Zopp] in *; lia. }
    destruct Hx'' as [->|Fx];
      destruct x'; try discriminate Fx';
      try (destruct x; try discriminate Fx);
      cbn [SFsub isNaN exactValue cond_Zopp]; split; try reflexivity; lia.
  - cbn [exactValue cond_Zopp] in *. rewrite (Ix1 ltac:(lia)).
    right. right. split; reflexivity || (cbn [SFsub]; lia).
  - left. reflexivity.
Qed.

End Binary64Order.

Section Binary64Monotone.

Local Open Scope float_scope.

(** A sum of finite numbers is the exact sum rounded to nearest, ties to
    even, and so is a difference. *)
Lemma add_rounds_exact_sum (a x : float) :
  isFiniteOrZero (Prim2SF a) = true -> isFiniteOrZero (Prim2SF x) = true ->
  exactValue (Prim2SF (a + x))
  = roundedExact (exactValue (Prim2SF a) + exactValue (Prim2SF x)).
Proof.
  intros Fa Fx. rewrite add_spec.
  apply SFadd_value; auto using Prim2SF_valid.
Qed.

Lemma sub_rounds_exact_difference (a x : float) :
  isFiniteOrZero (Prim2SF a) = true -> isFiniteOrZero (Prim2SF x) = true ->
  exactValue (Prim2SF (a - x))
  = roundedExact (exactValue (Prim2SF a) - exactValue (Prim2SF x)).
Proof.
  intros Fa Fx. rewrite sub_spec.
  apply SFsub_value; auto using Prim2SF_valid.
Qed.

(** Binary64 addition is monotone: if [a + x'] stays below [t], so does
    [a + x] for any [x <= x']. *)
Lemma add_below_mono (a x x' t : float) :
  (x <=? x') = true -> (a + x' <? t) = true -> (a + x <? t) = true.
Proof.
  rewrite leb_spec, !ltb_spec. intros Hle Hlt.
  pose proof (Prim2SF_valid (a + x)) as V1.
  pose proof (Prim2SF_valid (a + x')) as V2.
  pose proof (Prim2SF_valid t) as Vt.
  apply SFltb_exactValue in Hlt; [|assumption..].
  destruct Hlt as (N2 & Nt & Hlt).
  apply SFltb_exactValue; [assumption..|].
  pose proof (exactValue_bounds _ Vt) as Bt.
  rewrite add_spec in *.
  destruct (SFadd_mono (Prim2SF a) (Prim2SF x) (Prim2SF x')
              (Prim2SF_valid a) (Prim2SF_valid x) (Prim2SF_valid x') Hle)
    as [H|[H|[H1 H2]]].
  - unfold SF64add in N2. congruence.
  - unfold SF64add in Hlt. lia.
  - unfold SF64add in *. repeat split; [assumption..|lia].
Qed.

(** Binary64 subtraction is antitone in what is taken away. *)
Lemma sub_above_mono (a x x' t : float) :
  (x <=? x') = true -> (t <? a - x') = true -> (t <? a - x) = true.
Proof.
  rewrite leb_spec, !ltb_spec. intros Hle Hlt.
  pose proof (Prim2SF_valid (a - x)) as V1.
  pose proof (Prim2SF_valid (a - x')) as V2.
  pose proof (Prim2SF_valid t) as Vt.
  apply SFltb_exactValue in Hlt; [|assumption..].
  destruct Hlt as (Nt & N2 & Hlt).
  apply SFltb_exactValue; [assumption..|].
  pose proof (exactValue_bounds _ Vt) as Bt.
  rewrite sub_spec in *.
  destruct (SFsub_mono (Prim2SF a) (Prim2SF x) (Prim2SF x')
              (Prim2SF_valid a) (Prim2SF_valid x) (Prim2SF_valid x') Hle)
    as [H|[H|[H1 H2]]].
  - unfold SF64sub in N2. congruence.
  - unfold SF64sub in Hlt. lia.
  - unfold SF64sub in *. repeat split; [assumption..|lia].
Qed.

(** 0.1 + 0.2: the exact sum lies strictly below 0.30000000000000004 and
    rounds up onto it (see [isOverTarget_rounds_as_binary64]). *)
Example sum_rounds_onto_edge :
  (exactValue (Prim2SF 0x1.999999999999ap-4) +
   exactValue (Prim2SF 0x1.999999999999ap-3)
   < exactValue (Prim2SF 0x1.3333333333334p-2))%Z /\
  (0x1.999999999999ap-4 + 0x1.999999999999ap-3 = 0x1.3333333333334p-2)%float.
Proof. split; [vm_compute|]; reflexivity. Qed.

End Binary64Monotone.

(** X20. The hit test is monotone in the contact size: a point over the
    target stays over it when, at the same coordinates, its horizontal and
    vertical inflation do not shrink. *)
Theorem isOverTarget_monotone_in_contact_size (p p' : EventPoint)
    (target : Element)
    (Hx : clientX p' = clientX p) (Hy : clientY p' = clientY p)
    (Hw : (HitTestSpec.inflateX p <=? HitTestSpec.inflateX p')%float = true)
    (Hh : (HitTestSpec.inflateY p <=? HitTestSpec.inflateY p')%float = true) :
  isOverTarget p target = true -> isOverTarget p' target = true.
Proof.
  unfold isOverTarget, areRectanglesOverlapping, gt.
  destruct (getPointClientRect_centred p) as (Cl & Cr & Ct & Cb).
  destruct (getPointClientRect_centred p') as (Cl' & Cr' & Ct' & Cb').
  rewrite Cl, Cr, Ct, Cb, Cl', Cr', Ct', Cb', Hx, Hy.
  set (r := boundingClientRect target).
  set (x := clientX p). set (y := clientY p).
  set (dx := HitTestSpec.inflateX p) in *.
  set (dy := HitTestSpec.inflateY p) in *.
  set (dx' := HitTestSpec.inflateX p') in *.
  set (dy' := HitTestSpec.inflateY p') in *.
  intros H.
  destruct (x + dx <? left r)%float eqn:E1; [discriminate H|].
  destruct (right r <? x - dx)%float eqn:E2; [discriminate H|].
  destruct (y + dy <? top r)%float eqn:E3; [discriminate H|].
  destruct (bottom r <? y - dy)%float eqn:E4; [discriminate H|].
  destruct (x + dx' <? left r)%float eqn:F1;
    [rewrite (add_below_mono _ _ _ _ Hw F1) in E1; discriminate E1|].
  destruct (right r <? x - dx')%float eqn:F2;
    [rewrite (sub_above_mono _ _ _ _ Hw F2) in E2; discriminate E2|].
  destruct (y + dy' <? top r)%float eqn:F3;
    [rewrite (add_below_mono _ _ _ _ Hh F3) in E3; discriminate E3|].
  destruct (bottom r <? y - dy')%float eqn:F4;
    [rewrite (sub_above_mono _ _ _ _ Hh F4) in E4; discriminate E4|].
  reflexivity.
Qed.

Lemma isOverTarget_monotone_in_contact_size_witness :
  isOverTarget edgePoint sampleButton = true /\
  isOverTarget (mkEventPoint 12 5 (Some 6%float) None None (Some 3%float))
    sampleButton
  = true.
Proof.
  split; [reflexivity|].
  apply (isOverTarget_monotone_in_contact_size edgePoint
           (mkEventPoint 12 5 (Some 6%float) None None (Some 3%float))
           sampleButton); reflexivity.
Defined.

(* ------------------------------------------------------------------ *)
(** ** The further properties at sample inputs *)

Lemma text_selection_untouched_when_allowed_witness :
  Forall (fun ci => allowTextSelectionOnPress (fst ci) = true)
    (pointerPressAndRelease (withAllowTextSelection true defaultConfig)) /\
  Forall noTextSelection
    (trace (run (macBrowser false)
              (pointerPressAndRelease (withAllowTextSelection true defaultConfig))
              boundButton)).
Proof.
  assert (H : Forall (fun ci => allowTextSelectionOnPress (fst ci) = true)
                (pointerPressAndRelease
                   (withAllowTextSelection true defaultConfig))).
  { repeat constructor. }
  split; [exact H|].
  exact (text_selection_untouched_when_allowed (macBrowser false) boundButton
           _ H).
Defined.

Lemma focus_never_moved_when_prevented_witness :
  Forall (fun ci => preventFocusOnPress (fst ci) = true \/
                    isDisabled (fst ci) = true)
    (pointerPressAndRelease (withPreventFocus true defaultConfig)) /\
  focused
    (trace (run (macBrowser false)
              (pointerPressAndRelease (withPreventFocus true defaultConfig))
              boundButton)) = [].
Proof.
  assert (H : Forall (fun ci => preventFocusOnPress (fst ci) = true \/
                                isDisabled (fst ci) = true)
                (pointerPressAndRelease (withPreventFocus true defaultConfig))).
  { repeat constructor; left; reflexivity. }
  split; [exact H|].
  exact (focus_never_moved_when_prevented (macBrowser false) boundButton _ H).
Defined.

(** Enter released on the sample button after its keydown. *)
Lemma keyup_ends_keyboard_press_witness :
  let e := keyEvent "Enter" "Enter" sampleButton in
  let r := onKeyUp (macBrowser false) defaultConfig e afterEnterKeydown in
  PressState.isPressed (state afterEnterKeydown) = true /\
  PressState.didFirePressStart (state afterEnterKeydown) = true /\
  isValidKeyboardEvent e sampleButton = true /\
  map PressEvent.type (dispatched (trace r)) = [pressend; press] /\
  PressState.isPressed (state (final r)) = false.
Proof.
  cbv zeta.
  do 3 (split; [reflexivity|]).
  pose proof (keyup_ends_keyboard_press (macBrowser false) defaultConfig
                (keyEvent "Enter" "Enter" sampleButton) afterEnterKeydown
                sampleButton sampleButton eq_refl eq_refl eq_refl eq_refl
                eq_refl) as H.
  cbv zeta in H. destruct H as (Hd & Hp & _).
  split; [rewrite Hd; reflexivity | exact Hp].
Defined.

(** Pointer 1 released at the centre of the sample button. *)
Lemma pointerup_ends_pointer_press_witness :
  let e := documentPointerEvent 1 5 5 sampleButton in
  let r := PointerHandlers.onPointerUp defaultConfig e pressedByPointer in
  PressState.isPressed (state pressedByPointer) = true /\
  PressState.activePointerId (state pressedByPointer) = Some 1%Z /\
  map PressEvent.type (dispatched (trace r)) = [pressend; press] /\
  globalListeners (final r) = [].
Proof.
  cbv zeta.
  do 2 (split; [reflexivity|]).
  pose proof (pointerup_ends_pointer_press defaultConfig
                (documentPointerEvent 1 5 5 sampleButton) pressedByPointer
                sampleButton sampleButton mouse eq_refl eq_refl eq_refl
                eq_refl eq_refl eq_refl) as H.
  cbv zeta in H. destruct H as (Hd & _ & _ & _ & _ & Hl).
  split; [rewrite Hd; reflexivity | exact Hl].
Defined.

(** A second keydown of Enter while the first is still held. *)
Lemma repeated_keydown_starts_nothing_witness :
  let e := keyEvent "Enter" "Enter" sampleButton in
  let r := BaseHandlers.onKeyDown (macBrowser false) defaultConfig e
             afterEnterKeydown in
  PressState.isPressed (state afterEnterKeydown) = true /\
  Forall noPressEffect (trace r) /\
  globalListeners (final r) = globalListeners afterEnterKeydown.
Proof.
  cbv zeta. split; [reflexivity|].
  pose proof (repeated_keydown_starts_nothing (macBrowser false) defaultConfig
                (keyEvent "Enter" "Enter" sampleButton) afterEnterKeydown
                (or_intror eq_refl)) as H.
  cbv zeta in H. destruct H as (Hs & _ & _ & _ & _ & Hl).
  split; [exact Hs | exact Hl].
Defined.

(** Pointer 2 going down, moving and going up while pointer 1 presses. *)
Lemma second_pointer_is_not_tracked_witness :
  let e := pointerEvent 2 5 5 sampleButton in
  PressState.activePointerId (state pressedByPointer) = Some 1%Z /\
  PointerHandlers.handlers.onPointerDown (macBrowser false) defaultConfig e
    pressedByPointer
  = (tt, withPointerType (Some mouse) pressedByPointer, [StopPropagation]) /\
  PointerHandlers.onPointerUp defaultConfig e pressedByPointer
  = (tt, pressedByPointer, []).
Proof.
  cbv zeta. split; [reflexivity|].
  pose proof (second_pointer_is_not_tracked (macBrowser false) defaultConfig
                (pointerEvent 2 5 5 sampleButton) pressedByPointer
                sampleButton eq_refl eq_refl eq_refl eq_refl eq_refl eq_refl)
    as H.
  destruct H as (Hd & _ & Hu). split; [exact Hd | exact Hu].
Defined.

Lemma virtual_pointer_events_are_deferred_witness :
  let e := pointerEvent 1 5 5 sampleButton in
  let r := PointerHandlers.handlers.onPointerDown assistiveBrowser
             defaultConfig e boundButton in
  isVirtualPointerEvent assistiveBrowser e = true /\
  r = (tt, withPointerType (Some virtual) boundButton, []) /\
  PointerHandlers.handlers.onPointerUp defaultConfig e (final r)
  = (tt, final r, []).
Proof.
  cbv zeta. split; [reflexivity|].
  exact (virtual_pointer_events_are_deferred assistiveBrowser defaultConfig
           (pointerEvent 1 5 5 sampleButton) (pointerEvent 1 5 5 sampleButton)
           boundButton sampleButton eq_refl eq_refl eq_refl eq_refl).
Defined.

Lemma outside_events_are_ignored_witness :
  targetInside (Keydown outsideKeydown) = Some false /\
  isValidKeyboardEvent outsideKeydown sampleButton = true /\
  step (macBrowser false) defaultConfig (Keydown outsideKeydown) boundButton
  = (tt, boundButton, []).
Proof.
  do 2 (split; [reflexivity|]).
  exact (outside_events_are_ignored (macBrowser false) defaultConfig
           (Keydown outsideKeydown) boundButton eq_refl eq_refl).
Defined.

Lemma other_buttons_are_ignored_witness :
  buttonOf (Pointerdown secondaryButtonDown) = Some 2%Z /\
  step (macBrowser false) defaultConfig (Pointerdown secondaryButtonDown)
    boundButton
  = (tt, boundButton, []).
Proof.
  split; [reflexivity|].
  apply (other_buttons_are_ignored (macBrowser false) defaultConfig
           (Pointerdown secondaryButtonDown) boundButton 2%Z eq_refl).
  discriminate.
Defined.

(** The mousedown a browser emulates after a touch on the sample button. *)
Lemma emulated_mouse_events_are_suppressed_witness :
  hasPointerEvent legacyBrowser = false /\
  PressState.ignoreEmulatedMouseEvents (state pressedByTouch) = true /\
  final (step legacyBrowser defaultConfig
           (Mousedown (mouseEvent 5 5 sampleButton)) pressedByTouch)
  = pressedByTouch.
Proof.
  do 2 (split; [reflexivity|]).
  exact (proj2 (proj1 (emulated_mouse_events_are_suppressed legacyBrowser
                         defaultConfig pressedByTouch eq_refl)
                  eq_refl (Mousedown (mouseEvent 5 5 sampleButton)) eq_refl)
           eq_refl).
Defined.

(** Space released on an anchor with role="button": the engine opens the
    link. *)
Lemma link_opened_only_on_role_override_witness :
  let e := keyEvent " " "Space" buttonRoleAnchor in
  In (OpenLink buttonRoleAnchor)
    (trace (step (macBrowser false) defaultConfig (DocumentKeyup e)
              anchorPressedWithSpace)) /\
  PressState.target (state anchorPressedWithSpace) = Some buttonRoleAnchor /\
  truthy (roleAttr buttonRoleAnchor) = true /\
  roleAttr buttonRoleAnchor <> Some "link".
Proof.
  cbv zeta.
  assert (H : In (OpenLink buttonRoleAnchor)
                (trace (step (macBrowser false) defaultConfig
                          (DocumentKeyup (keyEvent " " "Space" buttonRoleAnchor))
                          anchorPressedWithSpace))).
  { vm_compute. tauto. }
  split; [exact H|].
  destruct (link_opened_only_on_role_override (macBrowser false) defaultConfig
              _ anchorPressedWithSpace buttonRoleAnchor H)
    as (e' & _ & Ht & _ & _ & Hr1 & Hr2 & _).
  repeat split; assumption.
Defined.

(** Touch 1 lifted at the centre of the sample button. *)
Lemma touchend_ends_touch_press_witness :
  let e := touchEvent 1 5 5 sampleButton in
  let r := NonPointerHandlers.handlers.onTouchEnd defaultConfig e
             pressedByTouch in
  PressState.isPressed (state pressedByTouch) = true /\
  PressState.pointerType (state pressedByTouch) = Some touch /\
  map PressEvent.type (dispatched (trace r)) = [pressup; pressend; press] /\
  PressState.isPressed (state (final r)) = false /\
  globalListeners (final r) = [].
Proof.
  cbv zeta.
  do 2 (split; [reflexivity|]).
  pose proof (touchend_ends_touch_press defaultConfig
                (touchEvent 1 5 5 sampleButton) pressedByTouch sampleButton
                sampleButton touch eq_refl eq_refl eq_refl eq_refl eq_refl)
    as H.
  cbv zeta in H. destruct H as (Hd & Hp & _ & _ & _ & Hl).
  split; [rewrite Hd; reflexivity|]. split; [exact Hp | exact Hl].
Defined.

(** The main mouse button released at the centre of the sample button. *)
Lemma mouseup_ends_mouse_press_witness :
  let e := mouseEvent 5 5 sampleButton in
  let r := NonPointerHandlers.onMouseUp defaultConfig e pressedByMouse in
  PressState.target (state pressedByMouse) = Some sampleButton /\
  PressState.pointerType (state pressedByMouse) = Some mouse /\
  map PressEvent.type (dispatched (trace r)) = [pressend; press] /\
  PressState.isPressed (state (final r)) = false /\
  globalListeners (final r) = [].
Proof.
  cbv zeta.
  do 2 (split; [reflexivity|]).
  pose proof (mouseup_ends_mouse_press defaultConfig
                (mouseEvent 5 5 sampleButton) pressedByMouse sampleButton
                sampleButton mouse eq_refl eq_refl eq_refl eq_refl) as H.
  cbv zeta in H. destruct H as (Hd & Hp & _ & Hl).
  split; [rewrite Hd; reflexivity|]. split; [exact Hp | exact Hl].
Defined.

(** The click a browser sends after a pointer press on the sample button,
    reported as virtual by the platform. *)
Lemma click_after_press_is_ignored_witness :
  let e := mouseEvent 5 5 sampleButton in
  let r := BaseHandlers.onClick (macBrowser true) defaultConfig true e
             afterPointerPress in
  PressState.ignoreClickAfterPress (state afterPointerPress) = true /\
  Forall noPressEffect (trace r) /\
  PressState.ignoreClickAfterPress (state (final r)) = false.
Proof.
  cbv zeta. split; [reflexivity|].
  pose proof (click_after_press_is_ignored (macBrowser true) defaultConfig
                true (mouseEvent 5 5 sampleButton) afterPointerPress
                sampleButton eq_refl eq_refl (or_introl eq_refl)) as H.
  cbv zeta in H. destruct H as (Hs & _ & Hc).
  split; [exact Hs | exact (proj1 (Hc eq_refl))].
Defined.
